(** * A voxel sandbox: key codec, terrain classifier, targeting, creatures

    Shallow embedding of [src/components/minecraft/utils.ts] and
    [src/components/minecraft/MinecraftGame.tsx].

    Numbers.  A JavaScript [number] that the program keeps integral (block
    coordinates, the results of [Math.round] and [Math.floor], mouse
    buttons) is a [Z]; every other [number] (positions, timers, deltas,
    random draws) is a real [R], so arithmetic is exact and there is
    neither rounding error nor [NaN].

    Objects.  [THREE.Vector3] methods mutate their receiver and return it.
    Where the program keeps several names for one vector (the targeting
    resolver), vectors live in a store and are handled through locations;
    where every vector has a single owner (the creature), they are plain
    values.

    Outside world.  [Math.random] and [Date.now] are streams of values
    still to come, threaded through the code; the frame delta is an
    argument, and so is the three.js raycaster, a record of functions. *)

From Stdlib Require Import ZArith String Ascii List Reals Lra Lia.
From Stdlib Require Import DecimalString DecimalZ.
From Equations Require Import Equations.
From stdpp Require Import gmap strings list.
Import ListNotations.

(** ** The fragment of the JavaScript runtime the program uses *)

Module JS.

(** [Number::toString] on an integral number: optional minus sign and
    decimal digits (as the language prints integers of magnitude below
    10^21, which covers every coordinate of the world). *)
Definition toString (n : Z) : string :=
  NilZero.string_of_int (Z.to_int n).

(** Result of [Number(s)].  [NonInt] stands for every result that is not
    an integer read off a plain decimal literal: [NaN], or the value of a
    literal with a fraction, an exponent, a radix prefix or white space,
    none of which the key codec produces. *)
Inductive number : Type :=
| Int (n : Z)
| NonInt.

(** A slot of a destructured array: a number, or [undefined] when the
    array is too short. *)
Inductive slot : Type :=
| Num (n : number)
| Undefined.

Definition digits (s : string) : number :=
  match s with
  | EmptyString => NonInt
  | _ => match NilEmpty.uint_of_string s with
         | Some d => Int (Z.of_uint d)
         | None => NonInt
         end
  end.

Definition negate (n : number) : number :=
  match n with
  | Int z => Int (- z)
  | NonInt => NonInt
  end.

(** [Number(s)] on the empty string and on signed decimal integers. *)
Definition Number (s : string) : number :=
  match s with
  | EmptyString => Int 0
  | String "-" s' => negate (digits s')
  | String "+" s' => digits s'
  | _ => digits s
  end.

(** [s.split(',')]: the pieces between commas; never the empty array. *)
Fixpoint split (s : string) : list string :=
  match s with
  | EmptyString => [EmptyString]
  | String c s' =>
      if Ascii.eqb c "," then EmptyString :: split s'
      else match split s' with
           | piece :: rest => String c piece :: rest
           | [] => [String c EmptyString]
           end
  end.

(** [a[i]] on an array of numbers. *)
Definition index (a : list number) (i : nat) : slot :=
  match a !! i with
  | Some n => Num n
  | None => Undefined
  end.

Local Open Scope R_scope.

(** Comparisons of numbers, as booleans. *)
Definition leb (a b : R) : bool := if Rle_dec a b then true else false.
Definition ltb (a b : R) : bool := if Rlt_dec a b then true else false.
Definition geb (a b : R) : bool := leb b a.
Definition gtb (a b : R) : bool := ltb b a.

Definition Math_max (a b : R) : R := Rmax a b.
Definition Math_min (a b : R) : R := Rmin a b.
Definition Math_floor (a : R) : Z := Zfloor a.

(** [Math.round]: the nearest integer, halves going up. *)
Definition Math_round (a : R) : Z := Zfloor (a + 1 / 2).

Definition Math_abs (n : Z) : Z := Z.abs n.

(** [Math.atan2(y, x)]. *)
Definition Math_atan2 (y x : R) : R :=
  if ltb 0 x then atan (y / x)
  else if ltb x 0 then
    if leb 0 y then atan (y / x) + PI else atan (y / x) - PI
  else if ltb 0 y then PI / 2
  else if ltb y 0 then - PI / 2
  else 0.

(** [Math.random]: the state is the stream of draws still to come. *)
Definition stream : Type := nat -> R.

Definition State (S A : Type) : Type := S -> A * S.

Definition ret {S A : Type} (a : A) : State S A := fun s => (a, s).

Definition bind {S A B : Type} (m : State S A) (k : A -> State S B)
  : State S B :=
  fun s => let '(a, s') := m s in k a s'.

Definition Math_random : State stream R :=
  fun s => (s 0%nat, fun n => s (S n)).

End JS.

Notation "x <- m ;; k" := (JS.bind m (fun x => k))
  (at level 100, m at next level, right associativity).

(** ** The fragment of three.js the program uses *)

Module Vector3.
Local Open Scope R_scope.

Record t : Type := mk { x : R; y : R; z : R }.

Definition length (v : t) : R :=
  sqrt (x v * x v + y v * y v + z v * z v).

Definition add (v w : t) : t := mk (x v + x w) (y v + y w) (z v + z w).

Definition sub (v w : t) : t := mk (x v - x w) (y v - y w) (z v - z w).

Definition multiplyScalar (v : t) (s : R) : t :=
  mk (x v * s) (y v * s) (z v * s).

Definition divideScalar (v : t) (s : R) : t := multiplyScalar v (1 / s).

(** [this.divideScalar(this.length() || 1)]. *)
Definition normalize (v : t) : t :=
  divideScalar v (if Req_dec_T (length v) 0 then 1 else length v).

Definition distanceTo (v w : t) : R := length (sub v w).

Definition set_x (v : t) (a : R) : t := mk a (y v) (z v).
Definition set_y (v : t) (a : R) : t := mk (x v) a (z v).
Definition set_z (v : t) (a : R) : t := mk (x v) (y v) a.
End Vector3.

Module Quaternion.
Record t : Type := mk { x : R; y : R; z : R; w : R }.
End Quaternion.

Module Matrix4.
Local Open Scope R_scope.

(** Sixteen elements, column by column. *)
Record t : Type := mk { elements : list R }.

Definition e (m : t) (i : nat) : R := nth i (elements m) 0.

(** The world matrix of an object that is only translated. *)
Definition translation (p : Vector3.t) : t :=
  mk [1; 0; 0; 0;
      0; 1; 0; 0;
      0; 0; 1; 0;
      Vector3.x p; Vector3.y p; Vector3.z p; 1].
End Matrix4.

Module Three.
Local Open Scope R_scope.

Definition applyQuaternion (v : Vector3.t) (q : Quaternion.t) : Vector3.t :=
  let vx := Vector3.x v in
  let vy := Vector3.y v in
  let vz := Vector3.z v in
  let qx := Quaternion.x q in
  let qy := Quaternion.y q in
  let qz := Quaternion.z q in
  let qw := Quaternion.w q in
  let tx := 2 * (qy * vz - qz * vy) in
  let ty := 2 * (qz * vx - qx * vz) in
  let tz := 2 * (qx * vy - qy * vx) in
  Vector3.mk (vx + qw * tx + qy * tz - qz * ty)
             (vy + qw * ty + qz * tx - qx * tz)
             (vz + qw * tz + qx * ty - qy * tx).

Definition transformDirection (v : Vector3.t) (m : Matrix4.t) : Vector3.t :=
  let x := Vector3.x v in
  let y := Vector3.y v in
  let z := Vector3.z v in
  Vector3.normalize
    (Vector3.mk
       (Matrix4.e m 0 * x + Matrix4.e m 4 * y + Matrix4.e m 8 * z)
       (Matrix4.e m 1 * x + Matrix4.e m 5 * y + Matrix4.e m 9 * z)
       (Matrix4.e m 2 * x + Matrix4.e m 6 * y + Matrix4.e m 10 * z)).

(** An object of the scene graph, as far as the program looks at it: who
    it is, who its parent is, and its world matrix. *)
Record Object3D : Type := mkObject3D {
  uuid : nat;
  parent : option nat;
  matrixWorld : Matrix4.t
}.

Record Material : Type := MeshLambertMaterial {
  color : option N;
  map : option string
}.

(** A mesh: identity, placement, material and the [userData.part] tag. *)
Record Mesh : Type := mkMesh {
  mesh_uuid : nat;
  mesh_position : Vector3.t;
  mesh_rotation : Vector3.t;
  material : Material;
  userData_part : option string
}.

(** A group of meshes that moves as one. *)
Record Group : Type := mkGroup {
  group_uuid : nat;
  group_position : Vector3.t;
  group_rotation : Vector3.t;
  children : list Mesh
}.

Record Face : Type := mkFace { normal : Vector3.t }.

(** One entry of the array [Raycaster.intersectObjects] returns. *)
Record Intersection : Type := mkIntersection {
  point : Vector3.t;
  face : option Face;
  object : Object3D
}.

Record Camera : Type := mkCamera {
  position : Vector3.t;
  quaternion : Quaternion.t
}.

(** [raycaster.set(origin, direction)]. *)
Record Ray : Type := mkRay { origin : Vector3.t; direction : Vector3.t }.

(** The raycaster of the library: for a ray and the objects to test, the
    intersections found, nearest first.  [intersectObjects] tests
    meshes; [intersectGroups] is [intersectObjects(groups, true)], which
    descends into the children of each group. *)
Record Raycaster : Type := mkRaycaster {
  intersectObjects : Ray -> list Mesh -> list Intersection;
  intersectGroups : Ray -> list Group -> list Intersection
}.
End Three.

(** *** Vectors held by reference

    A store of [Vector3] objects.  A method applied to a location writes
    its result back to that location and returns the same location, as
    the three.js methods return [this]. *)

Module Ref.

Definition loc : Type := nat.
Definition store : Type := list Vector3.t.

(** A computation over the store; [None] only on a location that was
    never allocated. *)
Definition M (A : Type) : Type := store -> option (A * store).

Definition ret {A : Type} (a : A) : M A := fun h => Some (a, h).

Definition bind {A B : Type} (m : M A) (k : A -> M B) : M B :=
  fun h => match m h with
           | Some (a, h') => k a h'
           | None => None
           end.

(** [new THREE.Vector3(...)]. *)
Definition alloc (v : Vector3.t) : M loc :=
  fun h => Some (List.length h, h ++ [v]).

Definition read (l : loc) : M Vector3.t :=
  fun h => match h !! l with
           | Some v => Some (v, h)
           | None => None
           end.

Definition write (l : loc) (v : Vector3.t) : M loc :=
  fun h => match h !! l with
           | Some _ => Some (l, <[l := v]> h)
           | None => None
           end.

Definition clone (l : loc) : M loc :=
  bind (read l) alloc.

Definition add (this v : loc) : M loc :=
  bind (read this) (fun a => bind (read v) (fun b =>
    write this (Vector3.add a b))).

Definition sub (this v : loc) : M loc :=
  bind (read this) (fun a => bind (read v) (fun b =>
    write this (Vector3.sub a b))).

Definition multiplyScalar (this : loc) (s : R) : M loc :=
  bind (read this) (fun a => write this (Vector3.multiplyScalar a s)).

Definition transformDirection (this : loc) (m : Matrix4.t) : M loc :=
  bind (read this) (fun a => write this (Three.transformDirection a m)).

Definition applyQuaternion (this : loc) (q : Quaternion.t) : M loc :=
  bind (read this) (fun a => write this (Three.applyQuaternion a q)).

(** Runs a computation that starts with no vector allocated. *)
Definition run {A : Type} (m : M A) : option A :=
  match m [] with
  | Some (a, _) => Some a
  | None => None
  end.

Definition x (l : loc) : M R := bind (read l) (fun v => ret (Vector3.x v)).
Definition y (l : loc) : M R := bind (read l) (fun v => ret (Vector3.y v)).
Definition z (l : loc) : M R := bind (read l) (fun v => ret (Vector3.z v)).

End Ref.

Notation "x <~ m ;; k" := (Ref.bind m (fun x => k))
  (at level 100, m at next level, right associativity).

(** ** utils.ts *)

Module Position.
Record t (A : Type) : Type := mk { x : A; y : A; z : A }.
Arguments mk {A} _ _ _.
Arguments x {A} _.
Arguments y {A} _.
Arguments z {A} _.
End Position.

Module Utils.

Inductive BlockType : Type := GRASS | DIRT | STONE | WOOD | LEAVES.

Definition BLOCK_COLORS (b : BlockType) : N :=
  match b with
  | GRASS => 0x4a9c4a
  | DIRT => 0x8b4513
  | STONE => 0x666666
  | WOOD => 0x8b4513
  | LEAVES => 0x228b22
  end%N.

Definition getBlockKey (x y z : Z) : string :=
  JS.toString x +:+ "," +:+ JS.toString y +:+ "," +:+ JS.toString z.

Definition parseBlockKey (key : string) : Position.t JS.slot :=
  let a := List.map JS.Number (JS.split key) in
  Position.mk (JS.index a 0) (JS.index a 1) (JS.index a 2).

Definition noise (x z : R) : R :=
  (sin (x * (1 / 10)) * cos (z * (1 / 10)) * 3)%R.

Definition getTerrainHeight (x z : R) : Z :=
  (JS.Math_floor (noise x z) + 5)%Z.

Definition getBlockType (y terrainHeight : Z) : BlockType :=
  if (y =? terrainHeight)%Z then GRASS
  else if (y >=? terrainHeight - 3)%Z then DIRT
  else STONE.

Record TargetResult : Type := mkTarget {
  place : Position.t Z;
  remove : Position.t Z
}.

Local Open Scope R_scope.

Definition raycastBlock (raycaster : Three.Raycaster)
    (camera : Three.Camera) (world : gmap string Three.Mesh)
  : Ref.M (option TargetResult) :=
  direction <~ Ref.alloc (Vector3.mk 0 0 (-1)) ;;
  _ <~ Ref.applyQuaternion direction (Three.quaternion camera) ;;
  d <~ Ref.read direction ;;
  let ray := Three.mkRay (Three.position camera) d in
  let meshes := (map_to_list world).*2 in
  let intersects := Three.intersectObjects raycaster ray meshes in
  match intersects with
  | intersect :: _ =>
      point <~ Ref.alloc (Three.point intersect) ;;
      match Three.face intersect with
      | Some face =>
          normal <~ Ref.alloc (Three.normal face) ;;
          _ <~ Ref.transformDirection normal
                 (Three.matrixWorld (Three.object intersect)) ;;
          (* For placing blocks *)
          half <~ Ref.multiplyScalar normal (1 / 2) ;;
          placePosition <~ Ref.add point half ;;
          px <~ Ref.x placePosition ;;
          py <~ Ref.y placePosition ;;
          pz <~ Ref.z placePosition ;;
          let placeX := JS.Math_round px in
          let placeY := JS.Math_round py in
          let placeZ := JS.Math_round pz in
          (* For removing blocks *)
          removePosition <~ Ref.sub point normal ;;
          rx <~ Ref.x removePosition ;;
          ry <~ Ref.y removePosition ;;
          rz <~ Ref.z removePosition ;;
          let removeX := JS.Math_round rx in
          let removeY := JS.Math_round ry in
          let removeZ := JS.Math_round rz in
          Ref.ret (Some (mkTarget (Position.mk placeX placeY placeZ)
                                  (Position.mk removeX removeY removeZ)))
      | None => Ref.ret None
      end
  | [] => Ref.ret None
  end.

End Utils.

(** ** MinecraftGame.tsx: the creature *)

(** What the game threads through its calls besides its own data: the
    draws of [Math.random] and the readings of [Date.now] still to come,
    the counter from which three.js numbers new objects, and the children
    of the scene. *)
Record Runtime : Type := mkRuntime {
  random : JS.stream;
  dates : JS.stream;
  nextId : nat;
  scene : list nat
}.

Module Run.
Definition Math_random : JS.State Runtime R :=
  fun rt =>
    let '(r, s) := JS.Math_random (random rt) in
    (r, mkRuntime s (dates rt) (nextId rt) (scene rt)).

Definition Date_now : JS.State Runtime R :=
  fun rt =>
    let '(r, s) := JS.Math_random (dates rt) in
    (r, mkRuntime (random rt) s (nextId rt) (scene rt)).

(** Runs a computation that only draws random numbers. *)
Definition with_random {A : Type} (m : JS.State JS.stream A)
  : JS.State Runtime A :=
  fun rt =>
    let '(a, s) := m (random rt) in
    (a, mkRuntime s (dates rt) (nextId rt) (scene rt)).

(** The identity of the next object created. *)
Definition fresh : JS.State Runtime nat :=
  fun rt =>
    (nextId rt, mkRuntime (random rt) (dates rt) (S (nextId rt)) (scene rt)).

(** [scene.add(object)]. *)
Definition scene_add (id : nat) : JS.State Runtime unit :=
  fun rt =>
    (tt, mkRuntime (random rt) (dates rt) (nextId rt)
           (List.filter (fun i => negb (Nat.eqb i id)) (scene rt) ++ [id])).

(** [scene.remove(object)]. *)
Definition scene_remove (id : nat) : JS.State Runtime unit :=
  fun rt =>
    (tt, mkRuntime (random rt) (dates rt) (nextId rt)
           (List.filter (fun i => negb (Nat.eqb i id)) (scene rt))).

(** A loop over a list that carries an accumulator. *)
Fixpoint foldM {S A B : Type} (body : B -> A -> JS.State S B)
    (l : list A) (b : B) : JS.State S B :=
  match l with
  | [] => JS.ret b
  | a :: l' => b' <- body b a ;; foldM body l' b'
  end.
End Run.

Module Cow.
Local Open Scope R_scope.

Record t : Type := mk {
  mesh : Three.Group;
  position : Vector3.t;
  direction : Vector3.t;
  speed : R;
  wanderTimer : R;
  maxWanderTime : R;
  id : string;
  isFed : bool;
  followTarget : option Vector3.t;
  fedTimer : R;
  maxFedTime : R
}.

Definition set_mesh (c : t) (v : Three.Group) : t :=
  mk v (position c) (direction c) (speed c) (wanderTimer c)
     (maxWanderTime c) (id c) (isFed c) (followTarget c) (fedTimer c)
     (maxFedTime c).
Definition set_position (c : t) (v : Vector3.t) : t :=
  mk (mesh c) v (direction c) (speed c) (wanderTimer c)
     (maxWanderTime c) (id c) (isFed c) (followTarget c) (fedTimer c)
     (maxFedTime c).
Definition set_direction (c : t) (v : Vector3.t) : t :=
  mk (mesh c) (position c) v (speed c) (wanderTimer c)
     (maxWanderTime c) (id c) (isFed c) (followTarget c) (fedTimer c)
     (maxFedTime c).
Definition set_speed (c : t) (v : R) : t :=
  mk (mesh c) (position c) (direction c) v (wanderTimer c)
     (maxWanderTime c) (id c) (isFed c) (followTarget c) (fedTimer c)
     (maxFedTime c).
Definition set_wanderTimer (c : t) (v : R) : t :=
  mk (mesh c) (position c) (direction c) (speed c) v
     (maxWanderTime c) (id c) (isFed c) (followTarget c) (fedTimer c)
     (maxFedTime c).
Definition set_maxWanderTime (c : t) (v : R) : t :=
  mk (mesh c) (position c) (direction c) (speed c) (wanderTimer c)
     v (id c) (isFed c) (followTarget c) (fedTimer c)
     (maxFedTime c).
Definition set_isFed (c : t) (v : bool) : t :=
  mk (mesh c) (position c) (direction c) (speed c) (wanderTimer c)
     (maxWanderTime c) (id c) v (followTarget c) (fedTimer c)
     (maxFedTime c).
Definition set_followTarget (c : t) (v : option Vector3.t) : t :=
  mk (mesh c) (position c) (direction c) (speed c) (wanderTimer c)
     (maxWanderTime c) (id c) (isFed c) v (fedTimer c)
     (maxFedTime c).
Definition set_fedTimer (c : t) (v : R) : t :=
  mk (mesh c) (position c) (direction c) (speed c) (wanderTimer c)
     (maxWanderTime c) (id c) (isFed c) (followTarget c) v
     (maxFedTime c).

Definition whiteMaterial := Three.MeshLambertMaterial (Some 0xffffff%N) None.
Definition blackMaterial := Three.MeshLambertMaterial (Some 0x333333%N) None.
Definition pinkMaterial := Three.MeshLambertMaterial (Some 0xffb6c1%N) None.
Definition happyMaterial := Three.MeshLambertMaterial (Some 0xffff99%N) None.
Definition normalMaterial := whiteMaterial.

Definition origin : Vector3.t := Vector3.mk 0 0 0.

(** [new THREE.Mesh(geometry, material)] followed by the placement the
    source gives it; the geometry only matters to the renderer. *)
Definition newMesh (material : Three.Material) (position rotation : Vector3.t)
    (part : option string) : JS.State Runtime Three.Mesh :=
  u <- Run.fresh ;;
  JS.ret (Three.mkMesh u position rotation material part).

Definition createCowMesh : JS.State Runtime Three.Group :=
  g <- Run.fresh ;;
  bodyMesh <- newMesh whiteMaterial (Vector3.mk 0 (4 / 10) 0) origin
                (Some "body"%string) ;;
  headMesh <- newMesh whiteMaterial (Vector3.mk 0 (8 / 10) (12 / 10))
                origin None ;;
  legs <- Run.foldM
            (fun acc p =>
               legMesh <- newMesh whiteMaterial p origin None ;;
               JS.ret (acc ++ [legMesh]))
            [Vector3.mk (- (4 / 10)) (- (4 / 10)) (6 / 10);
             Vector3.mk (4 / 10) (- (4 / 10)) (6 / 10);
             Vector3.mk (- (4 / 10)) (- (4 / 10)) (- (6 / 10));
             Vector3.mk (4 / 10) (- (4 / 10)) (- (6 / 10))] [] ;;
  spots <- Run.foldM
             (fun acc p =>
                spotMesh <- newMesh blackMaterial p origin None ;;
                JS.ret (acc ++ [spotMesh]))
             [Vector3.mk (- (3 / 10)) (85 / 100) (2 / 10);
              Vector3.mk (2 / 10) (85 / 100) (- (3 / 10));
              Vector3.mk (1 / 10) (85 / 100) (4 / 10)] [] ;;
  udderMesh <- newMesh pinkMaterial (Vector3.mk 0 (1 / 10) (- (3 / 10)))
                 origin None ;;
  tailMesh <- newMesh blackMaterial (Vector3.mk 0 (3 / 10) (- (11 / 10)))
                (Vector3.mk (PI / 4) 0 0) None ;;
  leftEar <- newMesh whiteMaterial (Vector3.mk (- (3 / 10)) 1 (12 / 10))
               (Vector3.mk 0 0 (PI / 6)) None ;;
  rightEar <- newMesh whiteMaterial (Vector3.mk (3 / 10) 1 (12 / 10))
                (Vector3.mk 0 0 (- PI / 6)) None ;;
  JS.ret (Three.mkGroup g origin origin
            ([bodyMesh; headMesh] ++ legs ++ spots
             ++ [udderMesh; tailMesh; leftEar; rightEar])).

Section Constructor.
(** [n.toString(36)] on a fraction: left to the runtime. *)
Variable toString36 : R -> string.

Definition constructor (x y z : R) : JS.State Runtime t :=
  r0 <- Run.Math_random ;;
  let id := String.substring 2 9 (toString36 r0) in
  let position := Vector3.mk x y z in
  r1 <- Run.Math_random ;;
  r2 <- Run.Math_random ;;
  let direction :=
    Vector3.normalize (Vector3.mk ((r1 - 1 / 2) * 2) 0 ((r2 - 1 / 2) * 2)) in
  r3 <- Run.Math_random ;;
  let speed := 1 / 2 + r3 * (1 / 2) in
  let wanderTimer := 0 in
  r4 <- Run.Math_random ;;
  let maxWanderTime := 3 + r4 * 4 in
  let isFed := false in
  let followTarget := None in
  let fedTimer := 0 in
  let maxFedTime := 10 in
  mesh <- createCowMesh ;;
  let mesh := Three.mkGroup (Three.group_uuid mesh) position
                (Three.group_rotation mesh) (Three.children mesh) in
  JS.ret (mk mesh position direction speed wanderTimer maxWanderTime id
             isFed followTarget fedTimer maxFedTime).
End Constructor.

Record Bounds : Type := mkBounds { min : R; max : R }.

Definition updateBodyColor (c : t) (isFed : bool) : t :=
  let recolour (child : Three.Mesh) : Three.Mesh :=
    match Three.userData_part child with
    | Some part =>
        if String.eqb part "body"
        then Three.mkMesh (Three.mesh_uuid child) (Three.mesh_position child)
               (Three.mesh_rotation child)
               (if isFed then happyMaterial else normalMaterial)
               (Three.userData_part child)
        else child
    | None => child
    end in
  let m := mesh c in
  set_mesh c (Three.mkGroup (Three.group_uuid m) (Three.group_position m)
                (Three.group_rotation m)
                (List.map recolour (Three.children m))).

Definition isNearWorldBounds (c : t) (worldBounds : Bounds) : bool :=
  let buffer := 3 in
  JS.leb (Vector3.x (position c)) (min worldBounds + buffer)
  || JS.geb (Vector3.x (position c)) (max worldBounds - buffer)
  || JS.leb (Vector3.z (position c)) (min worldBounds + buffer)
  || JS.geb (Vector3.z (position c)) (max worldBounds - buffer).

Definition feed (c : t) (playerPosition : Vector3.t) : t :=
  let c := set_isFed c true in
  let c := set_followTarget c (Some playerPosition) in
  let c := set_fedTimer c 0 in
  updateBodyColor c true.

Definition getDistanceToPoint (c : t) (point : Vector3.t) : R :=
  Vector3.distanceTo (position c) point.

(** The two behaviours of [update]: following the target, wandering. *)
Definition follow (c : t) (followTarget : Vector3.t) : t :=
  let directionToTarget := Vector3.sub followTarget (position c) in
  let distanceToTarget := Vector3.length directionToTarget in
  if JS.gtb distanceToTarget 2 then
    let c := set_direction c (Vector3.normalize directionToTarget) in
    set_speed c (15 / 10)
  else
    set_direction c (Vector3.mk 0 0 0).

Definition wander (c : t) (worldBounds : Bounds) : JS.State Runtime t :=
  r <- Run.Math_random ;;
  let c := set_speed c (1 / 2 + r * (1 / 2)) in
  if JS.geb (wanderTimer c) (maxWanderTime c)
     || isNearWorldBounds c worldBounds
  then
    let c := set_wanderTimer c 0 in
    r1 <- Run.Math_random ;;
    let c := set_maxWanderTime c (3 + r1 * 4) in
    r2 <- Run.Math_random ;;
    r3 <- Run.Math_random ;;
    JS.ret (set_direction c
              (Vector3.normalize
                 (Vector3.mk ((r2 - 1 / 2) * 2) 0 ((r3 - 1 / 2) * 2))))
  else JS.ret c.

Definition update (c : t) (delta : R) (worldBounds : Bounds)
  : JS.State Runtime t :=
  let c := set_wanderTimer c (wanderTimer c + delta) in
  (* Update fed timer *)
  let c :=
    if isFed c then
      let c := set_fedTimer c (fedTimer c + delta) in
      if JS.geb (fedTimer c) (maxFedTime c) then
        let c := set_isFed c false in
        let c := set_followTarget c None in
        let c := set_fedTimer c 0 in
        updateBodyColor c false
      else c
    else c in
  (* Behavior based on fed state *)
  c <- match isFed c, followTarget c with
       | true, Some followTarget => JS.ret (follow c followTarget)
       | _, _ => wander c worldBounds
       end ;;
  (* Move the cow *)
  let movement := Vector3.multiplyScalar (direction c) (speed c * delta) in
  let c := set_position c (Vector3.add (position c) movement) in
  (* Keep cow within world bounds *)
  let c := set_position c
             (Vector3.set_x (position c)
                (JS.Math_max (min worldBounds + 2)
                   (JS.Math_min (max worldBounds - 2)
                      (Vector3.x (position c))))) in
  let c := set_position c
             (Vector3.set_z (position c)
                (JS.Math_max (min worldBounds + 2)
                   (JS.Math_min (max worldBounds - 2)
                      (Vector3.z (position c))))) in
  (* Update mesh position *)
  let m := mesh c in
  let m := Three.mkGroup (Three.group_uuid m) (position c)
             (Three.group_rotation m) (Three.children m) in
  (* Rotate cow to face movement direction *)
  let m :=
    if JS.gtb (Vector3.length (direction c)) 0 then
      let angle :=
        JS.Math_atan2 (Vector3.x (direction c)) (Vector3.z (direction c)) in
      Three.mkGroup (Three.group_uuid m) (Three.group_position m)
        (Vector3.set_y (Three.group_rotation m) angle) (Three.children m)
    else m in
  (* Simple bob animation *)
  now <- Run.Date_now ;;
  let time := now * (1 / 1000) in
  let m := Three.mkGroup (Three.group_uuid m)
             (Vector3.set_y (Three.group_position m)
                (Vector3.y (position c) + sin (time * 2) * (5 / 100)))
             (Three.group_rotation m) (Three.children m) in
  JS.ret (set_mesh c m).

End Cow.

(** ** MinecraftGame.tsx: the world and the frame loop *)

Module Game.
Import Utils.
Local Open Scope R_scope.

(** The world store, [Map<string, THREE.Mesh>]. *)
Abbreviation World := (gmap string Three.Mesh).

(** The creature map, [Map<string, Cow>], in insertion order. *)
Abbreviation Cows := (list (string * Cow.t)).

(** [cows.set(key, cow)]. *)
Fixpoint Map_set (key : string) (cow : Cow.t) (cows : Cows) : Cows :=
  match cows with
  | [] => [(key, cow)]
  | (k, c) :: rest =>
      if String.eqb k key then (key, cow) :: rest
      else (k, c) :: Map_set key cow rest
  end.

Definition createMaterials (b : BlockType) : Three.Material :=
  match b with
  | GRASS => Three.MeshLambertMaterial None (Some "/grass.png"%string)
  | DIRT => Three.MeshLambertMaterial (Some 0x8b4513%N) None
  | STONE => Three.MeshLambertMaterial (Some 0x666666%N) None
  | WOOD => Three.MeshLambertMaterial (Some 0x8b4513%N) None
  | LEAVES => Three.MeshLambertMaterial (Some 0x228b22%N) None
  end.

(** The template literal [`${x},${y},${z}`]. *)
Definition key (x y z : Z) : string :=
  JS.toString x +:+ "," +:+ JS.toString y +:+ "," +:+ JS.toString z.

(** A unit cube at [(x, y, z)], added to the scene and to the store. *)
Definition addBlock (materials : BlockType -> Three.Material)
    (b : BlockType) (x y z : Z) (world : World)
  : JS.State Runtime World :=
  u <- Run.fresh ;;
  let mesh := Three.mkMesh u (Vector3.mk (IZR x) (IZR y) (IZR z))
                (Vector3.mk 0 0 0) (materials b) None in
  _ <- Run.scene_add (Three.mesh_uuid mesh) ;;
  JS.ret (<[key x y z := mesh]> world).

(** The classification written out in the column loop. *)
Definition blockType (y height : Z) : BlockType :=
  if (y =? height)%Z then GRASS
  else if (y >=? height - 3)%Z then DIRT
  else STONE.

Definition generateWorld (materials : BlockType -> Three.Material)
  : JS.State Runtime World :=
  let size := 20%Z in
  Run.foldM (fun world x =>
    Run.foldM (fun world z =>
      (* Generate terrain height using simple noise *)
      let height :=
        (JS.Math_floor
           (sin (IZR x * (1 / 10)) * cos (IZR z * (1 / 10)) * 3) + 5)%Z in
      world <- Run.foldM (fun world y =>
                 addBlock materials (blockType y height) x y z world)
                 (seqZ 0 (height + 1)) world ;;
      (* Add some trees randomly *)
      r <- Run.Math_random ;;
      if JS.ltb r (5 / 100) && (height >? 3)%Z then
        r' <- Run.Math_random ;;
        let treeHeight := (4 + JS.Math_floor (r' * 3))%Z in
        (* Tree trunk *)
        world <- Run.foldM (fun world y =>
                   addBlock materials WOOD x y z world)
                   (seqZ (height + 1) treeHeight) world ;;
        (* Tree leaves *)
        let leafY := (height + treeHeight)%Z in
        Run.foldM (fun world dx =>
          Run.foldM (fun world dz =>
            Run.foldM (fun world dy =>
              if (JS.Math_abs dx + JS.Math_abs dz <=? 2)%Z then
                r'' <- Run.Math_random ;;
                if JS.ltb r'' (8 / 10) then
                  addBlock materials LEAVES
                    (x + dx) (leafY + dy) (z + dz) world
                else JS.ret world
              else JS.ret world)
              (seqZ 0 3) world)
            (seqZ (-2) 5) world)
          (seqZ (-2) 5) world
      else JS.ret world)
      (seqZ (- size) (2 * size + 1)) world)
    (seqZ (- size) (2 * size + 1)) ∅.

(** One pass through the body of the sampling loop of [spawnCows]. *)
Definition sample (size : R) : JS.State JS.stream (R * Z * R) :=
  r1 <- JS.Math_random ;;
  let x := r1 * size * 2 - size in
  r2 <- JS.Math_random ;;
  let z := r2 * size * 2 - size in
  (* Surface height + 1 *)
  let y := (JS.Math_floor (sin (x * (1 / 10)) * cos (z * (1 / 10)) * 3) + 6)%Z in
  JS.ret (x, y, z).

(** [do { ...; attempts++ } while (attempts < 50)], entered with
    [attempts] passes already made; returns the last sample and the
    number of passes. *)
Equations? do_while (size : R) (attempts : nat) (s : JS.stream)
  : (R * Z * R) * nat * JS.stream by wf (50 - attempts)%nat lt :=
  do_while size attempts s with lt_dec (S attempts) 50 := {
    | left _ => do_while size (S attempts) (sample size s).2
    | right _ => ((sample size s).1, S attempts, (sample size s).2)
  }.
Proof. lia. Qed.

Section SpawnCows.
Variable toString36 : R -> string.

Definition spawnCows (count : nat) : JS.State Runtime Cows :=
  let size := 15 in
  Run.foldM (fun cows (i : nat) =>
    (* Find a suitable spawn position *)
    found <- Run.with_random (fun s =>
               let '(p, _, s') := do_while size 0 s in (p, s')) ;;
    let '(x, y, z) := found in
    cow <- Cow.constructor toString36 x (IZR y) z ;;
    _ <- Run.scene_add (Three.group_uuid (Cow.mesh cow)) ;;
    JS.ret (Map_set (Cow.id cow) cow cows))
    (seq 0 count) [].
End SpawnCows.

(** Raycast for block selection. *)
Definition getTargetBlock (raycaster : Three.Raycaster)
    (camera : Three.Camera) (world : World)
  : Ref.M (option TargetResult) :=
  direction <~ Ref.alloc (Vector3.mk 0 0 (-1)) ;;
  _ <~ Ref.applyQuaternion direction (Three.quaternion camera) ;;
  d <~ Ref.read direction ;;
  let ray := Three.mkRay (Three.position camera) d in
  let meshes := (map_to_list world).*2 in
  let intersects := Three.intersectObjects raycaster ray meshes in
  match intersects with
  | intersect :: _ =>
      point <~ Ref.alloc (Three.point intersect) ;;
      match Three.face intersect with
      | Some face =>
          normal <~ Ref.alloc (Three.normal face) ;;
          _ <~ Ref.transformDirection normal
                 (Three.matrixWorld (Three.object intersect)) ;;
          (* For placing blocks *)
          half <~ Ref.multiplyScalar normal (1 / 2) ;;
          placePosition <~ Ref.add point half ;;
          px <~ Ref.x placePosition ;;
          py <~ Ref.y placePosition ;;
          pz <~ Ref.z placePosition ;;
          let placeX := JS.Math_round px in
          let placeY := JS.Math_round py in
          let placeZ := JS.Math_round pz in
          (* For removing blocks *)
          removePosition <~ Ref.sub point normal ;;
          rx <~ Ref.x removePosition ;;
          ry <~ Ref.y removePosition ;;
          rz <~ Ref.z removePosition ;;
          let removeX := JS.Math_round rx in
          let removeY := JS.Math_round ry in
          let removeZ := JS.Math_round rz in
          Ref.ret (Some (mkTarget (Position.mk placeX placeY placeZ)
                                  (Position.mk removeX removeY removeZ)))
      | None => Ref.ret None
      end
  | [] => Ref.ret None
  end.

(** The first creature, in map order, that a predicate accepts, with
    its index: [Array.from(cows.values()).find(...)]. *)
Fixpoint find (p : Cow.t -> bool) (cows : Cows) : option (nat * Cow.t) :=
  match cows with
  | [] => None
  | (k, c) :: rest =>
      if p c then Some (0%nat, c)
      else match find p rest with
           | Some (i, c') => Some (S i, c')
           | None => None
           end
  end.

(** The block half of [handleClick], from [getTargetBlock] on. *)
Definition editBlock (raycaster : Three.Raycaster) (camera : Three.Camera)
    (materials : BlockType -> Three.Material) (selectedBlock : BlockType)
    (button : Z) (world : World) : JS.State Runtime World :=
  match Ref.run (getTargetBlock raycaster camera world) with
  | Some (Some target) =>
      if (button =? 0)%Z then
        (* Left click - remove block *)
        let key := key (Position.x (remove target))
                     (Position.y (remove target))
                     (Position.z (remove target)) in
        match world !! key with
        | Some mesh =>
            _ <- Run.scene_remove (Three.mesh_uuid mesh) ;;
            JS.ret (delete key world)
        | None => JS.ret world
        end
      else if (button =? 2)%Z then
        (* Right click - place block *)
        let key := key (Position.x (place target))
                     (Position.y (place target))
                     (Position.z (place target)) in
        match world !! key with
        | Some _ => JS.ret world
        | None =>
            u <- Run.fresh ;;
            let mesh :=
              Three.mkMesh u
                (Vector3.mk (IZR (Position.x (place target)))
                            (IZR (Position.y (place target)))
                            (IZR (Position.z (place target))))
                (Vector3.mk 0 0 0) (materials selectedBlock) None in
            _ <- Run.scene_add (Three.mesh_uuid mesh) ;;
            JS.ret (<[key := mesh]> world)
        end
      else JS.ret world
  | _ => JS.ret world
  end.

(** [intersect.object.parent || intersect.object]. *)
Definition clickedCowMesh (hit : Three.Intersection) : nat :=
  match Three.parent (Three.object hit) with
  | Some p => p
  | None => Three.uuid (Three.object hit)
  end.

(** [cow.mesh === clickedCowMesh
     || cow.mesh.children.includes(clickedCowMesh)]. *)
Definition isClicked (clickedCowMesh : nat) (cow : Cow.t) : bool :=
  Nat.eqb (Three.group_uuid (Cow.mesh cow)) clickedCowMesh
  || existsb (fun child => Nat.eqb (Three.mesh_uuid child) clickedCowMesh)
       (Three.children (Cow.mesh cow)).

(** The creature half of [handleClick]: [Some cows'] when the click fed
    a creature and the handler returned, [None] when it goes on to the
    blocks. *)
Definition feedCow (raycaster : Three.Raycaster) (camera : Three.Camera)
    (button : Z) (cows : Cows) : option Cows :=
  (* Check if clicking on a cow first *)
  let direction :=
    Three.applyQuaternion (Vector3.mk 0 0 (-1)) (Three.quaternion camera) in
  let ray := Three.mkRay (Three.position camera) direction in
  (* Get all cow meshes *)
  let cowMeshes := List.map (fun kc => Cow.mesh kc.2) cows in
  let cowIntersects := Three.intersectGroups raycaster ray cowMeshes in
  match cowIntersects with
  | hit :: _ =>
      if (button =? 2)%Z then
        (* Right click on cow - feed it *)
        match find (isClicked (clickedCowMesh hit)) cows with
        | Some (i, clickedCow) =>
            if negb (Cow.isFed clickedCow) then
              Some (alter (fun kc =>
                             (kc.1, Cow.feed kc.2 (Three.position camera)))
                      i cows)
            else None
        | None => None
        end
      else None
  | [] => None
  end.

Definition handleClick (raycaster : Three.Raycaster) (camera : Three.Camera)
    (materials : BlockType -> Three.Material) (isMouseLocked : bool)
    (selectedBlock : BlockType) (button : Z) (world : World) (cows : Cows)
  : JS.State Runtime (World * Cows) :=
  if negb isMouseLocked then JS.ret (world, cows)
  else
    match feedCow raycaster camera button cows with
    | Some cows' =>
        (* Don't place blocks when feeding cows *)
        JS.ret (world, cows')
    | None =>
        world' <- editBlock raycaster camera materials selectedBlock
                    button world ;;
        JS.ret (world', cows)
    end.

(** The body of the loop over the creatures in [animate]. *)
Definition tick (camera : Three.Camera) (delta : R) (cow : Cow.t)
  : JS.State Runtime Cow.t :=
  let worldBounds := Cow.mkBounds (-20) 20 in
  (* Update follow target to current camera position if cow is fed *)
  let cow :=
    match Cow.isFed cow, Cow.followTarget cow with
    | true, Some _ => Cow.set_followTarget cow (Some (Three.position camera))
    | _, _ => cow
    end in
  Cow.update cow delta worldBounds.

(** The creature half of [animate]. *)
Definition updateCows (camera : Three.Camera) (delta : R) (cows : Cows)
  : JS.State Runtime Cows :=
  Run.foldM (fun done kc =>
    cow <- tick camera delta kc.2 ;;
    JS.ret (done ++ [(kc.1, cow)]))
    cows [].

End Game.

(** ** The earlier revision of the game (src/unnamed/part_000)

    It has no creatures; its click handler is the block half alone. *)

Module Part000.
Import Utils.

Definition handleClick (raycaster : Three.Raycaster) (camera : Three.Camera)
    (materials : BlockType -> Three.Material) (isMouseLocked : bool)
    (selectedBlock : BlockType) (button : Z) (world : Game.World)
  : JS.State Runtime Game.World :=
  if negb isMouseLocked then JS.ret world
  else Game.editBlock raycaster camera materials selectedBlock button world.

End Part000.

(** ** The arithmetic of the runtime

    The game computes on doubles; the embedding above computes on real
    numbers, which is what the runtime computes wherever nothing is
    rounded or the rounding cannot change the outcome.  Where it can (a
    timer that is summed frame by frame and compared with a threshold,
    a vector that is moved and moved back before it is rounded to a
    cell, an interpolation between numbers of different magnitude) the
    code is embedded here once more, with the arithmetic left to the
    runtime: [plus], [minus] and [times] are [a + b], [a - b] and
    [a * b] on numbers as the runtime computes them, whatever they round
    to.  With the exact operations these are the definitions above. *)

Module Double.
Import Utils.
Local Open Scope R_scope.

Section Arithmetic.
Variable plus : R -> R -> R.
Variable minus : R -> R -> R.
Variable times : R -> R -> R.

(** *** utils.ts *)

Definition lerp (a b t : R) : R := plus a (times (minus b a) t).

(** *** The methods of [Vector3] that work coordinate by coordinate *)

Definition add (v w : Vector3.t) : Vector3.t :=
  Vector3.mk (plus (Vector3.x v) (Vector3.x w))
             (plus (Vector3.y v) (Vector3.y w))
             (plus (Vector3.z v) (Vector3.z w)).

Definition sub (v w : Vector3.t) : Vector3.t :=
  Vector3.mk (minus (Vector3.x v) (Vector3.x w))
             (minus (Vector3.y v) (Vector3.y w))
             (minus (Vector3.z v) (Vector3.z w)).

Definition multiplyScalar (v : Vector3.t) (s : R) : Vector3.t :=
  Vector3.mk (times (Vector3.x v) s) (times (Vector3.y v) s)
             (times (Vector3.z v) s).

(** A method that updates its receiver from another vector, and one
    that updates it from itself; both return the receiver. *)
Definition method2 (op : Vector3.t -> Vector3.t -> Vector3.t)
    (this v : Ref.loc) : Ref.M Ref.loc :=
  a <~ Ref.read this ;;
  b <~ Ref.read v ;;
  Ref.write this (op a b).

Definition method1 (op : Vector3.t -> Vector3.t) (this : Ref.loc)
  : Ref.M Ref.loc :=
  a <~ Ref.read this ;;
  Ref.write this (op a).

Section Library.
(** [Vector3.transformDirection] and [Vector3.applyQuaternion], with
    the square root and the divisions they take, as the library computes
    them. *)
Variable transformDirection : Vector3.t -> Matrix4.t -> Vector3.t.
Variable applyQuaternion : Vector3.t -> Quaternion.t -> Vector3.t.

(** [getTargetBlock] of MinecraftGame.tsx; [raycastBlock] of utils.ts
    has the same body. *)
Definition getTargetBlock (raycaster : Three.Raycaster)
    (camera : Three.Camera) (world : Game.World)
  : Ref.M (option TargetResult) :=
  direction <~ Ref.alloc (Vector3.mk 0 0 (-1)) ;;
  _ <~ method1 (fun v => applyQuaternion v (Three.quaternion camera))
         direction ;;
  d <~ Ref.read direction ;;
  let ray := Three.mkRay (Three.position camera) d in
  let meshes := (map_to_list world).*2 in
  let intersects := Three.intersectObjects raycaster ray meshes in
  match intersects with
  | intersect :: _ =>
      point <~ Ref.alloc (Three.point intersect) ;;
      match Three.face intersect with
      | Some face =>
          normal <~ Ref.alloc (Three.normal face) ;;
          _ <~ method1
                 (fun v =>
                    transformDirection v
                      (Three.matrixWorld (Three.object intersect)))
                 normal ;;
          (* For placing blocks *)
          half <~ method1 (fun v => multiplyScalar v (1 / 2)) normal ;;
          placePosition <~ method2 add point half ;;
          px <~ Ref.x placePosition ;;
          py <~ Ref.y placePosition ;;
          pz <~ Ref.z placePosition ;;
          let placeX := JS.Math_round px in
          let placeY := JS.Math_round py in
          let placeZ := JS.Math_round pz in
          (* For removing blocks *)
          removePosition <~ method2 sub point normal ;;
          rx <~ Ref.x removePosition ;;
          ry <~ Ref.y removePosition ;;
          rz <~ Ref.z removePosition ;;
          let removeX := JS.Math_round rx in
          let removeY := JS.Math_round ry in
          let removeZ := JS.Math_round rz in
          Ref.ret (Some (mkTarget (Position.mk placeX placeY placeZ)
                                  (Position.mk removeX removeY removeZ)))
      | None => Ref.ret None
      end
  | [] => Ref.ret None
  end.
End Library.

(** *** The creature *)

(** [Cow.update], the two timers summed by the runtime. *)
Definition update (c : Cow.t) (delta : R) (worldBounds : Cow.Bounds)
  : JS.State Runtime Cow.t :=
  let c := Cow.set_wanderTimer c (plus (Cow.wanderTimer c) delta) in
  (* Update fed timer *)
  let c :=
    if Cow.isFed c then
      let c := Cow.set_fedTimer c (plus (Cow.fedTimer c) delta) in
      if JS.geb (Cow.fedTimer c) (Cow.maxFedTime c) then
        let c := Cow.set_isFed c false in
        let c := Cow.set_followTarget c None in
        let c := Cow.set_fedTimer c 0 in
        Cow.updateBodyColor c false
      else c
    else c in
  (* Behavior based on fed state *)
  c <- match Cow.isFed c, Cow.followTarget c with
       | true, Some followTarget => JS.ret (Cow.follow c followTarget)
       | _, _ => Cow.wander c worldBounds
       end ;;
  (* Move the cow *)
  let movement :=
    Vector3.multiplyScalar (Cow.direction c) (Cow.speed c * delta) in
  let c := Cow.set_position c (Vector3.add (Cow.position c) movement) in
  (* Keep cow within world bounds *)
  let c := Cow.set_position c
             (Vector3.set_x (Cow.position c)
                (JS.Math_max (Cow.min worldBounds + 2)
                   (JS.Math_min (Cow.max worldBounds - 2)
                      (Vector3.x (Cow.position c))))) in
  let c := Cow.set_position c
             (Vector3.set_z (Cow.position c)
                (JS.Math_max (Cow.min worldBounds + 2)
                   (JS.Math_min (Cow.max worldBounds - 2)
                      (Vector3.z (Cow.position c))))) in
  (* Update mesh position *)
  let m := Cow.mesh c in
  let m := Three.mkGroup (Three.group_uuid m) (Cow.position c)
             (Three.group_rotation m) (Three.children m) in
  (* Rotate cow to face movement direction *)
  let m :=
    if JS.gtb (Vector3.length (Cow.direction c)) 0 then
      let angle :=
        JS.Math_atan2 (Vector3.x (Cow.direction c))
          (Vector3.z (Cow.direction c)) in
      Three.mkGroup (Three.group_uuid m) (Three.group_position m)
        (Vector3.set_y (Three.group_rotation m) angle) (Three.children m)
    else m in
  (* Simple bob animation *)
  now <- Run.Date_now ;;
  let time := now * (1 / 1000) in
  let m := Three.mkGroup (Three.group_uuid m)
             (Vector3.set_y (Three.group_position m)
                (Vector3.y (Cow.position c) + sin (time * 2) * (5 / 100)))
             (Three.group_rotation m) (Three.children m) in
  JS.ret (Cow.set_mesh c m).

(** The body of the loop over the creatures in [animate]. *)
Definition tick (camera : Three.Camera) (delta : R) (cow : Cow.t)
  : JS.State Runtime Cow.t :=
  let worldBounds := Cow.mkBounds (-20) 20 in
  (* Update follow target to current camera position if cow is fed *)
  let cow :=
    match Cow.isFed cow, Cow.followTarget cow with
    | true, Some _ => Cow.set_followTarget cow (Some (Three.position camera))
    | _, _ => cow
    end in
  update cow delta worldBounds.

End Arithmetic.
End Double.

(** ** Predicates of the statements and proofs *)

(** No comma occurs in the string. *)
Fixpoint comma_free (s : string) : Prop :=
  match s with
  | EmptyString => True
  | String c s' => c <> ","%char /\ comma_free s'
  end.

(** The characters a decimal numeral is printed with. *)
Definition is_digit (c : ascii) : Prop :=
  In c ["0"; "1"; "2"; "3"; "4"; "5"; "6"; "7"; "8"; "9"]%char.

Fixpoint all_digits (s : string) : Prop :=
  match s with
  | EmptyString => True
  | String c s' => is_digit c /\ all_digits s'
  end.

(** The coordinates [Math.round] gives for the three components. *)
Definition round3 (v : Vector3.t) : Position.t Z :=
  Position.mk (JS.Math_round (Vector3.x v)) (JS.Math_round (Vector3.y v))
    (JS.Math_round (Vector3.z v)).

(** What the targeting resolver returns for the first intersection, with
    the vectors read as values: [point] holds [p] after [add] and [r] after
    [sub], and [normal] holds [h] from [multiplyScalar] on. *)
Definition resolve (i : Three.Intersection) : option Utils.TargetResult :=
  match Three.face i with
  | Some f =>
      let n := Three.transformDirection (Three.normal f)
                 (Three.matrixWorld (Three.object i)) in
      let h := Vector3.multiplyScalar n (1 / 2) in
      let p := Vector3.add (Three.point i) h in
      let r := Vector3.sub p h in
      Some (Utils.mkTarget (round3 p) (round3 r))
  | None => None
  end.

(** The ray [handleClick] and the resolver cast: from the camera, along
    its forward axis. *)
Definition view_ray (camera : Three.Camera) : Three.Ray :=
  Three.mkRay (Three.position camera)
    (Three.applyQuaternion (Vector3.mk 0 0 (-1)) (Three.quaternion camera)).

(** The six outward unit normals of an axis-aligned cube. *)
Definition canonical_normal (n : Vector3.t) : Prop :=
  In n [Vector3.mk 1 0 0; Vector3.mk (-1) 0 0;
        Vector3.mk 0 1 0; Vector3.mk 0 (-1) 0;
        Vector3.mk 0 0 1; Vector3.mk 0 0 (-1)].

(** A world matrix without rotation or scale, as that of a block. *)
Definition axis_aligned (m : Matrix4.t) : Prop :=
  Matrix4.e m 0 = 1%R /\ Matrix4.e m 1 = 0%R /\ Matrix4.e m 2 = 0%R
  /\ Matrix4.e m 4 = 0%R /\ Matrix4.e m 5 = 1%R /\ Matrix4.e m 6 = 0%R
  /\ Matrix4.e m 8 = 0%R /\ Matrix4.e m 9 = 0%R /\ Matrix4.e m 10 = 1%R.

(** One coordinate of a point on the face with normal component [n] of
    the unit cube centred at [c]: on the face plane along the normal,
    within the cube (upper edge apart) across it. *)
Definition face_coord (c : Z) (n p : R) : Prop :=
  (n = 0 /\ IZR c - 1 / 2 <= p < IZR c + 1 / 2)%R
  \/ (n <> 0%R /\ p = IZR c + n / 2)%R.

Definition on_face (c : Position.t Z) (n p : Vector3.t) : Prop :=
  face_coord (Position.x c) (Vector3.x n) (Vector3.x p)
  /\ face_coord (Position.y c) (Vector3.y n) (Vector3.y p)
  /\ face_coord (Position.z c) (Vector3.z n) (Vector3.z p).

(** The cell next to [c] across the face with normal [n]; [step] is 1, 0
    or -1 with the sign of the component. *)
Definition step (n : R) : Z :=
  if JS.ltb 0 n then 1%Z else if JS.ltb n 0 then (-1)%Z else 0%Z.

Definition neighbour (c : Position.t Z) (n : Vector3.t) : Position.t Z :=
  Position.mk (Position.x c + step (Vector3.x n))%Z
    (Position.y c + step (Vector3.y n))%Z
    (Position.z c + step (Vector3.z n))%Z.

(** *** A view straight at the front face of a single block

    One block at the origin; the camera five units in front of it on the
    z axis, not rotated, so that it looks down the negative z axis; the
    ray meets the face [z = 1/2] of the block at its centre. *)
Module FrontFace.

Definition block : Three.Mesh :=
  Three.mkMesh 0 (Vector3.mk 0 0 0) (Vector3.mk 0 0 0)
    (Game.createMaterials Utils.GRASS) None.

Definition world : gmap string Three.Mesh := {[ Game.key 0 0 0 := block ]}.

Definition camera : Three.Camera :=
  Three.mkCamera (Vector3.mk 0 0 5) (Quaternion.mk 0 0 0 1).

Definition hit : Three.Intersection :=
  Three.mkIntersection (Vector3.mk 0 0 (1 / 2))
    (Some (Three.mkFace (Vector3.mk 0 0 1)))
    (Three.mkObject3D 0 None (Matrix4.translation (Vector3.mk 0 0 0))).

Definition raycaster : Three.Raycaster :=
  Three.mkRaycaster (fun _ meshes => match meshes with [] => [] | _ => [hit] end)
    (fun _ _ => []).

(** Every draw of [Math.random] is one half, the clock stands at zero,
    and the block is the only object made so far. *)
Definition runtime : Runtime :=
  mkRuntime (fun _ => 1 / 2)%R (fun _ => 0%R) 1 [0%nat].

End FrontFace.

(** What [Math.round] adds to the centre coordinate when the point lies
    on the face plane: a half rounds up, so the face on the positive side
    lands in the next cell. *)
Definition overshoot (n : R) : Z := if JS.ltb 0 n then 1%Z else 0%Z.

(** *** A view that meets a block on an edge

    Two blocks, at [(0, 0, 0)] and [(1, 0, 1)], which share the edge
    [x = 1/2, z = 1/2].  The camera looks along [(24/25, 0, -7/25)] from
    [(-47/2, 0, 15/2)]; its ray reaches the front face [z = 1/2] of the
    first block on that edge, at distance 25, and meets the second block
    at the same point.  The raycaster lists the first block first. *)
Module Corner.

Definition blockA : Three.Mesh :=
  Three.mkMesh 0 (Vector3.mk 0 0 0) (Vector3.mk 0 0 0)
    (Game.createMaterials Utils.GRASS) None.

Definition blockB : Three.Mesh :=
  Three.mkMesh 1 (Vector3.mk 1 0 1) (Vector3.mk 0 0 0)
    (Game.createMaterials Utils.GRASS) None.

Definition world : gmap string Three.Mesh :=
  <[ Game.key 1 0 1 := blockB ]> {[ Game.key 0 0 0 := blockA ]}.

Definition camera : Three.Camera :=
  Three.mkCamera (Vector3.mk (- (47 / 2)) 0 (15 / 2))
    (Quaternion.mk 0 (- (3 / 5)) 0 (4 / 5)).

Definition hitA : Three.Intersection :=
  Three.mkIntersection (Vector3.mk (1 / 2) 0 (1 / 2))
    (Some (Three.mkFace (Vector3.mk 0 0 1)))
    (Three.mkObject3D 0 None (Matrix4.translation (Vector3.mk 0 0 0))).

Definition hitB : Three.Intersection :=
  Three.mkIntersection (Vector3.mk (1 / 2) 0 (1 / 2))
    (Some (Three.mkFace (Vector3.mk (-1) 0 0)))
    (Three.mkObject3D 1 None (Matrix4.translation (Vector3.mk 1 0 1))).

Definition raycaster : Three.Raycaster :=
  Three.mkRaycaster
    (fun _ meshes => match meshes with [] => [] | _ => [hitA; hitB] end)
    (fun _ _ => []).

Definition runtime : Runtime :=
  mkRuntime (fun _ => 1 / 2)%R (fun _ => 0%R) 2 [0%nat; 1%nat].

End Corner.

(** *** A creature between the camera and the block

    The front-face view with one creature standing on the ray, its body
    spanning [z] from 3/2 to 7/2, so that the ray meets the front of the
    body at [(0, 0, 7/2)] before it reaches the block.  The creature is
    the one the constructor makes when every random draw is one half,
    whose base-36 digits are ["0.i"]. *)
Module Pasture.

Definition toString36 (r : R) : string := "0.i".

Definition born : Cow.t * Runtime :=
  Cow.constructor toString36 0 (- (1 / 5)) (5 / 2) FrontFace.runtime.

Definition cow : Cow.t := born.1.

Definition runtime : Runtime :=
  (Run.scene_add (Three.group_uuid (Cow.mesh cow)) born.2).2.

Definition cows : list (string * Cow.t) := [(Cow.id cow, cow)].

(** The same creature after it has been fed from the camera. *)
Definition fedCows : list (string * Cow.t) :=
  [(Cow.id cow, Cow.feed cow (Three.position FrontFace.camera))].

(** The ray meets the body, the first child of the creature's group. *)
Definition bodyHit : Three.Intersection :=
  Three.mkIntersection (Vector3.mk 0 0 (7 / 2))
    (Some (Three.mkFace (Vector3.mk 0 0 1)))
    (Three.mkObject3D 2 (Some 1%nat)
       (Matrix4.translation (Vector3.mk 0 (1 / 5) (5 / 2)))).

Definition raycaster : Three.Raycaster :=
  Three.mkRaycaster
    (Three.intersectObjects FrontFace.raycaster)
    (fun _ groups => match groups with [] => [] | _ => [bodyHit] end).

End Pasture.

(** *** The creature: stages of [update], states, histories *)

(** The first stage of [update]: both timers advance, and the fed timer
    running out ends the following. *)
Definition timers (c : Cow.t) (delta : R) : Cow.t :=
  let c := Cow.set_wanderTimer c (Cow.wanderTimer c + delta) in
  if Cow.isFed c then
    let c := Cow.set_fedTimer c (Cow.fedTimer c + delta) in
    if JS.geb (Cow.fedTimer c) (Cow.maxFedTime c) then
      let c := Cow.set_isFed c false in
      let c := Cow.set_followTarget c None in
      let c := Cow.set_fedTimer c 0 in
      Cow.updateBodyColor c false
    else c
  else c.

(** The second stage: heading and speed, by the fed state. *)
Definition behave (c : Cow.t) (worldBounds : Cow.Bounds)
  : JS.State Runtime Cow.t :=
  match Cow.isFed c, Cow.followTarget c with
  | true, Some followTarget => JS.ret (Cow.follow c followTarget)
  | _, _ => Cow.wander c worldBounds
  end.

Definition clamp (worldBounds : Cow.Bounds) (a : R) : R :=
  JS.Math_max (Cow.min worldBounds + 2)
    (JS.Math_min (Cow.max worldBounds - 2) a).

(** The third stage: the step along the heading, then the clamp. *)
Definition move (c : Cow.t) (delta : R) (worldBounds : Cow.Bounds) : Cow.t :=
  let p := Vector3.add (Cow.position c)
             (Vector3.multiplyScalar (Cow.direction c) (Cow.speed c * delta)) in
  Cow.set_position c
    (Vector3.mk (clamp worldBounds (Vector3.x p)) (Vector3.y p)
       (clamp worldBounds (Vector3.z p))).

(** The materials of the parts tagged as the body. *)
Definition bodyMaterials (c : Cow.t) : list Three.Material :=
  List.map Three.material
    (List.filter
       (fun child => match Three.userData_part child with
                     | Some part => String.eqb part "body"
                     | None => false
                     end)
       (Three.children (Cow.mesh c))).

(** The happy flag: the body wears the happy material. *)
Definition happy (c : Cow.t) : Prop :=
  Forall (fun m => m = Cow.happyMaterial) (bodyMaterials c).

Definition plain (c : Cow.t) : Prop :=
  Forall (fun m => m = Cow.normalMaterial) (bodyMaterials c).

(** The two states of a creature, with the fed duration of the
    constructor. *)
Definition Following (c : Cow.t) (elapsed : R) : Prop :=
  Cow.isFed c = true /\ Cow.fedTimer c = elapsed
  /\ Cow.followTarget c <> None /\ happy c /\ Cow.maxFedTime c = 10%R.

Definition Wandering (c : Cow.t) : Prop :=
  Cow.isFed c = false /\ Cow.fedTimer c = 0%R
  /\ Cow.followTarget c = None /\ plain c /\ Cow.maxFedTime c = 10%R.

(** The first stage of [update] with the timers summed by the runtime. *)
Definition timers_with (plus : R -> R -> R) (c : Cow.t) (delta : R) : Cow.t :=
  let c := Cow.set_wanderTimer c (plus (Cow.wanderTimer c) delta) in
  if Cow.isFed c then
    let c := Cow.set_fedTimer c (plus (Cow.fedTimer c) delta) in
    if JS.geb (Cow.fedTimer c) (Cow.maxFedTime c) then
      let c := Cow.set_isFed c false in
      let c := Cow.set_followTarget c None in
      let c := Cow.set_fedTimer c 0 in
      Cow.updateBodyColor c false
    else c
  else c.

(** Successive frames of [animate] seen from one creature: each frame
    has the camera and the delta of its tick. *)
Fixpoint frames (plus : R -> R -> R) (fs : list (Three.Camera * R))
    (c : Cow.t) : JS.State Runtime Cow.t :=
  match fs with
  | [] => JS.ret c
  | (camera, delta) :: fs' =>
      c' <- Double.tick plus camera delta c ;; frames plus fs' c'
  end.

(** Simulated time over a run of frames, as the fed timer accumulates
    it: from [t], one delta after the other, each sum as the runtime
    computes it. *)
Definition accumulated (plus : R -> R -> R) (t : R)
    (fs : list (Three.Camera * R)) : R :=
  fold_left (fun (t : R) (f : Three.Camera * R) => plus t f.2) fs t.

(** Simulated time since feeding. *)
Definition elapsed (plus : R -> R -> R) (fs : list (Three.Camera * R)) : R :=
  accumulated plus 0%R fs.

(** Every draw of [Math.random] lies in [0, 1). *)
Definition draws (s : JS.stream) : Prop :=
  forall n : nat, (0 <= s n < 1)%R.

(** The stream after [k] draws. *)
Definition shift (k : nat) (s : JS.stream) : JS.stream :=
  fun n => s (k + n)%nat.

(** The creatures the program can hold: made by the constructor, then
    fed, re-aimed at the camera while following, and updated with the
    non-negative deltas of the clock. *)
Inductive reachable (toString36 : R -> string) : Cow.t -> Prop :=
| reach_constructor (x y z : R) (rt : Runtime) :
    draws (random rt) ->
    reachable toString36 (Cow.constructor toString36 x y z rt).1
| reach_feed (c : Cow.t) (playerPosition : Vector3.t) :
    reachable toString36 c ->
    reachable toString36 (Cow.feed c playerPosition)
| reach_aim (c : Cow.t) (target : Vector3.t) :
    reachable toString36 c ->
    Cow.isFed c = true -> Cow.followTarget c <> None ->
    reachable toString36 (Cow.set_followTarget c (Some target))
| reach_update (c : Cow.t) (delta : R) (worldBounds : Cow.Bounds)
    (rt : Runtime) :
    reachable toString36 c ->
    (0 <= delta)%R -> draws (random rt) ->
    reachable toString36 (Cow.update c delta worldBounds rt).1.

(** The draws a computation leaves are a suffix of those it was given. *)
Definition suffix_of (s s' : JS.stream) : Prop :=
  exists k : nat, forall n : nat, s' n = s (k + n)%nat.

(** A position that stands on the terrain: one above the surface height
    of its own [(x, z)]. *)
Definition on_ground (p : Vector3.t) : Prop :=
  Vector3.y p = IZR (Utils.getTerrainHeight (Vector3.x p) (Vector3.z p) + 1).

(** What every reachable creature satisfies: the fed duration and the
    range of the wander interval are those of the constructor, the
    wander timer is not negative, a creature that is not fed has a level
    heading, and a fed one was fed no longer ago than its wander timer
    says and has a follow target. *)
Definition steady (c : Cow.t) : Prop :=
  Cow.maxFedTime c = 10%R
  /\ (Cow.maxWanderTime c <= 7)%R
  /\ (0 <= Cow.wanderTimer c)%R
  /\ (Cow.isFed c = false -> Vector3.y (Cow.direction c) = 0%R)
  /\ (Cow.isFed c = true ->
      (Cow.fedTimer c <= Cow.wanderTimer c)%R /\ Cow.followTarget c <> None).

(** *** Spawning *)

(** The position one pass of the sampling loop computes from its two
    draws. *)
Definition candidate (size r1 r2 : R) : R * Z * R :=
  let x := (r1 * size * 2 - size)%R in
  let z := (r2 * size * 2 - size)%R in
  (x,
   (JS.Math_floor (sin (x * (1 / 10)) * cos (z * (1 / 10)) * 3) + 6)%Z,
   z).

(** The position [spawnCows] gives a creature whose search starts with
    the draws [s]. *)
Definition spawnPosition (s : JS.stream) : Vector3.t :=
  let '(x, y, z) := (Game.do_while 15 0 s).1.1 in
  Vector3.mk x (IZR y) z.

(** The body of the loop of [spawnCows]: one pass. *)
Definition spawn (toString36 : R -> string) (cows : list (string * Cow.t))
    (i : nat) : JS.State Runtime (list (string * Cow.t)) :=
  found <- Run.with_random (fun s =>
             let '(p, _, s') := Game.do_while 15 0 s in (p, s')) ;;
  let '(x, y, z) := found in
  cow <- Cow.constructor toString36 x (IZR y) z ;;
  _ <- Run.scene_add (Three.group_uuid (Cow.mesh cow)) ;;
  JS.ret (Game.Map_set (Cow.id cow) cow cows).

(** The creature the pass [i] makes when the loop is entered with the
    runtime [rt].  Every earlier pass has taken 105 draws, 100 in its
    search and 5 in the constructor, and made 14 objects; the pass
    searches on the draws that are left and hands the position it comes
    back with to the constructor. *)
Definition spawned (toString36 : R -> string) (rt : Runtime) (i : nat)
  : Cow.t :=
  let s := shift (105 * i) (random rt) in
  let '(x, y, z) := (Game.do_while 15 0 s).1.1 in
  (Cow.constructor toString36 x (IZR y) z
     (mkRuntime (Game.do_while 15 0 s).2 (dates rt)
        (nextId rt + 14 * i) [])).1.

(** The herd after the passes of a list, each creature set under its
    id. *)
Definition herd (toString36 : R -> string) (rt : Runtime)
    (passes : list nat) (cows : list (string * Cow.t))
  : list (string * Cow.t) :=
  fold_left
    (fun cows i =>
       Game.Map_set (Cow.id (spawned toString36 rt i))
         (spawned toString36 rt i) cows)
    passes cows.

(** ** utils.ts: the remaining helpers *)

Module Helpers.
Import Utils.

Record BlockData : Type := mkBlockData {
  position : Position.t Z;
  type : BlockType
}.

(** [a % 1] on a number: what is left of [a] after its integer part,
    with the sign of [a]. *)
Definition rem1 (a : R) : R :=
  if JS.leb 0 a then (a - IZR (Zfloor a))%R else (a - IZR (Zceil a))%R.

Definition shouldGenerateTree (x z : R) (terrainHeight : Z) : bool :=
  (* Use position-based pseudo-random to ensure consistency *)
  let seed := (x * 1000 + z)%R in
  let random := (Rabs (sin seed) * 10000)%R in
  JS.ltb (rem1 random) (5 / 100) && (terrainHeight >? 3)%Z.

Definition getTreeBlocks (x z terrainHeight : Z)
  : JS.State JS.stream (list BlockData) :=
  r <- JS.Math_random ;;
  let treeHeight := (4 + JS.Math_floor (r * 3))%Z in
  (* Tree trunk *)
  let blocks :=
    List.map (fun y => mkBlockData (Position.mk x y z) WOOD)
      (seqZ (terrainHeight + 1) treeHeight) in
  (* Tree leaves *)
  let leafY := (terrainHeight + treeHeight)%Z in
  Run.foldM (fun blocks dx =>
    Run.foldM (fun blocks dz =>
      Run.foldM (fun blocks dy =>
        if (JS.Math_abs dx + JS.Math_abs dz <=? 2)%Z then
          r' <- JS.Math_random ;;
          if JS.ltb r' (8 / 10) then
            JS.ret (blocks ++ [mkBlockData
                                 (Position.mk (x + dx) (leafY + dy) (z + dz))%Z
                                 LEAVES])
          else JS.ret blocks
        else JS.ret blocks)
        (seqZ 0 3) blocks)
      (seqZ (-2) 5) blocks)
    (seqZ (-2) 5) blocks.

Definition createBlockMaterials (b : BlockType) : Three.Material :=
  Three.MeshLambertMaterial (Some (BLOCK_COLORS b)) None.

Definition worldToChunk (x z chunkSize : R) : Position.t Z :=
  Position.mk (JS.Math_floor (x / chunkSize)) 0%Z
    (JS.Math_floor (z / chunkSize)).

(** The default chunk size. *)
Definition chunkSize : R := 16.

Definition arePositionsAdjacent (pos1 pos2 : Position.t R) : bool :=
  let dx := Rabs (Position.x pos1 - Position.x pos2) in
  let dy := Rabs (Position.y pos1 - Position.y pos2) in
  let dz := Rabs (Position.z pos1 - Position.z pos2) in
  JS.leb dx 1 && JS.leb dy 1 && JS.leb dz 1 && JS.gtb (dx + dy + dz) 0.

Definition distanceBetweenPositions (pos1 pos2 : Position.t R) : R :=
  let dx := (Position.x pos1 - Position.x pos2)%R in
  let dy := (Position.y pos1 - Position.y pos2)%R in
  let dz := (Position.z pos1 - Position.z pos2)%R in
  sqrt (dx * dx + dy * dy + dz * dz).

Definition clamp (value min max : R) : R :=
  JS.Math_max min (JS.Math_min max value).

End Helpers.

(** A block coordinate as a position of numbers. *)
Definition cell (c : Position.t Z) : Position.t R :=
  Position.mk (IZR (Position.x c)) (IZR (Position.y c)) (IZR (Position.z c)).

(** A block of a tree grown on the column [(x, z)] of height [h]: wood
    on the column itself, up to six above the surface, or leaves inside
    the diamond around the column, four to eight above the surface. *)
Definition tree_block (x z h : Z) (b : Helpers.BlockData) : Prop :=
  let p := Helpers.position b in
  (Helpers.type b = Utils.WOOD
   /\ Position.x p = x /\ Position.z p = z
   /\ (h + 1 <= Position.y p <= h + 6)%Z)
  \/ (Helpers.type b = Utils.LEAVES
      /\ (Z.abs (Position.x p - x) + Z.abs (Position.z p - z) <= 2)%Z
      /\ (h + 4 <= Position.y p <= h + 8)%Z).

(** *** The store and the scene together *)

(** The scene has been filled by objects numbered so far. *)
Definition numbered (rt : Runtime) : Prop :=
  forall id : nat, In id (scene rt) -> (id < nextId rt)%nat.

(** The store agrees with the scene: every block is stored under the key
    of the cell its mesh stands at, its mesh is in the scene, and no two
    blocks share a mesh. *)
Definition coherent (rt : Runtime) (world : gmap string Three.Mesh) : Prop :=
  numbered rt
  /\ (forall k m, world !! k = Some m ->
      exists x y z : Z,
        k = Game.key x y z
        /\ Three.mesh_position m = Vector3.mk (IZR x) (IZR y) (IZR z))
  /\ (forall k m, world !! k = Some m -> In (Three.mesh_uuid m) (scene rt))
  /\ (forall k1 k2 m1 m2,
      world !! k1 = Some m1 -> world !! k2 = Some m2 ->
      Three.mesh_uuid m1 = Three.mesh_uuid m2 -> k1 = k2).

(** The cells generation can reach: the columns of the terrain and the
    two columns of leaves around them, from the ground to the top of the
    tallest tree on the highest column. *)
Definition in_extent (x y z : Z) : Prop :=
  (-22 <= x <= 22 /\ 0 <= y <= 16 /\ -22 <= z <= 22)%Z.

Definition within_extent (world : gmap string Three.Mesh) : Prop :=
  forall k m, world !! k = Some m ->
    exists x y z : Z, k = Game.key x y z /\ in_extent x y z.

(** The height [generateWorld] gives the column [(x, z)]. *)
Definition columnHeight (x z : Z) : Z :=
  (JS.Math_floor (sin (IZR x * (1 / 10)) * cos (IZR z * (1 / 10)) * 3) + 5)%Z.

(** The runtime before anything has been created: nothing in the scene,
    every draw one half, the clock at zero. *)
Definition blank : Runtime := mkRuntime (fun _ => 1 / 2)%R (fun _ => 0%R) 0 [].

(** The body of the two loops of [generateWorld]: the column [(x, z)],
    terrain first, then perhaps a tree. *)
Definition column (materials : Utils.BlockType -> Three.Material) (x : Z)
    (world : gmap string Three.Mesh) (z : Z)
  : JS.State Runtime (gmap string Three.Mesh) :=
  let height :=
    (JS.Math_floor
       (sin (IZR x * (1 / 10)) * cos (IZR z * (1 / 10)) * 3) + 5)%Z in
  world <- Run.foldM (fun world y =>
             Game.addBlock materials (Game.blockType y height) x y z world)
             (seqZ 0 (height + 1)) world ;;
  r <- Run.Math_random ;;
  if JS.ltb r (5 / 100) && (height >? 3)%Z then
    r' <- Run.Math_random ;;
    let treeHeight := (4 + JS.Math_floor (r' * 3))%Z in
    world <- Run.foldM (fun world y =>
               Game.addBlock materials Utils.WOOD x y z world)
               (seqZ (height + 1) treeHeight) world ;;
    let leafY := (height + treeHeight)%Z in
    Run.foldM (fun world dx =>
      Run.foldM (fun world dz =>
        Run.foldM (fun world dy =>
          if (JS.Math_abs dx + JS.Math_abs dz <=? 2)%Z then
            r'' <- Run.Math_random ;;
            if JS.ltb r'' (8 / 10) then
              Game.addBlock materials Utils.LEAVES
                (x + dx) (leafY + dy) (z + dz) world
            else JS.ret world
          else JS.ret world)
          (seqZ 0 3) world)
        (seqZ (-2) 5) world)
      (seqZ (-2) 5) world
  else JS.ret world.

(** *** A view from the side

    The camera of the corner view, moved to [(-49/2, 0, 8)]: its ray
    along [(24/25, 0, -7/25)] reaches the face [x = -1/2] of a block at
    [(0, 0, 1)], the second object made, at [(-1/2, 0, 1)], at distance
    25. *)
Module Side.

Definition camera : Three.Camera :=
  Three.mkCamera (Vector3.mk (- (49 / 2)) 0 8)
    (Quaternion.mk 0 (- (3 / 5)) 0 (4 / 5)).

Definition hit : Three.Intersection :=
  Three.mkIntersection (Vector3.mk (- (1 / 2)) 0 1)
    (Some (Three.mkFace (Vector3.mk (-1) 0 0)))
    (Three.mkObject3D 1 None (Matrix4.translation (Vector3.mk 0 0 1))).

Definition raycaster : Three.Raycaster :=
  Three.mkRaycaster (fun _ meshes => match meshes with [] => [] | _ => [hit] end)
    (fun _ _ => []).

End Side.

(** *** The herd *)

(** The group is drawn where the creature stands, lifted or lowered by
    the bob of the frame. *)
Definition posed (c : Cow.t) : Prop :=
  exists time : R,
    Three.group_position (Cow.mesh c)
    = Vector3.mk (Vector3.x (Cow.position c))
        (Vector3.y (Cow.position c) + sin (time * 2) * (5 / 100))%R
        (Vector3.z (Cow.position c)).

(** Inside the square [animate] confines the creatures to. *)
Definition inside (c : Cow.t) : Prop :=
  (-18 <= Vector3.x (Cow.position c) <= 18
   /\ -18 <= Vector3.z (Cow.position c) <= 18)%R.

(** A creature as [spawnCows] makes it. *)
Definition newborn (c : Cow.t) : Prop :=
  (-15 <= Vector3.x (Cow.position c) < 15
   /\ 3 <= Vector3.y (Cow.position c) <= 9
   /\ -15 <= Vector3.z (Cow.position c) < 15
   /\ 1 / 2 <= Cow.speed c < 1
   /\ 3 <= Cow.maxWanderTime c < 7)%R
  /\ Cow.wanderTimer c = 0%R
  /\ Cow.isFed c = false
  /\ Cow.followTarget c = None
  /\ Three.group_position (Cow.mesh c) = Cow.position c.

(** The heading is a unit vector or shorter. *)
Definition tame (c : Cow.t) : Prop :=
  (Vector3.length (Cow.direction c) <= 1)%R.

(** ** MinecraftGame.tsx: the controls *)

(** *** The rotations of three.js the controls use *)

Module Rotation.
Local Open Scope R_scope.

(** [Quaternion.length]. *)
Definition length (q : Quaternion.t) : R :=
  sqrt (Quaternion.x q * Quaternion.x q + Quaternion.y q * Quaternion.y q
        + Quaternion.z q * Quaternion.z q + Quaternion.w q * Quaternion.w q).

(** [Quaternion.normalize]: the identity for a quaternion of length
    zero. *)
Definition normalize (q : Quaternion.t) : Quaternion.t :=
  let l := length q in
  if Req_dec_T l 0 then Quaternion.mk 0 0 0 1
  else
    let l := 1 / l in
    Quaternion.mk (Quaternion.x q * l) (Quaternion.y q * l)
      (Quaternion.z q * l) (Quaternion.w q * l).

(** An [Euler] of order ["YXZ"]. *)
Record Euler : Type := mkEuler { x : R; y : R; z : R }.

(** [Quaternion.setFromEuler] for the order ["YXZ"]. *)
Definition setFromEuler (euler : Euler) : Quaternion.t :=
  let c1 := cos (x euler / 2) in
  let c2 := cos (y euler / 2) in
  let c3 := cos (z euler / 2) in
  let s1 := sin (x euler / 2) in
  let s2 := sin (y euler / 2) in
  let s3 := sin (z euler / 2) in
  Quaternion.mk (s1 * c2 * c3 + c1 * s2 * s3)
                (c1 * s2 * c3 - s1 * c2 * s3)
                (c1 * c2 * s3 - s1 * s2 * c3)
                (c1 * c2 * c3 + s1 * s2 * s3).

End Rotation.

Module Controls.
Local Open Scope R_scope.

Record MoveState : Type := mkMoveState {
  forward : bool;
  backward : bool;
  left : bool;
  right : bool;
  up : bool;
  down : bool
}.

(** The move state the component starts with. *)
Definition moveState : MoveState :=
  mkMoveState false false false false false false.

(** The assignment both key handlers make, [pressed] being [true] in
    [handleKeyDown] and [false] in [handleKeyUp]. *)
Definition setKey (pressed : bool) (code : string) (m : MoveState)
  : MoveState :=
  if String.eqb code "KeyW" then
    mkMoveState pressed (backward m) (left m) (right m) (up m) (down m)
  else if String.eqb code "KeyS" then
    mkMoveState (forward m) pressed (left m) (right m) (up m) (down m)
  else if String.eqb code "KeyA" then
    mkMoveState (forward m) (backward m) pressed (right m) (up m) (down m)
  else if String.eqb code "KeyD" then
    mkMoveState (forward m) (backward m) (left m) pressed (up m) (down m)
  else if String.eqb code "Space" then
    mkMoveState (forward m) (backward m) (left m) (right m) pressed (down m)
  else if String.eqb code "ShiftLeft" then
    mkMoveState (forward m) (backward m) (left m) (right m) (up m) pressed
  else m.

Definition handleKeyDown (code : string) (m : MoveState) : MoveState :=
  setKey true code m.

Definition handleKeyUp (code : string) (m : MoveState) : MoveState :=
  setKey false code m.

(** The mouse angles and the camera, the state [handleMouseMove] works
    on. *)
Record Look : Type := mkLook {
  mouseX : R;
  mouseY : R;
  camera : Three.Camera
}.

Section MouseMove.
(** [euler.setFromQuaternion(q)], left to the library: the handler
    overwrites two of the three angles it gives. *)
Variable setFromQuaternion : Quaternion.t -> Rotation.Euler.

Definition handleMouseMove (isMouseLocked : bool) (movementX movementY : R)
    (look : Look) : Look :=
  if negb isMouseLocked then look
  else
    let mouseX := mouseX look - movementX * (2 / 1000) in
    let mouseY := mouseY look - movementY * (2 / 1000) in
    let mouseY := JS.Math_max (- PI / 2) (JS.Math_min (PI / 2) mouseY) in
    let euler := setFromQuaternion (Three.quaternion (camera look)) in
    let euler := Rotation.mkEuler (Rotation.x euler) mouseX
                   (Rotation.z euler) in
    let euler := Rotation.mkEuler mouseY (Rotation.y euler)
                   (Rotation.z euler) in
    mkLook mouseX mouseY
      (Three.mkCamera (Three.position (camera look))
         (Rotation.setFromEuler euler)).
End MouseMove.

(** The direction the keys held ask for, before it is normalised. *)
Definition heading (m : MoveState) : Vector3.t :=
  let d := Vector3.mk 0 0 0 in
  let d := if forward m then Vector3.set_z d (Vector3.z d - 1) else d in
  let d := if backward m then Vector3.set_z d (Vector3.z d + 1) else d in
  let d := if left m then Vector3.set_x d (Vector3.x d - 1) else d in
  let d := if right m then Vector3.set_x d (Vector3.x d + 1) else d in
  let d := if up m then Vector3.set_y d (Vector3.y d + 1) else d in
  let d := if down m then Vector3.set_y d (Vector3.y d - 1) else d in
  d.

(** The camera half of [animate]. *)
Definition moveCamera (isMouseLocked : bool) (m : MoveState) (delta : R)
    (camera : Three.Camera) : Three.Camera :=
  if isMouseLocked then
    (* Update movement *)
    let direction := heading m in
    let direction := Vector3.normalize direction in
    let direction := Vector3.multiplyScalar direction (10 * delta) in
    (* Apply rotation to movement direction *)
    let quaternion := Three.quaternion camera in
    let quaternion :=
      Quaternion.mk 0 (Quaternion.y quaternion) (Quaternion.z quaternion)
        (Quaternion.w quaternion) in
    let quaternion := Rotation.normalize quaternion in
    let horizontalDirection :=
      Three.applyQuaternion
        (Vector3.mk (Vector3.x direction) 0 (Vector3.z direction))
        quaternion in
    let position := Vector3.add (Three.position camera) horizontalDirection in
    let position :=
      Vector3.set_y position (Vector3.y position + Vector3.y direction) in
    Three.mkCamera position (Three.quaternion camera)
  else camera.

End Controls.

(** The keys held cancel: nothing is asked of the camera. *)
Definition at_rest (m : Controls.MoveState) : Prop :=
  Controls.forward m = Controls.backward m
  /\ Controls.left m = Controls.right m
  /\ Controls.up m = Controls.down m.

(** What a key counts for in a sum. *)
Definition weight (b : bool) : R := if b then 1%R else 0%R.

(** The view direction of pitch [pitch] and yaw [yaw]. *)
Definition gaze (pitch yaw : R) : Vector3.t :=
  Vector3.mk (- (sin yaw * cos pitch)) (sin pitch) (- (cos yaw * cos pitch)).

(** ** MinecraftGame.tsx: the effect and its cleanup *)

Module Session.
Import Utils.
Local Open Scope R_scope.

Section Effect.
Variable toString36 : R -> string.

(** What the effect sets up before it installs the handlers: the camera,
    the two lights, the world and the herd. *)
Definition setup (materials : BlockType -> Three.Material)
  : JS.State Runtime (Three.Camera * Game.World * Game.Cows) :=
  let camera :=
    Three.mkCamera (Vector3.mk 0 10 10) (Quaternion.mk 0 0 0 1) in
  (* Lighting *)
  ambientLight <- Run.fresh ;;
  _ <- Run.scene_add ambientLight ;;
  directionalLight <- Run.fresh ;;
  _ <- Run.scene_add directionalLight ;;
  (* Create materials and world *)
  world <- Game.generateWorld materials ;;
  (* Spawn cows *)
  cows <- Game.spawnCows toString36 5 ;;
  JS.ret (camera, world, cows).
End Effect.

(** The part of the cleanup that touches the scene and the herd. *)
Definition cleanup (cows : Game.Cows) : JS.State Runtime Game.Cows :=
  (* Clean up cows *)
  _ <- Run.foldM (fun (_ : unit) (kc : string * Cow.t) =>
                    Run.scene_remove (Three.group_uuid (Cow.mesh kc.2)))
         cows tt ;;
  JS.ret [].

End Session.

(** The objects the creatures of a herd are drawn as. *)
Definition groups (cows : list (string * Cow.t)) : list nat :=
  List.map (fun kc : string * Cow.t => Three.group_uuid (Cow.mesh kc.2)) cows.

(** No block of the store is drawn as the group of a creature. *)
Definition apart (world : gmap string Three.Mesh)
    (cows : list (string * Cow.t)) : Prop :=
  forall k m, world !! k = Some m -> ~ In (Three.mesh_uuid m) (groups cows).

(** Every creature of the herd is in the scene. *)
Definition shown (rt : Runtime) (cows : list (string * Cow.t)) : Prop :=
  Forall (fun id => In id (scene rt)) (groups cows).

(** The cell [(x, y, z)] holds a block of the layer the classifier gives
    it, standing at the cell. *)
Definition layered (materials : Utils.BlockType -> Three.Material)
    (x y z : Z) (world : gmap string Three.Mesh) : Prop :=
  exists u : nat,
    world !! Game.key x y z
    = Some (Three.mkMesh u (Vector3.mk (IZR x) (IZR y) (IZR z))
              (Vector3.mk 0 0 0)
              (materials
                 (Utils.getBlockType y
                    (Utils.getTerrainHeight (IZR x) (IZR z))))
              None).

(** ** MinecraftGame.tsx: a frame *)

Module Frame.
Local Open Scope R_scope.

(** [animate], for the frame time [delta] the clock gives: the camera
    moves, then the creatures are updated against the camera where it
    now stands. *)
Definition animate (isMouseLocked : bool) (moveState : Controls.MoveState)
    (delta : R) (camera : Three.Camera) (cows : Game.Cows)
  : JS.State Runtime (Three.Camera * Game.Cows) :=
  let camera := Controls.moveCamera isMouseLocked moveState delta camera in
  (* Update cows *)
  cows <- Game.updateCows camera delta cows ;;
  JS.ret (camera, cows).

End Frame.

(** ** Rounding

    [rounds eps op exact]: what the runtime computes for [op] is the
    exact result up to the relative error [eps], as the sum and the
    difference of doubles are with [eps] half the distance from 1 to the
    next double. *)
Definition rounds (eps : R) (op exact : R -> R -> R) : Prop :=
  forall x y : R, (Rabs (op x y - exact x y) <= eps * Rabs (exact x y))%R.

(** How far a coordinate [p] that is moved by [h], moved back and
    rounded to a cell can end from where it was. *)
Definition slack (eps p h : R) : R :=
  (1 / 2 + eps * (2 + eps) * (Rabs p + Rabs h))%R.

(** A cell within that distance of a point, coordinate by coordinate. *)
Definition near (eps : R) (cell : Position.t Z) (p h : Vector3.t) : Prop :=
  (Rabs (IZR (Position.x cell) - Vector3.x p)
   <= slack eps (Vector3.x p) (Vector3.x h)
   /\ Rabs (IZR (Position.y cell) - Vector3.y p)
      <= slack eps (Vector3.y p) (Vector3.y h)
   /\ Rabs (IZR (Position.z cell) - Vector3.z p)
      <= slack eps (Vector3.z p) (Vector3.z h))%R.

(** * Properties *)

(** ** The coordinate key codec *)

Section KeyCodec.

Lemma split_comma_free (s : string) :
  comma_free s -> JS.split s = [s].
Proof.
  induction s as [|c s IH]; simpl; [reflexivity|].
  intros [Hc Hs]. apply Ascii.eqb_neq in Hc. rewrite Hc, (IH Hs).
  reflexivity.
Qed.

Lemma split_app (a rest : string) :
  comma_free a ->
  JS.split (a +:+ String "," rest) = a :: JS.split rest.
Proof.
  induction a as [|c a IH]; simpl; [reflexivity|].
  intros [Hc Ha]. apply Ascii.eqb_neq in Hc. rewrite Hc, (IH Ha).
  reflexivity.
Qed.

Lemma digit_not_comma (c : ascii) : is_digit c -> c <> ","%char.
Proof.
  unfold is_digit. simpl.
  intros H; repeat destruct H as [<-|H]; try discriminate. destruct H.
Qed.

Lemma digit_not_sign (c : ascii) :
  is_digit c -> c <> "-"%char /\ c <> "+"%char.
Proof.
  unfold is_digit. simpl.
  intros H; repeat destruct H as [<-|H]; try (split; discriminate).
  destruct H.
Qed.

Lemma all_digits_comma_free (s : string) : all_digits s -> comma_free s.
Proof.
  induction s as [|c s IH]; simpl; [trivial|].
  intros [Hc Hs]. split; [apply digit_not_comma, Hc | apply IH, Hs].
Qed.

Lemma all_digits_uint (d : Decimal.uint) :
  all_digits (NilEmpty.string_of_uint d).
Proof.
  induction d; simpl; try exact I;
    (split; [unfold is_digit; simpl; tauto | assumption]).
Qed.

Lemma all_digits_NilZero (d : Decimal.uint) :
  all_digits (NilZero.string_of_uint d).
Proof.
  destruct d; try apply (all_digits_uint (_ _)).
  simpl. split; [unfold is_digit; simpl; tauto | exact I].
Qed.

Lemma NilZero_nonempty (d : Decimal.uint) :
  NilZero.string_of_uint d <> EmptyString.
Proof. destruct d; discriminate. Qed.

Lemma digits_NilZero (d : Decimal.uint) :
  JS.digits (NilZero.string_of_uint d) = JS.Int (Z.of_uint d).
Proof.
  destruct d;
    try (unfold NilZero.string_of_uint, JS.digits;
         rewrite NilEmpty.usu; reflexivity).
  reflexivity.
Qed.

(** On a non-empty string of digits, [Number] reads the digits. *)
Lemma Number_digits (s : string) :
  all_digits s -> s <> EmptyString -> JS.Number s = JS.digits s.
Proof.
  destruct s as [|c s]; [congruence|].
  intros [Hc _] _. apply digit_not_sign in Hc. destruct Hc as [Hm Hp].
  unfold JS.Number.
  destruct c as [[] [] [] [] [] [] [] []]; try reflexivity; congruence.
Qed.

Lemma toString_comma_free (n : Z) : comma_free (JS.toString n).
Proof.
  unfold JS.toString. destruct (Z.to_int n) as [d|d]; simpl.
  - apply all_digits_comma_free, all_digits_NilZero.
  - split; [discriminate|].
    apply all_digits_comma_free, all_digits_NilZero.
Qed.

Lemma Number_toString (n : Z) : JS.Number (JS.toString n) = JS.Int n.
Proof.
  unfold JS.toString. rewrite <- (DecimalZ.of_to n) at 2.
  destruct (Z.to_int n) as [d|d]; simpl Z.of_int.
  - simpl NilZero.string_of_int.
    rewrite Number_digits;
      auto using all_digits_NilZero, NilZero_nonempty, digits_NilZero.
  - simpl. rewrite digits_NilZero. reflexivity.
Qed.

Lemma split_getBlockKey (x y z : Z) :
  JS.split (Utils.getBlockKey x y z)
  = [JS.toString x; JS.toString y; JS.toString z].
Proof.
  unfold Utils.getBlockKey.
  change ("," +:+ ?s)%string with (String "," s).
  rewrite split_app by apply toString_comma_free.
  change ("," +:+ ?s)%string with (String "," s).
  rewrite split_app by apply toString_comma_free.
  rewrite split_comma_free by apply toString_comma_free.
  reflexivity.
Qed.

Lemma parse_getBlockKey (x y z : Z) :
  Utils.parseBlockKey (Utils.getBlockKey x y z)
  = Position.mk (JS.Num (JS.Int x)) (JS.Num (JS.Int y)) (JS.Num (JS.Int z)).
Proof.
  unfold Utils.parseBlockKey. rewrite split_getBlockKey. simpl List.map.
  rewrite !Number_toString. reflexivity.
Qed.

(** C6. The coordinate key codec round-trips: [getBlockKey] is defined on
    every integer triple and injective, and [parseBlockKey] applied to
    the key of [(x, y, z)] returns exactly [(x, y, z)]. *)
Theorem key_codec_round_trip :
  (forall x y z : Z,
      Utils.parseBlockKey (Utils.getBlockKey x y z)
      = Position.mk (JS.Num (JS.Int x)) (JS.Num (JS.Int y))
          (JS.Num (JS.Int z)))
  /\ (forall x y z x' y' z' : Z,
         Utils.getBlockKey x y z = Utils.getBlockKey x' y' z' ->
         x = x' /\ y = y' /\ z = z').
Proof.
  split; [exact parse_getBlockKey|].
  intros x y z x' y' z' H.
  pose proof (parse_getBlockKey x y z) as P.
  rewrite H, parse_getBlockKey in P.
  injection P as -> -> ->. auto.
Qed.

Example getBlockKey_corner : Utils.getBlockKey (-20) 5 20 = "-20,5,20"%string.
Proof. reflexivity. Qed.

(** A key with a piece missing parses to [undefined] there, and a piece
    that is not a decimal integer is not read as one. *)
Example parseBlockKey_short :
  Utils.parseBlockKey "1,-2"
  = Position.mk (JS.Num (JS.Int 1)) (JS.Num (JS.Int (-2))) JS.Undefined.
Proof. reflexivity. Qed.

Example parseBlockKey_word :
  Utils.parseBlockKey "1,x,3"
  = Position.mk (JS.Num (JS.Int 1)) (JS.Num JS.NonInt) (JS.Num (JS.Int 3)).
Proof. reflexivity. Qed.

(** At the corner column [(-20, 5, 20)] of the generated world. *)
Lemma key_codec_round_trip_corner :
  Utils.parseBlockKey (Utils.getBlockKey (-20) 5 20)
  = Position.mk (JS.Num (JS.Int (-20))) (JS.Num (JS.Int 5))
      (JS.Num (JS.Int 20))
  /\ ((-20)%Z = (-20)%Z /\ 5%Z = 5%Z /\ 20%Z = 20%Z).
Proof.
  split.
  - exact (proj1 key_codec_round_trip (-20)%Z 5%Z 20%Z).
  - exact (proj2 key_codec_round_trip (-20)%Z 5%Z 20%Z (-20)%Z 5%Z 20%Z
             eq_refl).
Defined.

End KeyCodec.

(** ** The block classifier *)

Section Classifier.

Lemma blockType_getBlockType (y height : Z) :
  Game.blockType y height = Utils.getBlockType y height.
Proof. reflexivity. Qed.

(** C7. For every integer [y] with [0 <= y <= columnHeight] the classifier
    returns Grass exactly when [y = columnHeight], Dirt exactly when
    [columnHeight - 3 <= y < columnHeight] and Stone exactly when
    [y < columnHeight - 3]; the classification written out in the column
    loop of [generateWorld] is the same function. *)
Theorem getBlockType_classification (y columnHeight : Z) :
  (0 <= y <= columnHeight)%Z ->
  (Utils.getBlockType y columnHeight = Utils.GRASS <-> y = columnHeight)
  /\ (Utils.getBlockType y columnHeight = Utils.DIRT
      <-> (columnHeight - 3 <= y < columnHeight)%Z)
  /\ (Utils.getBlockType y columnHeight = Utils.STONE
      <-> (y < columnHeight - 3)%Z)
  /\ Game.blockType y columnHeight = Utils.getBlockType y columnHeight.
Proof.
  intros Hy.
  split; [|split; [|split; [|apply blockType_getBlockType]]];
    unfold Utils.getBlockType;
    destruct (Z.eqb_spec y columnHeight) as [E|E];
    destruct (Z.geb_spec y (columnHeight - 3)) as [G|G];
    split; intros; try discriminate; try reflexivity; lia.
Qed.

(** At column height 5: [y = 5] is Grass, [y = 2, 3, 4] are Dirt and
    [y = 0, 1] are Stone. *)
Lemma getBlockType_classification_height_5 :
  Utils.getBlockType 5 5 = Utils.GRASS
  /\ Utils.getBlockType 4 5 = Utils.DIRT
  /\ Utils.getBlockType 3 5 = Utils.DIRT
  /\ Utils.getBlockType 2 5 = Utils.DIRT
  /\ Utils.getBlockType 1 5 = Utils.STONE
  /\ Utils.getBlockType 0 5 = Utils.STONE.
Proof.
  refine (conj _ (conj _ (conj _ (conj _ (conj _ _))))).
  - apply (getBlockType_classification 5 5); lia.
  - apply (getBlockType_classification 4 5); lia.
  - apply (getBlockType_classification 3 5); lia.
  - apply (getBlockType_classification 2 5); lia.
  - apply (getBlockType_classification 1 5); lia.
  - apply (getBlockType_classification 0 5); lia.
Defined.

(** C9. [getBlockType] is defined on every pair of integers, and strictly
    above the terrain height it returns Dirt (so neither Grass nor
    Stone). *)
Theorem getBlockType_above_surface (y terrainHeight : Z) :
  (terrainHeight < y)%Z ->
  Utils.getBlockType y terrainHeight = Utils.DIRT.
Proof.
  intros Hy. unfold Utils.getBlockType.
  rewrite (proj2 (Z.eqb_neq _ _)) by lia.
  rewrite (proj2 (Z.geb_le _ _)) by lia. reflexivity.
Qed.

Lemma getBlockType_above_surface_6_5 :
  Utils.getBlockType 6 5 = Utils.DIRT
  /\ Utils.getBlockType 6 5 <> Utils.GRASS
  /\ Utils.getBlockType 6 5 <> Utils.STONE.
Proof.
  assert (H : Utils.getBlockType 6 5 = Utils.DIRT)
    by (apply (getBlockType_above_surface 6 5); lia).
  rewrite H. refine (conj eq_refl (conj _ _)); discriminate.
Defined.

End Classifier.

(** ** Targeting *)

Section Targeting.
Local Open Scope R_scope.

Lemma Math_round_eq (z : Z) (a : R) :
  IZR z - 1 / 2 <= a < IZR z + 1 / 2 -> JS.Math_round a = z.
Proof. intros H. apply Zfloor_eq. lra. Qed.

Lemma getTargetBlock_raycastBlock raycaster camera world :
  Game.getTargetBlock raycaster camera world
  = Utils.raycastBlock raycaster camera world.
Proof. reflexivity. Qed.

(** The resolver never reads a vector it did not create, and its result
    is that of [resolve] on the nearest intersection. *)
Lemma getTargetBlock_resolve raycaster camera (world : gmap string Three.Mesh) :
  Ref.run (Game.getTargetBlock raycaster camera world)
  = Some match Three.intersectObjects raycaster (view_ray camera)
                 (map_to_list world).*2 with
         | i :: _ => resolve i
         | [] => None
         end.
Proof.
  unfold Game.getTargetBlock, view_ray, resolve.
  unfold Ref.run, Ref.bind, Ref.alloc, Ref.applyQuaternion, Ref.read,
    Ref.write. simpl.
  destruct (Three.intersectObjects _ _ _) as [|i l]; [reflexivity|].
  destruct (Three.face i) as [f|]; reflexivity.
Qed.

Lemma sub_add_cancel (p h : Vector3.t) :
  Vector3.sub (Vector3.add p h) h = p.
Proof.
  destruct p, h. unfold Vector3.sub, Vector3.add. simpl.
  f_equal; ring.
Qed.

(** Because [point] and [normal] are updated in place, the vector the
    "remove" cell is rounded from is the intersection point itself. *)
Lemma resolve_remove (i : Three.Intersection) (t : Utils.TargetResult) :
  resolve i = Some t -> Utils.remove t = round3 (Three.point i).
Proof.
  unfold resolve. destruct (Three.face i); [|discriminate].
  intros [= <-]. simpl. rewrite sub_add_cancel. reflexivity.
Qed.

Lemma length_canonical (n : Vector3.t) :
  canonical_normal n -> Vector3.length n = 1.
Proof.
  unfold canonical_normal. simpl.
  intros H; repeat destruct H as [<-|H]; try destruct H;
    unfold Vector3.length; simpl;
    match goal with |- sqrt ?a = 1 => replace a with 1 by ring end;
    apply sqrt_1.
Qed.

Lemma normalize_canonical (n : Vector3.t) :
  canonical_normal n -> Vector3.normalize n = n.
Proof.
  intros H. unfold Vector3.normalize. rewrite (length_canonical n H).
  destruct (Req_dec_T 1 0) as [E|_]; [lra|].
  destruct n. unfold Vector3.divideScalar, Vector3.multiplyScalar. simpl.
  f_equal; field.
Qed.

Lemma transformDirection_axis_aligned (n : Vector3.t) (m : Matrix4.t) :
  axis_aligned m -> canonical_normal n -> Three.transformDirection n m = n.
Proof.
  intros (E0 & E1 & E2 & E4 & E5 & E6 & E8 & E9 & E10) Hn.
  unfold Three.transformDirection.
  rewrite E0, E1, E2, E4, E5, E6, E8, E9, E10.
  match goal with |- Vector3.normalize ?v = _ => replace v with n end.
  - apply normalize_canonical, Hn.
  - destruct n. simpl. f_equal; ring.
Qed.

End Targeting.

Section Adjacency.
Local Open Scope R_scope.

Lemma ltb_true (a b : R) : a < b -> JS.ltb a b = true.
Proof. intros H. unfold JS.ltb. destruct (Rlt_dec a b); [reflexivity|lra]. Qed.

Lemma ltb_false (a b : R) : b <= a -> JS.ltb a b = false.
Proof. intros H. unfold JS.ltb. destruct (Rlt_dec a b); [lra|reflexivity]. Qed.

Lemma leb_true (a b : R) : a <= b -> JS.leb a b = true.
Proof. intros H. unfold JS.leb. destruct (Rle_dec a b); [reflexivity|lra]. Qed.

Lemma leb_false (a b : R) : b < a -> JS.leb a b = false.
Proof. intros H. unfold JS.leb. destruct (Rle_dec a b); [lra|reflexivity]. Qed.

(** One coordinate of the two cells, from the point and the normal. *)
Lemma round_face_coord (c : Z) (n p : R) :
  n = 0 \/ n = 1 \/ n = -1 ->
  face_coord c n p ->
  JS.Math_round (p + n * (1 / 2)) = (c + step n)%Z
  /\ JS.Math_round p = (c + overshoot n)%Z.
Proof.
  unfold face_coord, step, overshoot.
  intros [->|[->| ->]] [[E H]|[E ->]]; try lra.
  - rewrite !ltb_false by lra.
    split; apply Math_round_eq; rewrite plus_IZR; lra.
  - rewrite !ltb_true by lra.
    split; apply Math_round_eq; rewrite plus_IZR; lra.
  - rewrite ltb_false, ltb_true by lra.
    split; apply Math_round_eq; rewrite plus_IZR; lra.
Qed.

Lemma canonical_components (n : Vector3.t) :
  canonical_normal n ->
  (Vector3.x n = 0 \/ Vector3.x n = 1 \/ Vector3.x n = -1)
  /\ (Vector3.y n = 0 \/ Vector3.y n = 1 \/ Vector3.y n = -1)
  /\ (Vector3.z n = 0 \/ Vector3.z n = 1 \/ Vector3.z n = -1).
Proof.
  unfold canonical_normal. simpl.
  intros H; repeat destruct H as [<-|H]; try destruct H; simpl; tauto.
Qed.

(** The two cells the resolver returns for a hit on a face of the unit
    cube centred at [c]: "place" is the neighbour across the face;
    "remove" is [c] for the three faces on the negative side and the same
    neighbour for the three faces on the positive side. *)
Lemma resolve_on_face (i : Three.Intersection) (c : Position.t Z)
    (n : Vector3.t) :
  Three.face i = Some (Three.mkFace n) ->
  canonical_normal n ->
  axis_aligned (Three.matrixWorld (Three.object i)) ->
  on_face c n (Three.point i) ->
  resolve i
  = Some (Utils.mkTarget (neighbour c n)
            (Position.mk (Position.x c + overshoot (Vector3.x n))%Z
               (Position.y c + overshoot (Vector3.y n))%Z
               (Position.z c + overshoot (Vector3.z n))%Z)).
Proof.
  intros Hf Hn Hm (Hx & Hy & Hz).
  destruct (canonical_components n Hn) as (Cx & Cy & Cz).
  unfold resolve. rewrite Hf. cbv zeta. simpl Three.normal.
  rewrite sub_add_cancel, (transformDirection_axis_aligned n _ Hm Hn).
  unfold round3, neighbour, Vector3.add, Vector3.multiplyScalar. simpl.
  destruct (round_face_coord _ _ _ Cx Hx) as [-> ->].
  destruct (round_face_coord _ _ _ Cy Hy) as [-> ->].
  destruct (round_face_coord _ _ _ Cz Hz) as [-> ->].
  reflexivity.
Qed.

Lemma front_face_hit :
  Three.intersectObjects FrontFace.raycaster (view_ray FrontFace.camera)
    (map_to_list FrontFace.world).*2
  = [FrontFace.hit].
Proof.
  unfold FrontFace.world. rewrite map_to_list_singleton. reflexivity.
Qed.

Lemma front_face_geometry :
  canonical_normal (Vector3.mk 0 0 1)
  /\ axis_aligned (Three.matrixWorld (Three.object FrontFace.hit))
  /\ on_face (Position.mk 0 0 0)%Z (Vector3.mk 0 0 1)
       (Three.point FrontFace.hit).
Proof.
  split; [|split].
  - unfold canonical_normal. simpl. tauto.
  - unfold axis_aligned, Matrix4.e. simpl. tauto.
  - unfold on_face, face_coord. simpl.
    split; [left; lra | split; [left; lra | right; lra]].
Qed.

Lemma front_face_target :
  Ref.run (Game.getTargetBlock FrontFace.raycaster FrontFace.camera
             FrontFace.world)
  = Some (Some (Utils.mkTarget (Position.mk 0 0 1)%Z (Position.mk 0 0 1)%Z)).
Proof.
  rewrite getTargetBlock_resolve, front_face_hit.
  destruct front_face_geometry as (Hn & Hm & Hp).
  rewrite (resolve_on_face FrontFace.hit (Position.mk 0 0 0)%Z
             (Vector3.mk 0 0 1) eq_refl Hn Hm Hp).
  unfold neighbour, step, overshoot. simpl.
  rewrite (ltb_false 0 0), (ltb_true 0 1) by lra. reflexivity.
Qed.

(** C1, at the front face of a single block.  The camera looks straight at
    the face [z = 1/2] of the block at the origin, whose outward normal is
    [(0, 0, 1)].  The resolver returns [(0, 0, 1)] as the cell to place in,
    the neighbour across the face, and the same [(0, 0, 1)] as the cell to
    remove, not the struck block [(0, 0, 0)]; [raycastBlock] does the
    same. *)
Theorem getTargetBlock_front_face :
  Ref.run (Game.getTargetBlock FrontFace.raycaster FrontFace.camera
             FrontFace.world)
  = Some (Some (Utils.mkTarget (Position.mk 0 0 1)%Z (Position.mk 0 0 1)%Z))
  /\ Ref.run (Utils.raycastBlock FrontFace.raycaster FrontFace.camera
                FrontFace.world)
     = Some (Some (Utils.mkTarget (Position.mk 0 0 1)%Z
                     (Position.mk 0 0 1)%Z)).
Proof. split; exact front_face_target. Qed.

End Adjacency.

(** ** Editing the world store *)

Section Edit.
Local Open Scope R_scope.

Lemma resolve_axis_aligned (i : Three.Intersection) (n : Vector3.t) :
  Three.face i = Some (Three.mkFace n) ->
  canonical_normal n ->
  axis_aligned (Three.matrixWorld (Three.object i)) ->
  resolve i
  = Some (Utils.mkTarget
            (round3 (Vector3.add (Three.point i)
                       (Vector3.multiplyScalar n (1 / 2))))
            (round3 (Three.point i))).
Proof.
  intros Hf Hn Hm. unfold resolve. rewrite Hf. cbv zeta. simpl Three.normal.
  rewrite sub_add_cancel, (transformDirection_axis_aligned n _ Hm Hn).
  reflexivity.
Qed.

(** The camera of the corner view looks along [(24/25, 0, -7/25)], and
    the point it meets the blocks at is 25 units down that ray. *)
Lemma corner_view :
  Three.direction (view_ray Corner.camera) = Vector3.mk (24 / 25) 0 (- (7 / 25))
  /\ Three.point Corner.hitA
     = Vector3.add (Three.origin (view_ray Corner.camera))
         (Vector3.multiplyScalar (Three.direction (view_ray Corner.camera)) 25).
Proof.
  unfold view_ray, Three.applyQuaternion, Vector3.add, Vector3.multiplyScalar.
  simpl. split; f_equal; field.
Qed.

Lemma corner_target :
  Ref.run (Game.getTargetBlock Corner.raycaster Corner.camera Corner.world)
  = Some (Some (Utils.mkTarget (Position.mk 1 0 1)%Z (Position.mk 1 0 1)%Z)).
Proof.
  rewrite getTargetBlock_resolve.
  assert (E : Three.intersectObjects Corner.raycaster (view_ray Corner.camera)
                (map_to_list Corner.world).*2 = [Corner.hitA; Corner.hitB]).
  { simpl. destruct (map_to_list Corner.world) as [|kv l] eqn:M;
      [|reflexivity].
    apply map_to_list_empty_iff in M.
    assert (L : Corner.world !! Game.key 1 0 1 = Some Corner.blockB)
      by apply lookup_insert_eq.
    rewrite M in L. discriminate. }
  rewrite E.
  rewrite (resolve_axis_aligned Corner.hitA (Vector3.mk 0 0 1) eq_refl).
  - unfold round3, Vector3.add, Vector3.multiplyScalar. simpl.
    rewrite (Math_round_eq 1 (1 / 2 + 0 * (1 / 2))) by lra.
    rewrite (Math_round_eq 0 (0 + 0 * (1 / 2))) by lra.
    rewrite (Math_round_eq 1 (1 / 2 + 1 * (1 / 2))) by lra.
    rewrite (Math_round_eq 1 (1 / 2)) by lra.
    rewrite (Math_round_eq 0 0) by lra.
    reflexivity.
  - unfold canonical_normal. simpl. tauto.
  - unfold axis_aligned, Matrix4.e. simpl. tauto.
Qed.

Lemma feedCow_button (raycaster : Three.Raycaster) (camera : Three.Camera)
    (button : Z) (cows : list (string * Cow.t)) :
  button <> 2%Z -> Game.feedCow raycaster camera button cows = None.
Proof.
  intros Hb. unfold Game.feedCow.
  destruct (Three.intersectGroups _ _ _); [reflexivity|].
  rewrite (proj2 (Z.eqb_neq _ _) Hb). reflexivity.
Qed.

(** The block half of the handler when the cell to remove is empty. *)
Lemma editBlock_remove_absent raycaster camera materials selectedBlock
    (world : gmap string Three.Mesh) (rt : Runtime)
    (target : Utils.TargetResult) :
  Ref.run (Game.getTargetBlock raycaster camera world) = Some (Some target) ->
  world !! Game.key (Position.x (Utils.remove target))
             (Position.y (Utils.remove target))
             (Position.z (Utils.remove target)) = None ->
  Game.editBlock raycaster camera materials selectedBlock 0 world rt
  = (world, rt).
Proof.
  intros Ht Hk. unfold Game.editBlock. rewrite Ht. simpl. rewrite Hk.
  reflexivity.
Qed.

(** The block half of the handler when the cell to place in is taken. *)
Lemma editBlock_place_present raycaster camera materials selectedBlock
    (world : gmap string Three.Mesh) (rt : Runtime)
    (target : Utils.TargetResult) :
  Ref.run (Game.getTargetBlock raycaster camera world) = Some (Some target) ->
  is_Some (world !! Game.key (Position.x (Utils.place target))
                      (Position.y (Utils.place target))
                      (Position.z (Utils.place target))) ->
  Game.editBlock raycaster camera materials selectedBlock 2 world rt
  = (world, rt).
Proof.
  intros Ht [mesh Hk]. unfold Game.editBlock. rewrite Ht. simpl. rewrite Hk.
  reflexivity.
Qed.

(** The block half of the handler when the ray meets no block. *)
Lemma editBlock_no_target raycaster camera materials selectedBlock button
    (world : gmap string Three.Mesh) (rt : Runtime) :
  Ref.run (Game.getTargetBlock raycaster camera world) = Some None ->
  Game.editBlock raycaster camera materials selectedBlock button world rt
  = (world, rt).
Proof. intros Ht. unfold Game.editBlock. rewrite Ht. reflexivity. Qed.

Lemma handleClick_world raycaster camera materials isMouseLocked
    selectedBlock button (world : gmap string Three.Mesh)
    (cows : list (string * Cow.t)) (rt : Runtime) :
  Game.editBlock raycaster camera materials selectedBlock button world rt
  = (world, rt) ->
  (Game.handleClick raycaster camera materials isMouseLocked selectedBlock
     button world cows rt).1.1 = world
  /\ (Game.handleClick raycaster camera materials isMouseLocked selectedBlock
        button world cows rt).2 = rt.
Proof.
  intros He. unfold Game.handleClick.
  destruct isMouseLocked; simpl; [|auto].
  destruct (Game.feedCow _ _ _ _); simpl; [auto|].
  unfold JS.bind. rewrite He. auto.
Qed.

(** C8. A click whose precondition fails is a no-op on the world store.
    With [target] the cells the resolver returns: a left click (Remove)
    when the cell to remove is absent from the store, and a right click
    (Place) when the cell to place in is present, both return the store
    they were given and leave the scene as it was, in the handler with
    creatures and in the earlier one without. *)
Theorem handleClick_noop raycaster camera materials isMouseLocked
    selectedBlock (world : gmap string Three.Mesh)
    (cows : list (string * Cow.t)) (rt : Runtime)
    (target : Utils.TargetResult) :
  Ref.run (Game.getTargetBlock raycaster camera world) = Some (Some target) ->
  (world !! Game.key (Position.x (Utils.remove target))
              (Position.y (Utils.remove target))
              (Position.z (Utils.remove target)) = None ->
   (Game.handleClick raycaster camera materials isMouseLocked selectedBlock
      0 world cows rt).1.1 = world
   /\ (Game.handleClick raycaster camera materials isMouseLocked
         selectedBlock 0 world cows rt).2 = rt
   /\ Part000.handleClick raycaster camera materials isMouseLocked
        selectedBlock 0 world rt = (world, rt))
  /\ (is_Some (world !! Game.key (Position.x (Utils.place target))
                          (Position.y (Utils.place target))
                          (Position.z (Utils.place target))) ->
      (Game.handleClick raycaster camera materials isMouseLocked
         selectedBlock 2 world cows rt).1.1 = world
      /\ (Game.handleClick raycaster camera materials isMouseLocked
            selectedBlock 2 world cows rt).2 = rt
      /\ Part000.handleClick raycaster camera materials isMouseLocked
           selectedBlock 2 world rt = (world, rt)).
Proof.
  intros Ht. split; intros Hk.
  - pose proof (editBlock_remove_absent raycaster camera materials
                  selectedBlock world rt target Ht Hk) as He.
    destruct (handleClick_world raycaster camera materials isMouseLocked
                selectedBlock 0 world cows rt He) as [H1 H2].
    refine (conj H1 (conj H2 _)).
    unfold Part000.handleClick. destruct isMouseLocked; simpl; auto.
  - pose proof (editBlock_place_present raycaster camera materials
                  selectedBlock world rt target Ht Hk) as He.
    destruct (handleClick_world raycaster camera materials isMouseLocked
                selectedBlock 2 world cows rt He) as [H1 H2].
    refine (conj H1 (conj H2 _)).
    unfold Part000.handleClick. destruct isMouseLocked; simpl; auto.
Qed.

End Edit.

Section EditViews.

Lemma front_face_cell_free : FrontFace.world !! Game.key 0 0 1 = None.
Proof. apply lookup_singleton_ne. discriminate. Qed.

Lemma corner_cell_taken : is_Some (Corner.world !! Game.key 1 0 1).
Proof. exists Corner.blockB. apply lookup_insert_eq. Qed.

(** The front-face view with the left button: the cell to remove,
    [(0, 0, 1)], is empty.  The corner view with the right button: the
    cell to place in, [(1, 0, 1)], holds the second block. *)
Lemma handleClick_noop_views :
  ((Game.handleClick FrontFace.raycaster FrontFace.camera
      Game.createMaterials true Utils.GRASS 0 FrontFace.world []
      FrontFace.runtime).1.1 = FrontFace.world
   /\ (Game.handleClick FrontFace.raycaster FrontFace.camera
         Game.createMaterials true Utils.GRASS 0 FrontFace.world []
         FrontFace.runtime).2 = FrontFace.runtime
   /\ Part000.handleClick FrontFace.raycaster FrontFace.camera
        Game.createMaterials true Utils.GRASS 0 FrontFace.world
        FrontFace.runtime = (FrontFace.world, FrontFace.runtime))
  /\ ((Game.handleClick Corner.raycaster Corner.camera
         Game.createMaterials true Utils.GRASS 2 Corner.world []
         Corner.runtime).1.1 = Corner.world
      /\ (Game.handleClick Corner.raycaster Corner.camera
            Game.createMaterials true Utils.GRASS 2 Corner.world []
            Corner.runtime).2 = Corner.runtime
      /\ Part000.handleClick Corner.raycaster Corner.camera
           Game.createMaterials true Utils.GRASS 2 Corner.world
           Corner.runtime = (Corner.world, Corner.runtime)).
Proof.
  split.
  - apply (proj1 (handleClick_noop FrontFace.raycaster FrontFace.camera
                    Game.createMaterials true Utils.GRASS FrontFace.world []
                    FrontFace.runtime _ front_face_target)).
    exact front_face_cell_free.
  - apply (proj2 (handleClick_noop Corner.raycaster Corner.camera
                    Game.createMaterials true Utils.GRASS Corner.world []
                    Corner.runtime _ corner_target)).
    exact corner_cell_taken.
Defined.

End EditViews.

(** ** Feeding takes priority over placing *)

Section FeedPriority.
Local Open Scope R_scope.

Lemma find_lookup (p : Cow.t -> bool) (cows : list (string * Cow.t))
    (i : nat) (c : Cow.t) :
  Game.find p cows = Some (i, c) ->
  p c = true /\ exists k, cows !! i = Some (k, c).
Proof.
  revert i. induction cows as [|[k c'] rest IH]; intros i; simpl;
    [discriminate|].
  destruct (p c') eqn:Hp.
  - intros [= <- <-]. split; [exact Hp | exists k; reflexivity].
  - destruct (Game.find p rest) as [[j c'']|]; [|discriminate].
    intros [= <- <-]. destruct (IH j eq_refl) as [H1 [k' H2]].
    split; [exact H1 | exists k'; exact H2].
Qed.

Lemma feedCow_hit (raycaster : Three.Raycaster) (camera : Three.Camera)
    (cows : list (string * Cow.t)) (hit : Three.Intersection)
    (rest : list Three.Intersection) (i : nat) (cow : Cow.t) :
  Three.intersectGroups raycaster (view_ray camera)
    (List.map (fun kc => Cow.mesh kc.2) cows) = hit :: rest ->
  Game.find (Game.isClicked (Game.clickedCowMesh hit)) cows = Some (i, cow) ->
  Game.feedCow raycaster camera 2 cows
  = if Cow.isFed cow then None
    else Some (alter (fun kc => (kc.1, Cow.feed kc.2 (Three.position camera)))
                 i cows).
Proof.
  intros Hh Hf. unfold Game.feedCow. fold (view_ray camera).
  rewrite Hh. simpl. rewrite Hf. destruct (Cow.isFed cow); reflexivity.
Qed.

Lemma handleClick_on_unfed_cow (raycaster : Three.Raycaster)
    (camera : Three.Camera) materials selectedBlock
    (world : gmap string Three.Mesh) (cows : list (string * Cow.t))
    (rt : Runtime) (hit : Three.Intersection)
    (rest : list Three.Intersection) (i : nat) (cow : Cow.t) :
  Three.intersectGroups raycaster (view_ray camera)
    (List.map (fun kc => Cow.mesh kc.2) cows) = hit :: rest ->
  Game.find (Game.isClicked (Game.clickedCowMesh hit)) cows = Some (i, cow) ->
  Cow.isFed cow = false ->
  exists k,
    cows !! i = Some (k, cow)
    /\ Game.handleClick raycaster camera materials true selectedBlock 2
         world cows rt
       = ((world,
           <[i := (k, Cow.feed cow (Three.position camera))]> cows), rt).
Proof.
  intros Hh Hf Hfed.
  pose proof (feedCow_hit raycaster camera cows hit rest i cow Hh Hf) as E.
  destruct (find_lookup _ _ _ _ Hf) as [_ [k Hk]].
  unfold Game.handleClick. simpl negb. cbv iota.
  rewrite Hfed in E. rewrite E.
  exists k. split; [exact Hk|]. unfold JS.ret. f_equal. f_equal.
  apply list_eq. intros j. destruct (decide (i = j)) as [<-|Hne].
  - rewrite list_lookup_alter_eq, Hk.
    rewrite list_lookup_insert_eq by (eapply lookup_lt_Some, Hk).
    reflexivity.
  - rewrite list_lookup_alter_ne, list_lookup_insert_ne by exact Hne.
    reflexivity.
Qed.

Lemma handleClick_on_fed_cow (raycaster : Three.Raycaster)
    (camera : Three.Camera) materials selectedBlock
    (world : gmap string Three.Mesh) (cows : list (string * Cow.t))
    (rt : Runtime) (hit : Three.Intersection)
    (rest : list Three.Intersection) (i : nat) (cow : Cow.t) :
  Three.intersectGroups raycaster (view_ray camera)
    (List.map (fun kc => Cow.mesh kc.2) cows) = hit :: rest ->
  Game.find (Game.isClicked (Game.clickedCowMesh hit)) cows = Some (i, cow) ->
  Cow.isFed cow = true ->
  Game.handleClick raycaster camera materials true selectedBlock 2
    world cows rt
  = (((Game.editBlock raycaster camera materials selectedBlock 2
         world rt).1, cows),
     (Game.editBlock raycaster camera materials selectedBlock 2
        world rt).2).
Proof.
  intros Hh Hf Hfed.
  pose proof (feedCow_hit raycaster camera cows hit rest i cow Hh Hf) as E.
  unfold Game.handleClick. simpl negb. cbv iota.
  rewrite Hfed in E. rewrite E.
  unfold JS.bind, JS.ret. cbv beta iota delta [negb].
  destruct (Game.editBlock _ _ _ _ _ _ _) as [w rt']. reflexivity.
Qed.

Lemma editBlock_place_free raycaster camera materials selectedBlock
    (world : gmap string Three.Mesh) (rt : Runtime)
    (target : Utils.TargetResult) :
  Ref.run (Game.getTargetBlock raycaster camera world) = Some (Some target) ->
  world !! Game.key (Position.x (Utils.place target))
             (Position.y (Utils.place target))
             (Position.z (Utils.place target)) = None ->
  (Game.editBlock raycaster camera materials selectedBlock 2 world rt).1
  = <[Game.key (Position.x (Utils.place target))
        (Position.y (Utils.place target))
        (Position.z (Utils.place target))
      := Three.mkMesh (nextId rt)
           (Vector3.mk (IZR (Position.x (Utils.place target)))
              (IZR (Position.y (Utils.place target)))
              (IZR (Position.z (Utils.place target))))
           (Vector3.mk 0 0 0) (materials selectedBlock) None]> world.
Proof.
  intros Ht Hk. unfold Game.editBlock. rewrite Ht. simpl. rewrite Hk.
  reflexivity.
Qed.

Lemma find_singleton (p : Cow.t -> bool) (k : string) (c : Cow.t) :
  p c = true -> Game.find p [(k, c)] = Some (0%nat, c).
Proof. intros H. simpl. rewrite H. reflexivity. Qed.

(** Feeding changes neither the identity of the group nor of its parts. *)
Lemma isClicked_feed (u : nat) (c : Cow.t) (pos : Vector3.t) :
  Game.isClicked u (Cow.feed c pos) = Game.isClicked u c.
Proof.
  unfold Game.isClicked, Cow.feed, Cow.updateBodyColor. simpl.
  f_equal. induction (Three.children (Cow.mesh c)) as [|ch l IH];
    [reflexivity|].
  simpl. rewrite IH. f_equal.
  destruct (Three.userData_part ch) as [part|]; [|reflexivity].
  destruct (String.eqb part "body"); reflexivity.
Qed.

Lemma pasture_cow :
  Cow.isFed Pasture.cow = false
  /\ Game.isClicked (Game.clickedCowMesh Pasture.bodyHit) Pasture.cow = true.
Proof. split; reflexivity. Qed.

Lemma pasture_find :
  Game.find (Game.isClicked (Game.clickedCowMesh Pasture.bodyHit))
    Pasture.cows = Some (0%nat, Pasture.cow)
  /\ Game.find (Game.isClicked (Game.clickedCowMesh Pasture.bodyHit))
       Pasture.fedCows
     = Some (0%nat, Cow.feed Pasture.cow (Three.position FrontFace.camera)).
Proof.
  split; apply find_singleton; [|rewrite isClicked_feed]; apply pasture_cow.
Qed.

Lemma pasture_hit (cows : list (string * Cow.t)) :
  cows <> [] ->
  Three.intersectGroups Pasture.raycaster (view_ray FrontFace.camera)
    (List.map (fun kc => Cow.mesh kc.2) cows) = [Pasture.bodyHit].
Proof. destruct cows; [congruence | reflexivity]. Qed.

Lemma pasture_target :
  Ref.run (Game.getTargetBlock Pasture.raycaster FrontFace.camera
             FrontFace.world)
  = Some (Some (Utils.mkTarget (Position.mk 0 0 1)%Z (Position.mk 0 0 1)%Z)).
Proof. rewrite getTargetBlock_resolve. exact front_face_target. Qed.

Lemma pasture_editBlock :
  is_Some ((Game.editBlock Pasture.raycaster FrontFace.camera
              Game.createMaterials Utils.GRASS 2 FrontFace.world
              Pasture.runtime).1 !! Game.key 0 0 1).
Proof.
  rewrite (editBlock_place_free _ _ _ _ _ _ _ pasture_target
             front_face_cell_free).
  eexists. apply lookup_insert_eq.
Qed.

(** Against C2 on a creature that is already fed.  In the pasture view
    the ray meets the fed creature first, the cell [(0, 0, 1)] is empty
    before the right click, and it holds a block after it. *)
Lemma right_click_on_fed_cow_places_block :
  Three.intersectGroups Pasture.raycaster (view_ray FrontFace.camera)
    (List.map (fun kc => Cow.mesh kc.2) Pasture.fedCows) = [Pasture.bodyHit]
  /\ Game.find (Game.isClicked (Game.clickedCowMesh Pasture.bodyHit))
       Pasture.fedCows
     = Some (0%nat, Cow.feed Pasture.cow (Three.position FrontFace.camera))
  /\ Cow.isFed (Cow.feed Pasture.cow (Three.position FrontFace.camera)) = true
  /\ FrontFace.world !! Game.key 0 0 1 = None
  /\ is_Some
       ((Game.handleClick Pasture.raycaster FrontFace.camera
           Game.createMaterials true Utils.GRASS 2 FrontFace.world
           Pasture.fedCows Pasture.runtime).1.1 !! Game.key 0 0 1).
Proof.
  assert (Hh := pasture_hit Pasture.fedCows ltac:(discriminate)).
  refine (conj Hh (conj (proj2 pasture_find) (conj eq_refl
            (conj front_face_cell_free _)))).
  rewrite (handleClick_on_fed_cow _ _ _ _ _ _ _ _ _ _ _ Hh
             (proj2 pasture_find) eq_refl).
  exact pasture_editBlock.
Qed.

(** C2, as the code has it.  A right click whose ray meets a creature
    feeds that creature when it is not fed, and then touches neither the
    world store nor the scene; when the creature is already fed the
    creatures stay as they are and the click is handled as a click on the
    blocks. *)
Theorem handleClick_right_click_on_cow (raycaster : Three.Raycaster)
    (camera : Three.Camera) materials selectedBlock
    (world : gmap string Three.Mesh) (cows : list (string * Cow.t))
    (rt : Runtime) (hit : Three.Intersection)
    (rest : list Three.Intersection) (i : nat) (cow : Cow.t) :
  Three.intersectGroups raycaster (view_ray camera)
    (List.map (fun kc => Cow.mesh kc.2) cows) = hit :: rest ->
  Game.find (Game.isClicked (Game.clickedCowMesh hit)) cows = Some (i, cow) ->
  (Cow.isFed cow = false ->
   exists k,
     cows !! i = Some (k, cow)
     /\ Game.handleClick raycaster camera materials true selectedBlock 2
          world cows rt
        = ((world,
            <[i := (k, Cow.feed cow (Three.position camera))]> cows), rt))
  /\ (Cow.isFed cow = true ->
      Game.handleClick raycaster camera materials true selectedBlock 2
        world cows rt
      = (((Game.editBlock raycaster camera materials selectedBlock 2
             world rt).1, cows),
         (Game.editBlock raycaster camera materials selectedBlock 2
            world rt).2)).
Proof.
  intros Hh Hf. split; intros Hfed.
  - exact (handleClick_on_unfed_cow raycaster camera materials selectedBlock
             world cows rt hit rest i cow Hh Hf Hfed).
  - exact (handleClick_on_fed_cow raycaster camera materials selectedBlock
             world cows rt hit rest i cow Hh Hf Hfed).
Qed.

(** In the pasture view: the right click feeds the creature that is not
    fed and returns the store it was given; on the fed creature it is the
    click on the blocks. *)
Lemma handleClick_right_click_in_pasture :
  (exists k,
      Pasture.cows !! 0%nat = Some (k, Pasture.cow)
      /\ Game.handleClick Pasture.raycaster FrontFace.camera
           Game.createMaterials true Utils.GRASS 2 FrontFace.world
           Pasture.cows Pasture.runtime
         = ((FrontFace.world,
             <[0%nat := (k, Cow.feed Pasture.cow
                              (Three.position FrontFace.camera))]>
               Pasture.cows), Pasture.runtime))
  /\ Game.handleClick Pasture.raycaster FrontFace.camera
       Game.createMaterials true Utils.GRASS 2 FrontFace.world
       Pasture.fedCows Pasture.runtime
     = (((Game.editBlock Pasture.raycaster FrontFace.camera
            Game.createMaterials Utils.GRASS 2 FrontFace.world
            Pasture.runtime).1, Pasture.fedCows),
        (Game.editBlock Pasture.raycaster FrontFace.camera
           Game.createMaterials Utils.GRASS 2 FrontFace.world
           Pasture.runtime).2).
Proof.
  split.
  - exact (proj1 (handleClick_right_click_on_cow Pasture.raycaster
                    FrontFace.camera Game.createMaterials Utils.GRASS
                    FrontFace.world Pasture.cows Pasture.runtime
                    Pasture.bodyHit [] 0%nat Pasture.cow
                    (pasture_hit Pasture.cows ltac:(discriminate))
                    (proj1 pasture_find))
             (proj1 pasture_cow)).
  - exact (proj2 (handleClick_right_click_on_cow Pasture.raycaster
                    FrontFace.camera Game.createMaterials Utils.GRASS
                    FrontFace.world Pasture.fedCows Pasture.runtime
                    Pasture.bodyHit [] 0%nat
                    (Cow.feed Pasture.cow (Three.position FrontFace.camera))
                    (pasture_hit Pasture.fedCows ltac:(discriminate))
                    (proj2 pasture_find))
             eq_refl).
Defined.

End FeedPriority.

(** ** The creature stays inside the world *)

Section Bounds.
Local Open Scope R_scope.

(** [update] is its stages in sequence; the last one only poses the
    mesh. *)
Lemma update_stages (c : Cow.t) (delta : R) (worldBounds : Cow.Bounds)
    (rt : Runtime) :
  exists m rt',
    Cow.update c delta worldBounds rt
    = (Cow.set_mesh
         (move (behave (timers c delta) worldBounds rt).1 delta worldBounds) m,
       rt')
    /\ Three.children m
       = Three.children
           (Cow.mesh (behave (timers c delta) worldBounds rt).1).
Proof.
  unfold Cow.update, JS.bind. fold (timers c delta).
  fold (behave (timers c delta) worldBounds).
  destruct (behave (timers c delta) worldBounds rt) as [c2 rt2].
  destruct (Run.Date_now rt2) as [now rt3] eqn:E. unfold JS.ret.
  eexists _, rt3. split; [f_equal|].
  simpl. destruct (JS.gtb _ _); reflexivity.
Qed.

Lemma clamp_bounds (worldBounds : Cow.Bounds) (a : R) :
  Cow.min worldBounds + 2 <= Cow.max worldBounds - 2 ->
  Cow.min worldBounds + 2 <= clamp worldBounds a <= Cow.max worldBounds - 2.
Proof.
  intros H. unfold clamp, JS.Math_max, JS.Math_min.
  split; [apply Rmax_l|].
  apply Rmax_lub; [exact H | apply Rmin_l].
Qed.

(** C4. After [update], whatever the creature, the delta, the draws (so
    whatever heading and speed) and the fed state, the horizontal
    components [x] and [z] of the position lie in
    [[worldMin + 2, worldMax - 2]]. *)
Theorem update_within_bounds (c : Cow.t) (delta : R)
    (worldBounds : Cow.Bounds) (rt : Runtime) :
  Cow.min worldBounds + 2 <= Cow.max worldBounds - 2 ->
  Cow.min worldBounds + 2
  <= Vector3.x (Cow.position (Cow.update c delta worldBounds rt).1)
  <= Cow.max worldBounds - 2
  /\ Cow.min worldBounds + 2
     <= Vector3.z (Cow.position (Cow.update c delta worldBounds rt).1)
     <= Cow.max worldBounds - 2.
Proof.
  intros H.
  destruct (update_stages c delta worldBounds rt) as (m & rt' & -> & _).
  simpl. split; apply clamp_bounds, H.
Qed.

(** The creature of the pasture, one sixtieth of a second later, within
    the bounds [animate] passes. *)
Lemma update_within_bounds_pasture :
  -20 + 2
  <= Vector3.x (Cow.position
                  (Cow.update Pasture.cow (1 / 60) (Cow.mkBounds (-20) 20)
                     Pasture.runtime).1) <= 20 - 2
  /\ -20 + 2
     <= Vector3.z (Cow.position
                     (Cow.update Pasture.cow (1 / 60) (Cow.mkBounds (-20) 20)
                        Pasture.runtime).1) <= 20 - 2.
Proof.
  apply (update_within_bounds Pasture.cow (1 / 60) (Cow.mkBounds (-20) 20)
           Pasture.runtime).
  simpl. lra.
Defined.

End Bounds.

(** ** Feeding and the fed timer *)

Section FeedTimeout.
Local Open Scope R_scope.

Lemma geb_true (a b : R) : b <= a -> JS.geb a b = true.
Proof. apply leb_true. Qed.

Lemma geb_false (a b : R) : a < b -> JS.geb a b = false.
Proof. apply leb_false. Qed.

(** The fields [behave] leaves alone. *)
Lemma behave_frame (c : Cow.t) (worldBounds : Cow.Bounds) (rt : Runtime) :
  let c' := (behave c worldBounds rt).1 in
  Cow.mesh c' = Cow.mesh c /\ Cow.position c' = Cow.position c
  /\ Cow.isFed c' = Cow.isFed c /\ Cow.followTarget c' = Cow.followTarget c
  /\ Cow.fedTimer c' = Cow.fedTimer c /\ Cow.maxFedTime c' = Cow.maxFedTime c.
Proof.
  unfold behave, Cow.follow, Cow.wander, JS.bind, JS.ret, Run.Math_random.
  destruct (Cow.isFed c) eqn:Hf; [destruct (Cow.followTarget c) eqn:Ht|].
  - simpl. destruct (JS.gtb _ _); simpl; rewrite ?Hf, ?Ht; tauto.
  - simpl. destruct (_ || _); simpl; rewrite ?Hf, ?Ht; tauto.
  - simpl. destruct (_ || _); simpl; rewrite ?Hf; tauto.
Qed.

(** What [update] leaves as the first stage made it. *)
Lemma update_frame (c : Cow.t) (delta : R) (worldBounds : Cow.Bounds)
    (rt : Runtime) :
  let c' := (Cow.update c delta worldBounds rt).1 in
  Cow.isFed c' = Cow.isFed (timers c delta)
  /\ Cow.followTarget c' = Cow.followTarget (timers c delta)
  /\ Cow.fedTimer c' = Cow.fedTimer (timers c delta)
  /\ Cow.maxFedTime c' = Cow.maxFedTime (timers c delta)
  /\ bodyMaterials c' = bodyMaterials (timers c delta).
Proof.
  destruct (update_stages c delta worldBounds rt) as (m & rt' & -> & Hm).
  destruct (behave_frame (timers c delta) worldBounds rt)
    as (Bm & _ & Bf & Bt & Bc & Bx).
  cbv zeta. simpl. unfold bodyMaterials. simpl.
  rewrite Hm, Bm. tauto.
Qed.

Lemma bodyMaterials_updateBodyColor (c : Cow.t) (isFed : bool) :
  Forall (fun m => m = if isFed then Cow.happyMaterial else Cow.normalMaterial)
    (bodyMaterials (Cow.updateBodyColor c isFed)).
Proof.
  unfold bodyMaterials, Cow.updateBodyColor. simpl.
  induction (Three.children (Cow.mesh c)) as [|ch l IH]; simpl;
    [constructor|].
  destruct (Three.userData_part ch) as [part|] eqn:Hp.
  - destruct (String.eqb part "body") eqn:Hb; simpl; rewrite ?Hp, ?Hb.
    + simpl. constructor; [reflexivity | exact IH].
    + exact IH.
  - rewrite ?Hp. exact IH.
Qed.

Lemma feed_following (c : Cow.t) (playerPosition : Vector3.t) :
  Cow.maxFedTime c = 10 ->
  Following (Cow.feed c playerPosition) 0
  /\ Cow.followTarget (Cow.feed c playerPosition) = Some playerPosition.
Proof.
  intros Hm. unfold Following.
  refine (conj (conj eq_refl (conj eq_refl (conj _ (conj _ Hm)))) eq_refl).
  - discriminate.
  - apply (bodyMaterials_updateBodyColor _ true).
Qed.

(** The rest of [update] reads the timers but does not change them. *)
Lemma update_with_stages (plus : R -> R -> R) (c : Cow.t) (delta : R)
    (worldBounds : Cow.Bounds) (rt : Runtime) :
  exists m rt',
    Double.update plus c delta worldBounds rt
    = (Cow.set_mesh
         (move (behave (timers_with plus c delta) worldBounds rt).1 delta
            worldBounds) m,
       rt')
    /\ Three.children m
       = Three.children
           (Cow.mesh (behave (timers_with plus c delta) worldBounds rt).1).
Proof.
  unfold Double.update, JS.bind. fold (timers_with plus c delta).
  fold (behave (timers_with plus c delta) worldBounds).
  destruct (behave (timers_with plus c delta) worldBounds rt) as [c2 rt2].
  destruct (Run.Date_now rt2) as [now rt3] eqn:E. unfold JS.ret.
  eexists _, rt3. split; [f_equal|].
  simpl. destruct (JS.gtb _ _); reflexivity.
Qed.

(** With exact sums this is [Cow.update]. *)
Lemma update_exact : Double.update Rplus = Cow.update.
Proof. reflexivity. Qed.

Lemma update_with_frame (plus : R -> R -> R) (c : Cow.t) (delta : R)
    (worldBounds : Cow.Bounds) (rt : Runtime) :
  let c' := (Double.update plus c delta worldBounds rt).1 in
  Cow.isFed c' = Cow.isFed (timers_with plus c delta)
  /\ Cow.followTarget c' = Cow.followTarget (timers_with plus c delta)
  /\ Cow.fedTimer c' = Cow.fedTimer (timers_with plus c delta)
  /\ Cow.maxFedTime c' = Cow.maxFedTime (timers_with plus c delta)
  /\ bodyMaterials c' = bodyMaterials (timers_with plus c delta).
Proof.
  destruct (update_with_stages plus c delta worldBounds rt)
    as (m & rt' & -> & Hm).
  destruct (behave_frame (timers_with plus c delta) worldBounds rt)
    as (Bm & _ & Bf & Bt & Bc & Bx).
  cbv zeta. simpl. unfold bodyMaterials. simpl.
  rewrite Hm, Bm. tauto.
Qed.

Lemma timers_following (plus : R -> R -> R) (c : Cow.t) (t delta : R) :
  Following c t -> plus t delta < 10 ->
  Following (timers_with plus c delta) (plus t delta).
Proof.
  intros (Hf & <- & Hg & Hh & Hm) Hlt. unfold timers_with. simpl.
  rewrite Hf. simpl. rewrite Hm, geb_false by exact Hlt.
  unfold Following, happy, bodyMaterials. simpl. tauto.
Qed.

Lemma timers_revert (plus : R -> R -> R) (c : Cow.t) (t delta : R) :
  Following c t -> 10 <= plus t delta -> Wandering (timers_with plus c delta).
Proof.
  intros (Hf & <- & Hg & Hh & Hm) Hge. unfold timers_with. simpl.
  rewrite Hf. simpl. rewrite Hm, geb_true by exact Hge.
  unfold Wandering.
  refine (conj eq_refl (conj eq_refl (conj eq_refl (conj _ Hm)))).
  apply (bodyMaterials_updateBodyColor _ false).
Qed.

Lemma timers_wandering (plus : R -> R -> R) (c : Cow.t) (delta : R) :
  Wandering c -> Wandering (timers_with plus c delta).
Proof.
  intros (Hf & Ht & Hg & Hh & Hm). unfold timers_with. simpl. rewrite Hf.
  unfold Wandering, plain, bodyMaterials. simpl. tauto.
Qed.

Lemma update_Following (plus : R -> R -> R) (c : Cow.t) (t delta : R)
    worldBounds rt :
  Following (timers_with plus c delta) t ->
  Following (Double.update plus c delta worldBounds rt).1 t.
Proof.
  destruct (update_with_frame plus c delta worldBounds rt)
    as (Ef & Et & Ec & Em & Eb).
  unfold Following, happy. rewrite Ef, Et, Ec, Em, Eb. tauto.
Qed.

Lemma update_Wandering (plus : R -> R -> R) (c : Cow.t) (delta : R)
    worldBounds rt :
  Wandering (timers_with plus c delta) ->
  Wandering (Double.update plus c delta worldBounds rt).1.
Proof.
  destruct (update_with_frame plus c delta worldBounds rt)
    as (Ef & Et & Ec & Em & Eb).
  unfold Wandering, plain. rewrite Ef, Et, Ec, Em, Eb. tauto.
Qed.

(** One frame of a following creature, short of the fed duration. *)
Lemma tick_following (plus : R -> R -> R) camera (c : Cow.t) (t delta : R)
    (rt : Runtime) :
  Following c t -> plus t delta < 10 ->
  Following (Double.tick plus camera delta c rt).1 (plus t delta).
Proof.
  intros H Hlt. unfold Double.tick.
  apply update_Following, timers_following; [|exact Hlt].
  destruct H as (Hf & Ht & Hg & Hh & Hm). rewrite Hf.
  destruct (Cow.followTarget c); [|congruence].
  unfold Following, happy, bodyMaterials. simpl.
  repeat split; auto; discriminate.
Qed.

(** One frame of a following creature that reaches the fed duration. *)
Lemma tick_revert (plus : R -> R -> R) camera (c : Cow.t) (t delta : R)
    (rt : Runtime) :
  Following c t -> 10 <= plus t delta ->
  Wandering (Double.tick plus camera delta c rt).1.
Proof.
  intros H Hge. unfold Double.tick.
  apply update_Wandering, (timers_revert _ _ t); [|exact Hge].
  destruct H as (Hf & Ht & Hg & Hh & Hm). rewrite Hf.
  destruct (Cow.followTarget c); [|congruence].
  unfold Following, happy, bodyMaterials. simpl.
  repeat split; auto; discriminate.
Qed.

Lemma tick_wandering (plus : R -> R -> R) camera (c : Cow.t) (delta : R)
    (rt : Runtime) :
  Wandering c -> Wandering (Double.tick plus camera delta c rt).1.
Proof.
  intros H. unfold Double.tick. apply update_Wandering, timers_wandering.
  destruct H as (Hf & Ht & Hg & Hh & Hm). rewrite Hf.
  unfold Wandering. tauto.
Qed.

Lemma frames_cons (plus : R -> R -> R) camera delta fs (c : Cow.t)
    (rt : Runtime) :
  (frames plus ((camera, delta) :: fs) c rt).1
  = (frames plus fs (Double.tick plus camera delta c rt).1
       (Double.tick plus camera delta c rt).2).1.
Proof.
  simpl. unfold JS.bind. destruct (Double.tick plus camera delta c rt).
  reflexivity.
Qed.

Lemma frames_wandering (plus : R -> R -> R) fs (c : Cow.t) (rt : Runtime) :
  Wandering c -> Wandering (frames plus fs c rt).1.
Proof.
  revert c rt. induction fs as [|[camera delta] fs IH]; intros c rt H;
    [exact H|].
  rewrite frames_cons. apply IH, tick_wandering, H.
Qed.

Lemma accumulated_take_S (plus : R -> R -> R) (t : R) camera delta
    (fs : list (Three.Camera * R)) (k : nat) :
  accumulated plus t (take (S k) ((camera, delta) :: fs))
  = accumulated plus (plus t delta) (take k fs).
Proof. reflexivity. Qed.

(** A following creature keeps following while the fed timer stays
    short of the fed duration. *)
Lemma frames_following (plus : R -> R -> R) fs (c : Cow.t) (t : R)
    (rt : Runtime) :
  Following c t ->
  (forall k : nat, (0 < k <= length fs)%nat ->
                   accumulated plus t (take k fs) < 10) ->
  Following (frames plus fs c rt).1 (accumulated plus t fs).
Proof.
  revert c t rt. induction fs as [|[camera delta] fs IH]; intros c t rt H Hk.
  - exact H.
  - rewrite frames_cons.
    change (accumulated plus t ((camera, delta) :: fs))
      with (accumulated plus (plus t delta) fs).
    apply IH.
    + apply tick_following; [exact H|].
      apply (Hk 1%nat). simpl. lia.
    + intros k Hr. rewrite <- (accumulated_take_S plus t camera).
      apply Hk. simpl. lia.
Qed.

(** It is wandering again from the first frame at which the fed timer
    reaches the fed duration. *)
Lemma frames_revert (plus : R -> R -> R) fs (c : Cow.t) (t : R)
    (rt : Runtime) :
  Following c t ->
  (exists k : nat, (0 < k <= length fs)%nat
                   /\ 10 <= accumulated plus t (take k fs)) ->
  Wandering (frames plus fs c rt).1.
Proof.
  revert c t rt. induction fs as [|[camera delta] fs IH];
    intros c t rt H (k & Hr & Hk); [simpl in Hr; lia|].
  rewrite frames_cons.
  destruct (Rle_dec 10 (plus t delta)) as [Hge|Hlt].
  - apply frames_wandering, (tick_revert _ _ _ t); assumption.
  - apply (IH _ (plus t delta)).
    + apply tick_following; [exact H | lra].
    + destruct k as [|k]; [lia|]. rewrite accumulated_take_S in Hk.
      destruct k as [|k].
      * rewrite take_0 in Hk. unfold accumulated in Hk. simpl in Hk. lra.
      * exists (S k). split; [simpl in Hr; lia | exact Hk].
Qed.

End FeedTimeout.

Section FeedTimeoutScenario.
Local Open Scope R_scope.

(** C5. Feeding puts a creature (with the fed duration of the
    constructor, 10) in Following: fed, fed timer at zero, follow target
    set to the feeder's position, body happy.  Run through the frames of
    [animate], whatever the sums of the runtime round to, it stays in
    Following, its fed timer the simulated time since feeding as the
    runtime has accumulated it, as long as that time is below 10
    seconds; and from the first frame at which that time reaches 10
    seconds it is in Wandering: not fed, follow target cleared, fed
    timer back at zero, body back to the normal material. *)
Theorem feed_then_timeout (plus : R -> R -> R) (c : Cow.t)
    (playerPosition : Vector3.t) (fs : list (Three.Camera * R))
    (rt : Runtime) :
  Cow.maxFedTime c = 10 ->
  (Following (Cow.feed c playerPosition) 0
   /\ Cow.followTarget (Cow.feed c playerPosition) = Some playerPosition)
  /\ ((forall k : nat, (0 < k <= length fs)%nat ->
                       elapsed plus (take k fs) < 10) ->
      Following (frames plus fs (Cow.feed c playerPosition) rt).1
        (elapsed plus fs))
  /\ ((exists k : nat,
          (0 < k <= length fs)%nat /\ 10 <= elapsed plus (take k fs)) ->
      Wandering (frames plus fs (Cow.feed c playerPosition) rt).1).
Proof.
  intros Hm. pose proof (feed_following c playerPosition Hm) as [HF HT].
  refine (conj (conj HF HT) (conj _ _)).
  - intros Hk. apply frames_following; [exact HF | exact Hk].
  - intros Hk. apply (frames_revert plus _ _ 0); [exact HF | exact Hk].
Qed.

(** The creature of the pasture, fed from the camera, through frames of
    five seconds, which doubles add without rounding: still following
    after one, wandering after two. *)
Lemma feed_then_timeout_pasture :
  Following (Cow.feed Pasture.cow (Three.position FrontFace.camera)) 0
  /\ Following
       (frames Rplus [(FrontFace.camera, 5)]
          (Cow.feed Pasture.cow (Three.position FrontFace.camera))
          Pasture.runtime).1
       (elapsed Rplus [(FrontFace.camera, 5)])
  /\ Wandering
       (frames Rplus [(FrontFace.camera, 5); (FrontFace.camera, 5)]
          (Cow.feed Pasture.cow (Three.position FrontFace.camera))
          Pasture.runtime).1.
Proof.
  refine (conj _ (conj _ _)).
  - exact (proj1 (proj1 (feed_then_timeout Rplus Pasture.cow
                            (Three.position FrontFace.camera)
                            [] Pasture.runtime eq_refl))).
  - apply (proj1 (proj2 (feed_then_timeout Rplus Pasture.cow
                           (Three.position FrontFace.camera)
                           [(FrontFace.camera, 5)] Pasture.runtime eq_refl))).
    intros k Hk. assert (k = 1%nat) as -> by (simpl in Hk; lia).
    unfold elapsed, accumulated. simpl. lra.
  - apply (proj2 (proj2 (feed_then_timeout Rplus Pasture.cow
                           (Three.position FrontFace.camera)
                           [(FrontFace.camera, 5); (FrontFace.camera, 5)]
                           Pasture.runtime eq_refl))).
    exists 2%nat. split; [simpl; lia|]. unfold elapsed, accumulated.
    simpl. lra.
Defined.

End FeedTimeoutScenario.

(** ** A wandering creature stays at its height *)

Section Level.
Local Open Scope R_scope.

Variable toString36 : R -> string.

Lemma normalize_level (a b : R) :
  Vector3.y (Vector3.normalize (Vector3.mk a 0 b)) = 0.
Proof.
  unfold Vector3.normalize, Vector3.divideScalar, Vector3.multiplyScalar.
  simpl. ring.
Qed.

Lemma draws_shift (s : JS.stream) (k : nat) : draws s -> draws (shift k s).
Proof. intros H n. apply H. Qed.

(** The fields the constructor sets from its draws. *)
Lemma constructor_fields (x y z : R) (rt : Runtime) :
  let c := (Cow.constructor toString36 x y z rt).1 in
  Cow.position c = Vector3.mk x y z
  /\ Vector3.y (Cow.direction c) = 0
  /\ Cow.wanderTimer c = 0
  /\ Cow.maxWanderTime c = 3 + random rt 4%nat * 4
  /\ Cow.isFed c = false
  /\ Cow.followTarget c = None
  /\ Cow.fedTimer c = 0
  /\ Cow.maxFedTime c = 10.
Proof.
  unfold Cow.constructor, JS.bind, Run.Math_random, JS.Math_random, JS.ret.
  cbn [random dates nextId scene].
  destruct (Cow.createCowMesh _) as [g rt'].
  cbn [fst Cow.position Cow.direction Cow.wanderTimer Cow.maxWanderTime
         Cow.isFed Cow.followTarget Cow.fedTimer Cow.maxFedTime].
  repeat split. apply normalize_level.
Qed.

Lemma constructor_steady (x y z : R) (rt : Runtime) :
  draws (random rt) -> steady (Cow.constructor toString36 x y z rt).1.
Proof.
  intros Hd.
  destruct (constructor_fields x y z rt)
    as (_ & Hy & Hw & Hmw & Hf & _ & _ & Hm).
  unfold steady. rewrite Hm, Hmw, Hw, Hf.
  pose proof (Hd 4%nat).
  refine (conj eq_refl (conj _ (conj _ (conj (fun _ => Hy) _))));
    try lra; discriminate.
Qed.

Lemma feed_steady (c : Cow.t) (playerPosition : Vector3.t) :
  steady c -> steady (Cow.feed c playerPosition).
Proof.
  intros (Hm & Hmw & Hw & Hu & Hf). unfold steady. simpl.
  repeat split; auto; discriminate.
Qed.

Lemma aim_steady (c : Cow.t) (target : Vector3.t) :
  steady c -> steady (Cow.set_followTarget c (Some target)).
Proof.
  intros (Hm & Hmw & Hw & Hu & Hf). unfold steady. simpl.
  repeat split; auto; try discriminate. apply Hf. assumption.
Qed.

(** After the first stage: a creature that has just stopped following
    has a wander timer beyond its wander interval. *)
Lemma timers_steady (c : Cow.t) (delta : R) :
  steady c -> 0 <= delta ->
  let c' := timers c delta in
  Cow.maxFedTime c' = 10
  /\ Cow.maxWanderTime c' <= 7
  /\ 0 <= Cow.wanderTimer c'
  /\ (Cow.isFed c' = false ->
      Vector3.y (Cow.direction c') = 0
      \/ Cow.maxWanderTime c' <= Cow.wanderTimer c')
  /\ (Cow.isFed c' = true ->
      Cow.fedTimer c' <= Cow.wanderTimer c' /\ Cow.followTarget c' <> None).
Proof.
  intros (Hm & Hmw & Hw & Hu & Hf) Hd. unfold timers. simpl.
  destruct (Cow.isFed c) eqn:Fed.
  - destruct (Hf eq_refl) as [Hle Hg]. simpl. rewrite Hm.
    destruct (Rle_dec 10 (Cow.fedTimer c + delta)) as [Hge|Hlt].
    + rewrite geb_true by exact Hge. simpl.
      repeat split; try lra; try discriminate; intros _; right; lra.
    + rewrite geb_false by lra. simpl. rewrite Fed.
      repeat split; try lra; try discriminate; auto.
  - simpl. rewrite Fed.
    repeat split; try lra; try discriminate; auto.
Qed.

(** Wandering keeps the position, and the heading level when it was
    level or when the wander interval has run out. *)
Lemma wander_level (c : Cow.t) (worldBounds : Cow.Bounds) (rt : Runtime) :
  Vector3.y (Cow.direction c) = 0
  \/ Cow.maxWanderTime c <= Cow.wanderTimer c ->
  Vector3.y (Cow.direction (Cow.wander c worldBounds rt).1) = 0.
Proof.
  intros H. unfold Cow.wander, JS.bind, JS.ret, Run.Math_random. simpl.
  destruct (JS.geb (Cow.wanderTimer c) (Cow.maxWanderTime c)) eqn:G.
  - simpl. apply normalize_level.
  - destruct (Cow.isNearWorldBounds _ _); simpl; [apply normalize_level|].
    destruct H as [H|H]; [exact H|].
    rewrite geb_true in G by exact H. discriminate.
Qed.

Lemma wander_steady (c : Cow.t) (worldBounds : Cow.Bounds) (rt : Runtime) :
  draws (random rt) ->
  Cow.isFed c = false ->
  Cow.maxFedTime c = 10 -> Cow.maxWanderTime c <= 7 ->
  0 <= Cow.wanderTimer c ->
  Vector3.y (Cow.direction c) = 0
  \/ Cow.maxWanderTime c <= Cow.wanderTimer c ->
  steady (Cow.wander c worldBounds rt).1.
Proof.
  intros Hd Fed Hm Hmw Hw Hy.
  pose proof (wander_level c worldBounds rt Hy) as L. revert L.
  unfold Cow.wander, JS.bind, JS.ret, Run.Math_random. simpl.
  pose proof (Hd 1%nat).
  destruct (_ || _); simpl; intros L; unfold steady; simpl; rewrite Fed;
    repeat split; try lra; try discriminate; auto.
Qed.

Lemma behave_steady (c : Cow.t) (delta : R) (worldBounds : Cow.Bounds)
    (rt : Runtime) :
  steady c -> 0 <= delta -> draws (random rt) ->
  steady (behave (timers c delta) worldBounds rt).1.
Proof.
  intros Hs Hd Hr.
  destruct (timers_steady c delta Hs Hd) as (Hm & Hmw & Hw & Hu & Hf).
  unfold behave. destruct (Cow.isFed (timers c delta)) eqn:Fed.
  - destruct (Hf eq_refl) as [Hle Hg].
    destruct (Cow.followTarget (timers c delta)) eqn:Ft; [|congruence].
    unfold JS.ret, Cow.follow. simpl.
    destruct (JS.gtb _ _); unfold steady; simpl; rewrite Fed, Ft;
      repeat split; auto; discriminate.
  - apply wander_steady; auto.
Qed.

Lemma update_steady (c : Cow.t) (delta : R) (worldBounds : Cow.Bounds)
    (rt : Runtime) :
  steady c -> 0 <= delta -> draws (random rt) ->
  steady (Cow.update c delta worldBounds rt).1.
Proof.
  intros Hs Hd Hr.
  destruct (update_stages c delta worldBounds rt) as (m & rt' & -> & _).
  exact (behave_steady c delta worldBounds rt Hs Hd Hr).
Qed.

Lemma reachable_steady (c : Cow.t) : reachable toString36 c -> steady c.
Proof.
  induction 1 as [x y z rt Hd | c p _ IH | c p _ IH _ _ | c d wb rt _ IH Hd Hr].
  - apply constructor_steady, Hd.
  - apply feed_steady, IH.
  - apply aim_steady, IH.
  - apply update_steady; assumption.
Qed.

(** A frame of [animate] keeps a creature among the reachable ones. *)
Lemma reachable_tick camera (c : Cow.t) (delta : R) (rt : Runtime) :
  reachable toString36 c -> 0 <= delta -> draws (random rt) ->
  reachable toString36 (Game.tick camera delta c rt).1.
Proof.
  intros Hc Hd Hr. unfold Game.tick. apply reach_update; [|exact Hd|exact Hr].
  destruct (Cow.isFed c) eqn:Fed; [|exact Hc].
  destruct (Cow.followTarget c) eqn:Ft; [|exact Hc].
  apply reach_aim; [exact Hc | exact Fed | congruence].
Qed.

(** An update of a creature that is not fed and has a level heading
    keeps the height. *)
Lemma update_level (c : Cow.t) (delta : R) (worldBounds : Cow.Bounds)
    (rt : Runtime) :
  Cow.isFed c = false -> Vector3.y (Cow.direction c) = 0 ->
  Vector3.y (Cow.position (Cow.update c delta worldBounds rt).1)
  = Vector3.y (Cow.position c).
Proof.
  intros Fed Hy.
  destruct (update_stages c delta worldBounds rt) as (m & rt' & -> & _).
  assert (T : timers c delta
              = Cow.set_wanderTimer c (Cow.wanderTimer c + delta)).
  { unfold timers. simpl. rewrite Fed. reflexivity. }
  destruct (behave_frame (timers c delta) worldBounds rt)
    as (_ & Bp & _).
  assert (L : Vector3.y
                (Cow.direction (behave (timers c delta) worldBounds rt).1) = 0).
  { unfold behave. rewrite T. simpl. rewrite Fed.
    apply wander_level. left. exact Hy. }
  simpl. rewrite Bp, L, T. simpl. ring.
Qed.

End Level.

Section LevelClaim.
Local Open Scope R_scope.

(** C10. While a creature is not fed, [update] does not change its
    height: for every creature the program can reach that is not fed,
    every delta, every bounds and every stream of draws, the [y] of the
    position after [update] is the [y] before. *)
Theorem update_keeps_height (toString36 : R -> string) (c : Cow.t)
    (delta : R) (worldBounds : Cow.Bounds) (rt : Runtime) :
  reachable toString36 c ->
  Cow.isFed c = false ->
  Vector3.y (Cow.position (Cow.update c delta worldBounds rt).1)
  = Vector3.y (Cow.position c).
Proof.
  intros Hc Fed.
  destruct (reachable_steady toString36 c Hc) as (_ & _ & _ & Hu & _).
  apply update_level; [exact Fed | exact (Hu Fed)].
Qed.

Lemma pasture_draws : draws (random FrontFace.runtime).
Proof. intros n. simpl. lra. Qed.

(** The creature of the pasture, as the constructor made it. *)
Lemma update_keeps_height_pasture :
  Vector3.y (Cow.position
               (Cow.update Pasture.cow (1 / 60) (Cow.mkBounds (-20) 20)
                  Pasture.runtime).1)
  = Vector3.y (Cow.position Pasture.cow).
Proof.
  apply (update_keeps_height Pasture.toString36 Pasture.cow (1 / 60)
           (Cow.mkBounds (-20) 20) Pasture.runtime).
  - exact (reach_constructor Pasture.toString36 0 (- (1 / 5)) (5 / 2)
             FrontFace.runtime pasture_draws).
  - reflexivity.
Defined.

End LevelClaim.

(** ** Spawning the creatures *)

Section Spawn.
Local Open Scope R_scope.

Lemma sample_candidate (size : R) (s : JS.stream) :
  Game.sample size s
  = (candidate size (s 0%nat) (s 1%nat), fun n => s (S (S n))).
Proof. reflexivity. Qed.

(** The loop, one pass unfolded. *)
Lemma do_while_step (size : R) (attempts : nat) (s : JS.stream) :
  Game.do_while size attempts s
  = if lt_dec (S attempts) 50
    then Game.do_while size (S attempts) (Game.sample size s).2
    else ((Game.sample size s).1, S attempts, (Game.sample size s).2).
Proof.
  rewrite Game.do_while_equation_1.
  destruct (lt_dec (S attempts) 50); reflexivity.
Qed.

(** Entered after [attempts] passes, the loop makes the [k + 1] passes
    left up to the fiftieth, and returns the sample of the last one. *)
Lemma do_while_spec (size : R) (k attempts : nat) (s : JS.stream) :
  (attempts + k = 49)%nat ->
  (Game.do_while size attempts s).1
  = (candidate size (s (2 * k)%nat) (s (S (2 * k))), 50%nat)
  /\ forall n : nat,
      (Game.do_while size attempts s).2 n = s (2 * S k + n)%nat.
Proof.
  revert attempts s. induction k as [|k IH]; intros attempts s Ha.
  - rewrite do_while_step. destruct (lt_dec (S attempts) 50) as [Hlt|_];
      [lia|].
    rewrite sample_candidate. simpl.
    replace (S attempts) with 50%nat by lia. auto.
  - rewrite do_while_step. destruct (lt_dec (S attempts) 50) as [_|Hge];
      [|lia].
    destruct (IH (S attempts) (Game.sample size s).2 ltac:(lia)) as [E1 E2].
    rewrite E1. split.
    + rewrite sample_candidate. simpl snd.
      replace (2 * S k)%nat with (S (S (2 * k))) by lia. reflexivity.
    + intros n. rewrite E2, sample_candidate. simpl snd.
      f_equal. lia.
Qed.

Lemma candidate_on_ground (size r1 r2 : R) :
  let '(x, y, z) := candidate size r1 r2 in
  on_ground (Vector3.mk x (IZR y) z).
Proof.
  unfold candidate, on_ground, Utils.getTerrainHeight, Utils.noise. simpl.
  f_equal. lia.
Qed.

Lemma spawnPosition_on_ground (s : JS.stream) : on_ground (spawnPosition s).
Proof.
  unfold spawnPosition.
  destruct (do_while_spec 15 49 0 s eq_refl) as [E _].
  rewrite E. apply (candidate_on_ground 15).
Qed.

(** A property of the accumulator that every pass of a loop keeps holds
    of its result. *)
Lemma foldM_invariant {S A B : Type} (I : B -> Prop)
    (body : B -> A -> JS.State S B) (l : list A) :
  (forall b a s, I b -> I (body b a s).1) ->
  forall b s, I b -> I (Run.foldM body l b s).1.
Proof.
  intros Hbody. induction l as [|a l IH]; intros b s Hb; [exact Hb|].
  simpl. unfold JS.bind. specialize (Hbody b a s Hb).
  destruct (body b a s) as [b' s']. apply IH, Hbody.
Qed.

Lemma Map_set_Forall (P : string * Cow.t -> Prop) (key : string)
    (cow : Cow.t) (cows : list (string * Cow.t)) :
  P (key, cow) -> Forall P cows -> Forall P (Game.Map_set key cow cows).
Proof.
  intros Hc. induction 1 as [|[k c] rest Hk Hrest IH]; simpl.
  - constructor; [exact Hc | constructor].
  - destruct (String.eqb k key); constructor; assumption.
Qed.

(** *** The passes of [spawnCows] *)

Lemma spawnCows_passes (toString36 : R -> string) (count : nat) :
  Game.spawnCows toString36 count
  = Run.foldM (spawn toString36) (seq 0 count) [].
Proof. reflexivity. Qed.

(** The search reads its draws one by one: on streams that agree draw
    for draw it returns the same position and leaves streams that
    agree. *)
Lemma do_while_depends (s s' : JS.stream) :
  (forall k : nat, s k = s' k) ->
  (Game.do_while 15 0 s).1 = (Game.do_while 15 0 s').1
  /\ forall n : nat, (Game.do_while 15 0 s).2 n = (Game.do_while 15 0 s').2 n.
Proof.
  intros H.
  destruct (do_while_spec 15 49 0 s eq_refl) as [E1 E2].
  destruct (do_while_spec 15 49 0 s' eq_refl) as [E1' E2'].
  rewrite E1, E1', !H. split; [reflexivity|].
  intros n. rewrite E2, E2'. apply H.
Qed.

(** The constructor reads five draws and the object counter, and
    nothing else of the runtime. *)
Lemma constructor_depends (toString36 : R -> string) (x y z : R)
    (r r' : Runtime) :
  (forall k : nat, random r k = random r' k) -> nextId r = nextId r' ->
  (Cow.constructor toString36 x y z r).1
  = (Cow.constructor toString36 x y z r').1.
Proof.
  intros H Hn.
  assert (E : forall r0 : Runtime,
             (Cow.constructor toString36 x y z r0).1
             = (Cow.constructor toString36 x y z
                  (mkRuntime
                     (fun k => nth k [random r0 0%nat; random r0 1%nat;
                                      random r0 2%nat; random r0 3%nat;
                                      random r0 4%nat] 0)
                     (fun _ => 0) (nextId r0) [])).1)
    by reflexivity.
  etransitivity; [apply E|]. symmetry. etransitivity; [apply E|].
  rewrite !H, Hn. reflexivity.
Qed.

(** What the constructor leaves of the runtime. *)
Lemma constructor_leaves (toString36 : R -> string) (x y z : R)
    (r : Runtime) :
  (forall n : nat,
      random (Cow.constructor toString36 x y z r).2 n = random r (5 + n)%nat)
  /\ nextId (Cow.constructor toString36 x y z r).2 = (14 + nextId r)%nat
  /\ scene (Cow.constructor toString36 x y z r).2 = scene r
  /\ Three.group_uuid (Cow.mesh (Cow.constructor toString36 x y z r).1)
     = nextId r.
Proof. repeat split; reflexivity. Qed.

(** [scene.add] leaves in the scene what was there, and the object. *)
Lemma scene_add_members (g id : nat) (l : list nat) :
  In g (List.filter (fun i => negb (Nat.eqb i id)) l ++ [id])
  <-> g = id \/ In g l.
Proof.
  rewrite List.in_app_iff, List.filter_In. simpl.
  rewrite negb_true_iff, Nat.eqb_neq.
  destruct (Nat.eq_dec g id) as [->|Hne]; intuition.
Qed.

(** One pass, entered with the draws and the counter the passes before
    it have left. *)
Lemma spawn_pass (toString36 : R -> string) (rt : Runtime) (a : nat)
    (cows : list (string * Cow.t)) (s : Runtime) :
  (forall k : nat, random s k = random rt (105 * a + k)%nat) ->
  nextId s = (nextId rt + 14 * a)%nat ->
  (spawn toString36 cows a s).1
  = Game.Map_set (Cow.id (spawned toString36 rt a)) (spawned toString36 rt a)
      cows
  /\ (forall k : nat,
        random (spawn toString36 cows a s).2 k
        = random rt (105 * S a + k)%nat)
  /\ nextId (spawn toString36 cows a s).2 = (nextId rt + 14 * S a)%nat
  /\ (forall g : nat,
        In g (scene (spawn toString36 cows a s).2)
        <-> g = (nextId rt + 14 * a)%nat \/ In g (scene s)).
Proof.
  intros H Hn.
  destruct (do_while_depends (random s) (shift (105 * a) (random rt)) H)
    as [D1 D2].
  destruct (do_while_spec 15 49 0 (random s) eq_refl) as [_ D3].
  unfold spawn, spawned, JS.bind, Run.with_random, Run.scene_add, JS.ret.
  cbv zeta.
  destruct (Game.do_while 15 0 (random s)) as [[[[x y] z] n] s1].
  destruct (Game.do_while 15 0 (shift (105 * a) (random rt)))
    as [[[[x2 y2] z2] n2] s2].
  cbn [fst snd] in *. injection D1 as <- <- <- <-.
  match goal with
  | |- context [Cow.constructor toString36 x (IZR y) z ?r] =>
      pose proof (constructor_depends toString36 x (IZR y) z r
                    (mkRuntime s2 (dates rt) (nextId rt + 14 * a) [])
                    D2 Hn) as Ec;
      destruct (constructor_leaves toString36 x (IZR y) z r)
        as (L1 & L2 & L3 & L4);
      destruct (Cow.constructor toString36 x (IZR y) z r) as [cow r']
  end.
  cbn [fst snd random nextId scene] in *. rewrite <- Ec.
  refine (conj eq_refl (conj _ (conj _ _))).
  - intros k. rewrite L1, D3, H. f_equal. lia.
  - rewrite L2, Hn. lia.
  - intros g. rewrite scene_add_members, L3, L4, Hn. reflexivity.
Qed.

(** The loop over the passes from [a] on. *)
Lemma spawn_loop (toString36 : R -> string) (rt : Runtime) (n : nat) :
  forall (a : nat) (cows : list (string * Cow.t)) (s : Runtime),
    (forall k : nat, random s k = random rt (105 * a + k)%nat) ->
    nextId s = (nextId rt + 14 * a)%nat ->
    (Run.foldM (spawn toString36) (seq a n) cows s).1
    = herd toString36 rt (seq a n) cows
    /\ (forall k : nat,
          random (Run.foldM (spawn toString36) (seq a n) cows s).2 k
          = random rt (105 * (a + n) + k)%nat)
    /\ nextId (Run.foldM (spawn toString36) (seq a n) cows s).2
       = (nextId rt + 14 * (a + n))%nat
    /\ (forall g : nat,
          In g (scene (Run.foldM (spawn toString36) (seq a n) cows s).2)
          <-> In g (scene s)
              \/ exists i : nat,
                   (a <= i < a + n)%nat /\ g = (nextId rt + 14 * i)%nat).
Proof.
  induction n as [|n IH]; intros a cows s H Hn.
  - simpl. rewrite Nat.add_0_r. repeat split; auto.
    intros [Hg|(i & Hi & _)]; [exact Hg | lia].
  - cbn [seq Run.foldM]. unfold JS.bind.
    destruct (spawn_pass toString36 rt a cows s H Hn)
      as (E & H' & Hn' & Hs').
    destruct (spawn toString36 cows a s) as [cows' s'].
    cbn [fst snd] in *. subst cows'.
    match goal with
    | |- context [Run.foldM _ (seq (S a) n) ?acc s'] =>
        destruct (IH (S a) acc s' H' Hn') as (E1 & E2 & E3 & E4)
    end.
    rewrite E1. refine (conj eq_refl (conj _ (conj _ _))).
    + intros k. rewrite E2. f_equal. lia.
    + rewrite E3. lia.
    + intros g. rewrite E4, Hs'. split.
      * intros [[->|Hg]|(i & Hi & ->)].
        -- right. exists a. split; [lia | reflexivity].
        -- left. exact Hg.
        -- right. exists i. split; [lia | reflexivity].
      * intros [Hg|(i & Hi & ->)]; [left; right; exact Hg|].
        destruct (Nat.eq_dec i a) as [->|Hne]; [left; left; reflexivity|].
        right. exists i. split; [lia | reflexivity].
Qed.

Lemma In_Map_set (key : string) (cow : Cow.t) (cows : list (string * Cow.t)) :
  In (key, cow) (Game.Map_set key cow cows).
Proof.
  induction cows as [|[k c] rest IH]; simpl; [left; reflexivity|].
  destruct (String.eqb k key); [left; reflexivity | right; exact IH].
Qed.

Lemma Map_set_keeps_keys (a key : string) (cow : Cow.t)
    (cows : list (string * Cow.t)) :
  In a (List.map fst cows) -> In a (List.map fst (Game.Map_set key cow cows)).
Proof.
  induction cows as [|[k c] rest IH]; simpl; [intros []|].
  destruct (String.eqb_spec k key) as [->|_]; simpl.
  - intros [<-|H]; [left; reflexivity | right; exact H].
  - intros [<-|H]; [left; reflexivity | right; exact (IH H)].
Qed.

(** Every creature of the herd is the creature of one of the passes,
    under the id of that creature. *)
Lemma herd_members (toString36 : R -> string) (rt : Runtime)
    (all passes : list nat) :
  incl passes all ->
  forall cows : list (string * Cow.t),
    Forall (fun kc : string * Cow.t =>
              exists i : nat,
                In i all
                /\ kc = (Cow.id (spawned toString36 rt i),
                         spawned toString36 rt i)) cows ->
    Forall (fun kc : string * Cow.t =>
              exists i : nat,
                In i all
                /\ kc = (Cow.id (spawned toString36 rt i),
                         spawned toString36 rt i))
      (herd toString36 rt passes cows).
Proof.
  unfold herd. induction passes as [|i passes IH]; intros Hin cows Hc;
    [exact Hc|].
  cbn [fold_left]. apply IH.
  - intros j Hj. apply Hin. right. exact Hj.
  - apply Map_set_Forall; [|exact Hc].
    exists i. split; [apply Hin; left; reflexivity | reflexivity].
Qed.

(** The id of the creature of every pass is a key of the herd. *)
Lemma herd_keys (toString36 : R -> string) (rt : Runtime)
    (passes : list nat) :
  forall (cows : list (string * Cow.t)) (a : string),
    In a (List.map fst cows)
    \/ In a (List.map (fun i => Cow.id (spawned toString36 rt i)) passes) ->
    In a (List.map fst (herd toString36 rt passes cows)).
Proof.
  unfold herd. induction passes as [|i passes IH]; intros cows a H.
  - destruct H as [H|[]]. exact H.
  - cbn [fold_left]. apply IH. cbn [List.map] in H.
    destruct H as [H|[<-|H]].
    + left. apply Map_set_keeps_keys, H.
    + left. generalize (spawned toString36 rt i) as c. intros c.
      apply List.in_map_iff. exists (Cow.id c, c).
      split; [reflexivity | apply In_Map_set].
    + right. exact H.
Qed.

(** The creature of the last pass is in the herd. *)
Lemma herd_last (toString36 : R -> string) (rt : Runtime)
    (passes : list nat) (i : nat) (cows : list (string * Cow.t)) :
  In (Cow.id (spawned toString36 rt i), spawned toString36 rt i)
    (herd toString36 rt (passes ++ [i]) cows).
Proof.
  unfold herd. rewrite fold_left_app. cbn [fold_left]. apply In_Map_set.
Qed.

Lemma spawned_position (toString36 : R -> string) (rt : Runtime) (i : nat) :
  Cow.position (spawned toString36 rt i)
  = spawnPosition (shift (105 * i) (random rt)).
Proof.
  unfold spawned, spawnPosition. cbv zeta.
  destruct (Game.do_while 15 0 (shift (105 * i) (random rt)))
    as [[[[x y] z] n] s'].
  cbn [fst snd].
  exact (proj1 (constructor_fields toString36 x (IZR y) z _)).
Qed.

(** The group of the creature of pass [i] is the object the counter
    stands at when the pass begins. *)
Lemma spawned_group (toString36 : R -> string) (rt : Runtime) (i : nat) :
  Three.group_uuid (Cow.mesh (spawned toString36 rt i))
  = (nextId rt + 14 * i)%nat.
Proof.
  unfold spawned. cbv zeta.
  destruct (Game.do_while 15 0 (shift (105 * i) (random rt)))
    as [[[[x y] z] n] s'].
  cbn [fst snd].
  exact (proj2 (proj2 (proj2 (constructor_leaves toString36 x (IZR y) z _)))).
Qed.


End Spawn.

(** ** The creatures of the program are reachable *)

Section Program.
Local Open Scope R_scope.

Variable toString36 : R -> string.

(** The body of a creature: one part, white from the constructor, happy
    once fed. *)
Lemma constructor_body (x y z : R) (rt : Runtime) :
  bodyMaterials (Cow.constructor toString36 x y z rt).1 = [Cow.whiteMaterial]
  /\ forall p : Vector3.t,
      bodyMaterials (Cow.feed (Cow.constructor toString36 x y z rt).1 p)
      = [Cow.happyMaterial].
Proof. split; reflexivity. Qed.

(** The group takes the next identity and its thirteen parts the ones
    after it. *)
Lemma constructor_ids (x y z : R) (rt : Runtime) :
  Three.group_uuid (Cow.mesh (Cow.constructor toString36 x y z rt).1)
  = nextId rt
  /\ List.map Three.mesh_uuid
       (Three.children (Cow.mesh (Cow.constructor toString36 x y z rt).1))
     = seq (S (nextId rt)) 13.
Proof. split; reflexivity. Qed.

Lemma suffix_draws (s s' : JS.stream) :
  suffix_of s s' -> draws s -> draws s'.
Proof. intros [k Hk] Hd n. rewrite Hk. apply Hd. Qed.

Lemma constructor_random (x y z : R) (rt : Runtime) :
  suffix_of (random rt) (random (Cow.constructor toString36 x y z rt).2).
Proof. exists 5%nat. reflexivity. Qed.

Lemma wander_random (c : Cow.t) (worldBounds : Cow.Bounds) (rt : Runtime) :
  suffix_of (random rt) (random (Cow.wander c worldBounds rt).2).
Proof.
  unfold Cow.wander, JS.bind, JS.ret, Run.Math_random. simpl.
  destruct (_ || _); [exists 4%nat | exists 1%nat]; reflexivity.
Qed.

Lemma update_random (c : Cow.t) (delta : R) (worldBounds : Cow.Bounds)
    (rt : Runtime) :
  suffix_of (random rt) (random (Cow.update c delta worldBounds rt).2).
Proof.
  unfold Cow.update, JS.bind. fold (timers c delta).
  destruct (Cow.isFed (timers c delta));
    [destruct (Cow.followTarget (timers c delta))|].
  - exists 0%nat. reflexivity.
  - destruct (wander_random (timers c delta) worldBounds rt) as [k Hk].
    destruct (Cow.wander _ _ rt) as [c2 rt2]. exists k. exact Hk.
  - destruct (wander_random (timers c delta) worldBounds rt) as [k Hk].
    destruct (Cow.wander _ _ rt) as [c2 rt2]. exists k. exact Hk.
Qed.

Lemma tick_random camera (c : Cow.t) (delta : R) (rt : Runtime) :
  suffix_of (random rt) (random (Game.tick camera delta c rt).2).
Proof. unfold Game.tick. apply update_random. Qed.

(** A loop invariant over the accumulator and the state together. *)
Lemma foldM_invariant_state {S A B : Type} (I : B -> S -> Prop)
    (body : B -> A -> JS.State S B) (l : list A) :
  (forall b a s, I b s -> I (body b a s).1 (body b a s).2) ->
  forall b s, I b s -> I (Run.foldM body l b s).1 (Run.foldM body l b s).2.
Proof.
  intros Hbody. induction l as [|a l IH]; intros b s Hb; [exact Hb|].
  simpl. unfold JS.bind. specialize (Hbody b a s Hb).
  destruct (body b a s) as [b' s']. apply IH, Hbody.
Qed.

(** Every creature [spawnCows] returns is reachable. *)
Lemma spawnCows_reachable (count : nat) (rt : Runtime) :
  draws (random rt) ->
  Forall (fun kc : string * Cow.t => reachable toString36 kc.2)
    (Game.spawnCows toString36 count rt).1.
Proof.
  intros Hd. unfold Game.spawnCows.
  apply (foldM_invariant_state
           (fun cows s =>
              Forall (fun kc : string * Cow.t => reachable toString36 kc.2) cows
              /\ draws (random s))); [|split; [constructor | exact Hd]].
  clear rt Hd. intros cows i s [Hcows Hd].
  unfold JS.bind, Run.with_random, Run.scene_add, JS.ret.
  destruct (do_while_spec 15 49 0 (random s) eq_refl) as [_ E].
  destruct (Game.do_while 15 0 (random s)) as [[[[x y] z] n] s'].
  cbn [fst snd] in *.
  match goal with
  | |- context [Cow.constructor toString36 x (IZR y) z ?r] =>
      assert (Hr : draws (random r))
        by (apply (suffix_draws (random s)); [exists 100%nat; exact E | exact Hd]);
      pose proof (reach_constructor toString36 x (IZR y) z r Hr) as Hc;
      pose proof (suffix_draws _ _ (constructor_random x (IZR y) z r) Hr) as Hd';
      destruct (Cow.constructor toString36 x (IZR y) z r) as [cow r']
  end.
  cbn [fst snd] in *. split; [|exact Hd'].
  apply Map_set_Forall; [exact Hc | exact Hcows].
Qed.

(** The creature half of a frame keeps them reachable. *)
Lemma updateCows_reachable camera (delta : R) (cows : list (string * Cow.t))
    (rt : Runtime) :
  0 <= delta -> draws (random rt) ->
  Forall (fun kc : string * Cow.t => reachable toString36 kc.2) cows ->
  Forall (fun kc : string * Cow.t => reachable toString36 kc.2)
    (Game.updateCows camera delta cows rt).1.
Proof.
  intros Hdelta Hd Hcows. unfold Game.updateCows.
  assert (G : forall (done : list (string * Cow.t)) (s : Runtime),
             Forall (fun kc : string * Cow.t => reachable toString36 kc.2) done ->
             draws (random s) ->
             Forall (fun kc : string * Cow.t => reachable toString36 kc.2)
               (Run.foldM (fun done kc =>
                             cow <- Game.tick camera delta kc.2 ;;
                             JS.ret (done ++ [(kc.1, cow)])) cows done s).1).
  { induction Hcows as [|[k c] rest Hc _ IH]; intros done s Hdone Hs;
      [exact Hdone|].
    simpl. unfold JS.bind at 1 2. unfold JS.ret at 1.
    pose proof (reachable_tick toString36 camera c delta s Hc Hdelta Hs) as Ht.
    pose proof (suffix_draws _ _ (tick_random camera c delta s) Hs) as Hs'.
    cbn [snd fst] in *.
    destruct (Game.tick camera delta c s) as [c2 s2].
    apply IH; [|exact Hs'].
    apply Forall_app. split; [exact Hdone | constructor; [exact Ht|constructor]]. }
  apply G; [constructor | exact Hd].
Qed.

End Program.

(** * Further properties *)

(** ** The helpers of utils.ts *)

Section HelperProperties.
Local Open Scope R_scope.

(** X1. With [min <= max], [clamp] returns a value between them, leaves a
    value already between them as it is, and clamping twice is clamping
    once. *)
Theorem clamp_range (value min max : R) :
  min <= max ->
  min <= Helpers.clamp value min max <= max
  /\ (min <= value <= max -> Helpers.clamp value min max = value)
  /\ Helpers.clamp (Helpers.clamp value min max) min max
     = Helpers.clamp value min max.
Proof.
  unfold Helpers.clamp, JS.Math_max, JS.Math_min, Rmax, Rmin.
  intros H; repeat (destruct (Rle_dec _ _)); repeat split; intros; lra.
Qed.

(** A value beyond the upper bound of the creatures' range. *)
Lemma clamp_range_creature_bounds :
  -18 <= Helpers.clamp 25 (-18) 18 <= 18
  /\ (-18 <= 25 <= 18 -> Helpers.clamp 25 (-18) 18 = 25)
  /\ Helpers.clamp (Helpers.clamp 25 (-18) 18) (-18) 18
     = Helpers.clamp 25 (-18) 18.
Proof. apply (clamp_range 25 (-18) 18). lra. Defined.

Lemma floor_div_bounds (x size : R) :
  0 < size ->
  size * IZR (JS.Math_floor (x / size)) <= x
  < size * (IZR (JS.Math_floor (x / size)) + 1).
Proof.
  intros Hs. unfold JS.Math_floor.
  pose proof (Zfloor_bound (x / size)) as [Hl Hu].
  assert (E : x = size * (x / size)) by (field; lra).
  split.
  - rewrite E at 2. apply Rmult_le_compat_l; lra.
  - rewrite E at 1. apply Rmult_lt_compat_l; lra.
Qed.



Lemma noise_bound (x z : R) : -3 <= Utils.noise x z <= 3.
Proof.
  unfold Utils.noise.
  pose proof (SIN_bound (x * (1 / 10))) as [S1 S2].
  pose proof (COS_bound (z * (1 / 10))) as [C1 C2].
  split; nra.
Qed.

Lemma floor_between (a : R) (lo hi : Z) :
  IZR lo <= a <= IZR hi -> (lo <= JS.Math_floor a <= hi)%Z.
Proof.
  intros [Hl Hu]. unfold JS.Math_floor. split.
  - apply Zfloor_lub, Hl.
  - apply le_IZR. pose proof (Zfloor_bound a). lra.
Qed.

(** X3. The terrain height of every column, at integer or other
    coordinates, lies between 2 and 8. *)
Theorem getTerrainHeight_range (x z : R) :
  (2 <= Utils.getTerrainHeight x z <= 8)%Z.
Proof.
  unfold Utils.getTerrainHeight.
  pose proof (floor_between (Utils.noise x z) (-3) 3 (noise_bound x z)).
  lia.
Qed.

End HelperProperties.

(** ** Adjacency and distance of cells *)

Section AdjacencyOfCells.
Local Open Scope R_scope.

Lemma leb_iff (a b : R) : JS.leb a b = true <-> a <= b.
Proof. unfold JS.leb. destruct (Rle_dec a b); split; intros; try lra; congruence. Qed.

Lemma ltb_iff (a b : R) : JS.ltb a b = true <-> a < b.
Proof. unfold JS.ltb. destruct (Rlt_dec a b); split; intros; try lra; congruence. Qed.

Lemma arePositionsAdjacent_iff (p q : Position.t R) :
  Helpers.arePositionsAdjacent p q = true
  <-> Rabs (Position.x p - Position.x q) <= 1
      /\ Rabs (Position.y p - Position.y q) <= 1
      /\ Rabs (Position.z p - Position.z q) <= 1
      /\ 0 < Rabs (Position.x p - Position.x q)
             + Rabs (Position.y p - Position.y q)
             + Rabs (Position.z p - Position.z q).
Proof.
  unfold Helpers.arePositionsAdjacent, JS.gtb.
  rewrite !andb_true_iff, !leb_iff, ltb_iff. tauto.
Qed.

Lemma distance_cells (c d : Position.t Z) :
  Helpers.distanceBetweenPositions (cell c) (cell d)
  = sqrt (IZR ((Position.x c - Position.x d) * (Position.x c - Position.x d)
               + (Position.y c - Position.y d) * (Position.y c - Position.y d)
               + (Position.z c - Position.z d) * (Position.z c - Position.z d))).
Proof.
  unfold Helpers.distanceBetweenPositions, cell. simpl.
  rewrite !plus_IZR, !mult_IZR, !minus_IZR. reflexivity.
Qed.

Lemma adjacent_cells (c d : Position.t Z) :
  Helpers.arePositionsAdjacent (cell c) (cell d) = true
  <-> (Z.abs (Position.x c - Position.x d) <= 1
       /\ Z.abs (Position.y c - Position.y d) <= 1
       /\ Z.abs (Position.z c - Position.z d) <= 1
       /\ 0 < Z.abs (Position.x c - Position.x d)
              + Z.abs (Position.y c - Position.y d)
              + Z.abs (Position.z c - Position.z d))%Z.
Proof.
  rewrite arePositionsAdjacent_iff. unfold cell. simpl.
  rewrite <- !minus_IZR, <- !abs_IZR, <- !plus_IZR.
  split; intros (H1 & H2 & H3 & H4).
  - repeat split; try (apply le_IZR; assumption). apply lt_IZR. assumption.
  - repeat split; try (apply IZR_le; assumption). apply IZR_lt. assumption.
Qed.

(** X4. On block coordinates, [arePositionsAdjacent] holds exactly when
    [distanceBetweenPositions] is positive and at most the square root of
    three; it is symmetric, and no cell is adjacent to itself. *)
Theorem adjacent_iff_distance (c d : Position.t Z) :
  (Helpers.arePositionsAdjacent (cell c) (cell d) = true
   <-> 0 < Helpers.distanceBetweenPositions (cell c) (cell d) <= sqrt 3)
  /\ Helpers.arePositionsAdjacent (cell c) (cell d)
     = Helpers.arePositionsAdjacent (cell d) (cell c)
  /\ Helpers.arePositionsAdjacent (cell c) (cell c) = false.
Proof.
  refine (conj _ (conj _ _)).
  - rewrite adjacent_cells, distance_cells.
    set (dx := (Position.x c - Position.x d)%Z).
    set (dy := (Position.y c - Position.y d)%Z).
    set (dz := (Position.z c - Position.z d)%Z).
    assert (Hn : (0 <= dx * dx + dy * dy + dz * dz)%Z) by nia.
    split.
    + intros (H1 & H2 & H3 & H4).
      assert (Hs : (0 < dx * dx + dy * dy + dz * dz <= 3)%Z) by nia.
      split.
      * apply sqrt_lt_R0, IZR_lt. lia.
      * apply sqrt_le_1_alt, IZR_le. lia.
    + intros [Hp Hle].
      assert (Hs : (0 < dx * dx + dy * dy + dz * dz <= 3)%Z).
      { split.
        - destruct (Z.eq_dec (dx * dx + dy * dy + dz * dz)%Z 0%Z) as [E|E];
            [|lia]. rewrite E, sqrt_0 in Hp. lra.
        - apply le_IZR. apply sqrt_le_0 in Hle; [exact Hle | | lra].
          apply IZR_le, Hn. }
      nia.
  - destruct (Helpers.arePositionsAdjacent (cell c) (cell d)) eqn:A;
      destruct (Helpers.arePositionsAdjacent (cell d) (cell c)) eqn:B;
      try reflexivity.
    + apply adjacent_cells in A. apply not_true_iff_false in B.
      exfalso. apply B. apply adjacent_cells. lia.
    + apply adjacent_cells in B. apply not_true_iff_false in A.
      exfalso. apply A. apply adjacent_cells. lia.
  - apply not_true_iff_false. intros A. apply adjacent_cells in A. lia.
Qed.

Lemma step_canonical (n : Vector3.t) :
  canonical_normal n ->
  (Z.abs (step (Vector3.x n)) + Z.abs (step (Vector3.y n))
   + Z.abs (step (Vector3.z n)) = 1)%Z.
Proof.
  unfold canonical_normal. simpl.
  intros H; repeat destruct H as [<-|H]; try destruct H;
    unfold step, JS.ltb; simpl;
    repeat (destruct (Rlt_dec _ _)); try lra; reflexivity.
Qed.

(** X5. For a hit inside a face of the unit cube at [c], with any of the
    six outward normals, the resolver's "place" cell is the neighbour of
    [c] across that face: at distance one from [c], and adjacent to it in
    the sense of [arePositionsAdjacent]. *)
Theorem place_cell_is_adjacent raycaster camera
    (world : gmap string Three.Mesh) (i : Three.Intersection)
    (rest : list Three.Intersection) (c : Position.t Z) (n : Vector3.t) :
  Three.intersectObjects raycaster (view_ray camera) (map_to_list world).*2
  = i :: rest ->
  Three.face i = Some (Three.mkFace n) ->
  canonical_normal n ->
  axis_aligned (Three.matrixWorld (Three.object i)) ->
  on_face c n (Three.point i) ->
  exists t : Utils.TargetResult,
    Ref.run (Game.getTargetBlock raycaster camera world) = Some (Some t)
    /\ Utils.place t = neighbour c n
    /\ Helpers.arePositionsAdjacent (cell c) (cell (Utils.place t)) = true
    /\ Helpers.distanceBetweenPositions (cell c) (cell (Utils.place t)) = 1.
Proof.
  intros Hi Hf Hn Hm Hp.
  eexists. rewrite getTargetBlock_resolve, Hi.
  rewrite (resolve_on_face i c n Hf Hn Hm Hp).
  refine (conj eq_refl (conj eq_refl _)). simpl Utils.place.
  pose proof (step_canonical n Hn) as Hs.
  split.
  - apply adjacent_cells. unfold neighbour. simpl. lia.
  - rewrite distance_cells. unfold neighbour. simpl.
    match goal with |- sqrt (IZR ?e) = 1 => replace e with 1%Z by nia end.
    apply sqrt_1.
Qed.

(** The front-face view: the place cell [(0, 0, 1)] next to the block at
    the origin. *)
Lemma place_cell_is_adjacent_front_face :
  exists t : Utils.TargetResult,
    Ref.run (Game.getTargetBlock FrontFace.raycaster FrontFace.camera
               FrontFace.world) = Some (Some t)
    /\ Utils.place t = neighbour (Position.mk 0 0 0)%Z (Vector3.mk 0 0 1)
    /\ Helpers.arePositionsAdjacent (cell (Position.mk 0 0 0)%Z)
         (cell (Utils.place t)) = true
    /\ Helpers.distanceBetweenPositions (cell (Position.mk 0 0 0)%Z)
         (cell (Utils.place t)) = 1.
Proof.
  exact (place_cell_is_adjacent FrontFace.raycaster FrontFace.camera
           FrontFace.world FrontFace.hit [] (Position.mk 0 0 0)%Z
           (Vector3.mk 0 0 1) front_face_hit eq_refl
           (proj1 front_face_geometry) (proj1 (proj2 front_face_geometry))
           (proj2 (proj2 front_face_geometry))).
Defined.

End AdjacencyOfCells.

(** ** Trees *)

Section Trees.
Local Open Scope R_scope.

(** A loop invariant that only has to survive the elements of the
    list. *)
Lemma foldM_invariant_in {S A B : Type} (I : B -> Prop)
    (body : B -> A -> JS.State S B) (l : list A) :
  (forall b a s, a ∈ l -> I b -> I (body b a s).1) ->
  forall b s, I b -> I (Run.foldM body l b s).1.
Proof.
  induction l as [|a l IH]; intros Hbody b s Hb; [exact Hb|].
  simpl. unfold JS.bind.
  pose proof (Hbody b a s ltac:(left) Hb) as Hb'.
  destruct (body b a s) as [b' s']. apply IH; [|exact Hb'].
  intros b0 a0 s0 Hin. apply Hbody. right. exact Hin.
Qed.

(** A tree is four to six blocks tall. *)
Lemma treeHeight_range (r : R) :
  0 <= r < 1 -> (4 <= 4 + JS.Math_floor (r * 3) <= 6)%Z.
Proof.
  intros Hr.
  pose proof (floor_between (r * 3) 0 2) as H.
  assert (IZR 0 <= r * 3 <= IZR 2 \/ 2 < r * 3 < 3) as [Hc|Hc] by lra.
  - specialize (H Hc). lia.
  - assert (JS.Math_floor (r * 3) = 2%Z) by (apply Zfloor_eq; lra). lia.
Qed.

(** X6. Every block [getTreeBlocks] returns for the column [(x, z)] of
    height [h] is either wood on that column, between [h + 1] and
    [h + 6], or leaves within the diamond [|dx| + |dz| <= 2] around it,
    between [h + 4] and [h + 8]; the list starts with the trunk, four to
    six wood blocks stacked from [h + 1] up. *)
Theorem getTreeBlocks_shape (x z h : Z) (s : JS.stream) :
  draws s ->
  exists (treeHeight : Z) (leaves : list Helpers.BlockData),
    (4 <= treeHeight <= 6)%Z
    /\ (Helpers.getTreeBlocks x z h s).1
       = List.map (fun y => Helpers.mkBlockData (Position.mk x y z) Utils.WOOD)
           (seqZ (h + 1) treeHeight) ++ leaves
    /\ Forall (fun b => Helpers.type b = Utils.LEAVES) leaves
    /\ Forall (tree_block x z h) (Helpers.getTreeBlocks x z h s).1.
Proof.
  intros Hd. unfold Helpers.getTreeBlocks, JS.bind at 1, JS.Math_random at 1.
  pose proof (treeHeight_range (s 0%nat) (Hd 0%nat)) as Ht.
  set (treeHeight := (4 + JS.Math_floor (s 0%nat * 3))%Z) in *.
  set (trunk := List.map _ (seqZ (h + 1) treeHeight)).
  exists treeHeight.
  assert (Htrunk : Forall (tree_block x z h) trunk).
  { apply List.Forall_forall. intros b Hb.
    apply List.in_map_iff in Hb. destruct Hb as (y & <- & Hy).
    apply list_elem_of_In, elem_of_seqZ in Hy.
    left. simpl. repeat split; lia. }
  assert (G : exists leaves,
             (Run.foldM
                (fun blocks dx =>
                   Run.foldM
                     (fun blocks dz =>
                        Run.foldM
                          (fun blocks dy =>
                             if (JS.Math_abs dx + JS.Math_abs dz <=? 2)%Z
                             then
                               r' <- JS.Math_random ;;
                               if JS.ltb r' (8 / 10)
                               then JS.ret
                                      (blocks ++
                                       [Helpers.mkBlockData
                                          (Position.mk (x + dx)
                                             (h + treeHeight + dy) (z + dz))%Z
                                          Utils.LEAVES])
                               else JS.ret blocks
                             else JS.ret blocks)
                          (seqZ 0 3) blocks)
                     (seqZ (-2) 5) blocks)
                (seqZ (-2) 5) trunk (fun n => s (S n))).1 = trunk ++ leaves
             /\ Forall (fun b => Helpers.type b = Utils.LEAVES) leaves
             /\ Forall (tree_block x z h) (trunk ++ leaves)).
  { set (I := fun blocks : list Helpers.BlockData =>
               exists leaves,
                 blocks = trunk ++ leaves
                 /\ Forall (fun b => Helpers.type b = Utils.LEAVES) leaves
                 /\ Forall (tree_block x z h) (trunk ++ leaves)).
    apply (foldM_invariant_in I);
      [|exists []; rewrite app_nil_r; auto].
    intros b dx s1 _. apply (foldM_invariant_in I).
    intros b1 dz s2 _. apply (foldM_invariant_in I).
    subst I. cbv beta.
    intros b2 dy s3 Hdy (leaves & -> & Hl & Hall).
    apply elem_of_seqZ in Hdy.
    destruct (JS.Math_abs dx + JS.Math_abs dz <=? 2)%Z eqn:D;
      [|exists leaves; auto].
    apply Z.leb_le in D. unfold JS.Math_abs in D.
    unfold JS.bind, JS.Math_random, JS.ret.
    destruct (JS.ltb _ _); [|exists leaves; auto].
    simpl. exists (leaves ++ [Helpers.mkBlockData
                                (Position.mk (x + dx) (h + treeHeight + dy)
                                   (z + dz))%Z Utils.LEAVES]).
    rewrite !app_assoc. split; [reflexivity|]. split.
    - apply Forall_app. split; [exact Hl | constructor; [reflexivity|constructor]].
    - apply Forall_app. split; [exact Hall|]. constructor; [|constructor].
      right. simpl. repeat split; lia. }
  destruct G as (leaves & E & Hl & Hall).
  exists leaves.
  split; [exact Ht|]. split; [exact E|]. split; [exact Hl|].
  match goal with
  | |- Forall _ ?l => replace l with (trunk ++ leaves) by (symmetry; exact E)
  end.
  exact Hall.
Qed.

(** With every draw at one half: a trunk of five and all the leaves. *)
Lemma getTreeBlocks_shape_half :
  exists (treeHeight : Z) (leaves : list Helpers.BlockData),
    (4 <= treeHeight <= 6)%Z
    /\ (Helpers.getTreeBlocks 0 0 5 (fun _ => 1 / 2)).1
       = List.map (fun y => Helpers.mkBlockData (Position.mk 0 y 0)%Z Utils.WOOD)
           (seqZ (5 + 1) treeHeight) ++ leaves
    /\ Forall (fun b => Helpers.type b = Utils.LEAVES) leaves
    /\ Forall (tree_block 0 0 5) (Helpers.getTreeBlocks 0 0 5 (fun _ => 1 / 2)).1.
Proof.
  apply (getTreeBlocks_shape 0 0 5 (fun _ => 1 / 2)).
  intros n. lra.
Defined.

End Trees.

(** ** Generating the world *)

Section Generation.
Local Open Scope R_scope.

Lemma key_getBlockKey (x y z : Z) : Game.key x y z = Utils.getBlockKey x y z.
Proof. reflexivity. Qed.

Lemma key_inj (x y z x' y' z' : Z) :
  Game.key x y z = Game.key x' y' z' -> x = x' /\ y = y' /\ z = z'.
Proof.
  rewrite !key_getBlockKey. intros H.
  pose proof (parse_getBlockKey x y z) as P.
  rewrite H, parse_getBlockKey in P. injection P as -> -> ->. auto.
Qed.

Lemma columnHeight_getTerrainHeight (x z : Z) :
  columnHeight x z = Utils.getTerrainHeight (IZR x) (IZR z).
Proof. reflexivity. Qed.

Lemma columnHeight_range (x z : Z) : (2 <= columnHeight x z <= 8)%Z.
Proof.
  rewrite columnHeight_getTerrainHeight.
  unfold Utils.getTerrainHeight.
  pose proof (floor_between _ (-3) 3 (noise_bound (IZR x) (IZR z))). lia.
Qed.

Lemma In_scene_add (id u : nat) (l : list nat) :
  In id (List.filter (fun i => negb (Nat.eqb i u)) l ++ [u])
  <-> id = u \/ (In id l /\ id <> u).
Proof.
  rewrite List.in_app_iff, List.filter_In. simpl.
  rewrite negb_true_iff, Nat.eqb_neq. intuition.
Qed.

Lemma In_scene_remove (id u : nat) (l : list nat) :
  In id (List.filter (fun i => negb (Nat.eqb i u)) l) <-> In id l /\ id <> u.
Proof.
  rewrite List.filter_In, negb_true_iff, Nat.eqb_neq. tauto.
Qed.

(** What [addBlock] returns. *)
Lemma addBlock_result materials b (x y z : Z)
    (world : gmap string Three.Mesh) (rt : Runtime) :
  Game.addBlock materials b x y z world rt
  = (<[Game.key x y z
       := Three.mkMesh (nextId rt) (Vector3.mk (IZR x) (IZR y) (IZR z))
            (Vector3.mk 0 0 0) (materials b) None]> world,
     mkRuntime (random rt) (dates rt) (S (nextId rt))
       (List.filter (fun i => negb (Nat.eqb i (nextId rt))) (scene rt)
        ++ [nextId rt])).
Proof. reflexivity. Qed.

Lemma insert_coherent (rt : Runtime) (world : gmap string Three.Mesh)
    (x y z : Z) (material : Three.Material) :
  coherent rt world ->
  coherent
    (mkRuntime (random rt) (dates rt) (S (nextId rt))
       (List.filter (fun i => negb (Nat.eqb i (nextId rt))) (scene rt)
        ++ [nextId rt]))
    (<[Game.key x y z
       := Three.mkMesh (nextId rt) (Vector3.mk (IZR x) (IZR y) (IZR z))
            (Vector3.mk 0 0 0) material None]> world).
Proof.
  intros (Hn & Hk & Hs & Hu). unfold coherent, numbered. simpl.
  assert (Hold : forall k m, world !! k = Some m ->
                             (Three.mesh_uuid m < nextId rt)%nat)
    by (intros k m Hm; apply Hn, (Hs k m Hm)).
  refine (conj _ (conj _ (conj _ _))).
  - intros id Hid. apply In_scene_add in Hid.
    destruct Hid as [->|[Hid _]]; [lia|]. apply Hn in Hid. lia.
  - intros k m Hm. apply lookup_insert_Some in Hm.
    destruct Hm as [[<- <-]|[_ Hm]]; [|exact (Hk k m Hm)].
    exists x, y, z. auto.
  - intros k m Hm. apply In_scene_add. apply lookup_insert_Some in Hm.
    destruct Hm as [[<- <-]|[_ Hm]]; [left; reflexivity|].
    right. split; [exact (Hs k m Hm)|]. specialize (Hold k m Hm). lia.
  - intros k1 k2 m1 m2 H1 H2 E.
    apply lookup_insert_Some in H1. apply lookup_insert_Some in H2.
    destruct H1 as [[<- <-]|[N1 H1]], H2 as [[<- <-]|[N2 H2]].
    + reflexivity.
    + specialize (Hold k2 m2 H2). simpl in E. lia.
    + specialize (Hold k1 m1 H1). simpl in E. lia.
    + exact (Hu k1 k2 m1 m2 H1 H2 E).
Qed.

Lemma addBlock_coherent materials b (x y z : Z)
    (world : gmap string Three.Mesh) (rt : Runtime) :
  coherent rt world ->
  coherent (Game.addBlock materials b x y z world rt).2
    (Game.addBlock materials b x y z world rt).1.
Proof. intros H. rewrite addBlock_result. apply insert_coherent, H. Qed.

Lemma addBlock_extent materials b (x y z : Z)
    (world : gmap string Three.Mesh) (rt : Runtime) :
  in_extent x y z -> within_extent world ->
  within_extent (Game.addBlock materials b x y z world rt).1.
Proof.
  intros He Hw. rewrite addBlock_result. simpl. intros k m Hm.
  apply lookup_insert_Some in Hm.
  destruct Hm as [[<- <-]|[_ Hm]]; [|exact (Hw k m Hm)].
  exists x, y, z. auto.
Qed.

Lemma addBlock_random materials b (x y z : Z)
    (world : gmap string Three.Mesh) (rt : Runtime) :
  random (Game.addBlock materials b x y z world rt).2 = random rt.
Proof. reflexivity. Qed.

(** A loop invariant over the accumulator and the state that only has
    to survive the elements of the list. *)
Lemma foldM_invariant_state_in {S A B : Type} (I : B -> S -> Prop)
    (body : B -> A -> JS.State S B) (l : list A) :
  (forall b a s, a ∈ l -> I b s -> I (body b a s).1 (body b a s).2) ->
  forall b s, I b s -> I (Run.foldM body l b s).1 (Run.foldM body l b s).2.
Proof.
  induction l as [|a l IH]; intros Hbody b s Hb; [exact Hb|].
  simpl. unfold JS.bind.
  pose proof (Hbody b a s ltac:(left) Hb) as Hb'.
  destruct (body b a s) as [b' s']. apply IH; [|exact Hb'].
  intros b0 a0 s0 Hin. apply Hbody. right. exact Hin.
Qed.

(** What generation keeps from step to step. *)
Lemma coherent_random (rt : Runtime) (world : gmap string Three.Mesh)
    (s d : JS.stream) :
  coherent rt world ->
  coherent (mkRuntime s d (nextId rt) (scene rt)) world.
Proof. unfold coherent, numbered. simpl. tauto. Qed.

Lemma draws_tail (s : JS.stream) : draws s -> draws (fun n => s (S n)).
Proof. intros H n. apply H. Qed.

Lemma addBlock_kept materials b (x y z : Z)
    (world : gmap string Three.Mesh) (rt : Runtime) :
  in_extent x y z ->
  coherent rt world /\ within_extent world /\ draws (random rt) ->
  coherent (Game.addBlock materials b x y z world rt).2
    (Game.addBlock materials b x y z world rt).1
  /\ within_extent (Game.addBlock materials b x y z world rt).1
  /\ draws (random (Game.addBlock materials b x y z world rt).2).
Proof.
  intros He (Hc & Hw & Hd).
  refine (conj (addBlock_coherent _ _ _ _ _ _ _ Hc)
            (conj (addBlock_extent _ _ _ _ _ _ _ He Hw) _)).
  rewrite addBlock_random. exact Hd.
Qed.

Lemma generateWorld_kept materials (rt : Runtime) :
  coherent rt ∅ /\ within_extent ∅ /\ draws (random rt) ->
  coherent (Game.generateWorld materials rt).2 (Game.generateWorld materials rt).1
  /\ within_extent (Game.generateWorld materials rt).1
  /\ draws (random (Game.generateWorld materials rt).2).
Proof.
  set (J := fun (w : gmap string Three.Mesh) (s : Runtime) =>
              coherent s w /\ within_extent w /\ draws (random s)).
  set (P := fun p : gmap string Three.Mesh * Runtime => J p.1 p.2).
  assert (Hdraw : forall w s, J w s ->
            J w (mkRuntime (fun n => random s (S n)) (dates s) (nextId s)
                   (scene s))).
  { intros w s (Hc & Hw & Hd).
    exact (conj (coherent_random _ _ _ _ Hc) (conj Hw (draws_tail _ Hd))). }
  assert (Hadd : forall b x y z w s,
            in_extent x y z -> J w s ->
            P (Game.addBlock materials b x y z w s)).
  { intros b x y z w s He HJ. exact (addBlock_kept _ _ _ _ _ _ _ He HJ). }
  unfold Game.generateWorld.
  apply (foldM_invariant_state_in J). intros w x s Hx.
  apply (foldM_invariant_state_in J). clear w s. intros w z s Hz HJ.
  apply elem_of_seqZ in Hx. apply elem_of_seqZ in Hz.
  fold (columnHeight x z). pose proof (columnHeight_range x z) as Hh.
  set (height := columnHeight x z) in *.
  match goal with |- J (?m).1 _ => change (P m) end.
  unfold JS.bind at 1.
  match goal with
  | |- context [Run.foldM ?body ?l w s] =>
      pose proof (foldM_invariant_state_in J body l) as G;
      specialize (fun H => G H w s HJ);
      destruct (Run.foldM body l w s) as [w1 s1]
  end.
  cbn [fst snd] in G.
  assert (HJ1 : J w1 s1).
  { apply G. intros b y s0 Hy Hb. apply elem_of_seqZ in Hy.
    apply (Hadd _ _ _ _ _ _); [|exact Hb]. unfold in_extent. lia. }
  clear G HJ.
  unfold JS.bind at 1, Run.Math_random at 1, JS.Math_random at 1.
  cbv beta iota.
  pose proof (Hdraw _ _ HJ1) as HJ1'.
  destruct (JS.ltb _ _ && (height >? 3)%Z); [|exact HJ1'].
  unfold JS.bind at 1, Run.Math_random at 1, JS.Math_random at 1.
  cbv beta iota. cbn [random dates nextId scene].
  pose proof (treeHeight_range (random s1 1%nat)
                (proj2 (proj2 HJ1) 1%nat)) as Ht.
  set (treeHeight := (4 + JS.Math_floor (random s1 1%nat * 3))%Z) in *.
  pose proof (Hdraw _ _ HJ1') as HJ2. cbn [random dates nextId scene] in HJ2.
  unfold JS.bind at 1.
  match goal with
  | |- context [Run.foldM ?body ?l w1 ?s2] =>
      pose proof (foldM_invariant_state_in J body l) as G;
      specialize (fun H => G H w1 s2 HJ2);
      destruct (Run.foldM body l w1 s2) as [w3 s3]
  end.
  cbn [fst snd] in G.
  assert (HJ3 : J w3 s3).
  { apply G. intros b y s0 Hy Hb. apply elem_of_seqZ in Hy.
    apply (Hadd _ _ _ _ _ _); [|exact Hb]. unfold in_extent. lia. }
  clear G. revert HJ3. generalize w3 s3.
  apply (foldM_invariant_state_in J). intros w4 dx s4 Hdx.
  apply (foldM_invariant_state_in J). clear w4 s4. intros w4 dz s4 Hdz.
  apply (foldM_invariant_state_in J). clear w4 s4. intros w4 dy s4 Hdy HJ4.
  apply elem_of_seqZ in Hdx. apply elem_of_seqZ in Hdz.
  apply elem_of_seqZ in Hdy.
  match goal with |- J (?m).1 _ => change (P m) end.
  destruct (JS.Math_abs dx + JS.Math_abs dz <=? 2)%Z; [|exact HJ4].
  unfold JS.bind at 1, Run.Math_random at 1, JS.Math_random at 1.
  cbv beta iota.
  pose proof (Hdraw _ _ HJ4) as HJ5.
  cbn [random].
  destruct (JS.ltb (random s4 0%nat) (8 / 10)); [|exact HJ5].
  apply Hadd; [|exact HJ5]. unfold in_extent. lia.
Qed.

(** X7. Started with a scene whose objects are all numbered and with
    draws in [0, 1), [generateWorld] returns a store that agrees with the
    scene: every block is stored under the key of the cell its mesh
    stands at, its mesh is in the scene, no two blocks share a mesh, and
    every block lies in the columns [-22 .. 22] between heights 0 and
    16. *)
Theorem generateWorld_coherent materials (rt : Runtime) :
  numbered rt -> draws (random rt) ->
  coherent (Game.generateWorld materials rt).2 (Game.generateWorld materials rt).1
  /\ within_extent (Game.generateWorld materials rt).1.
Proof.
  intros Hn Hd.
  destruct (generateWorld_kept materials rt) as (Hc & Hw & _); [|auto].
  refine (conj (conj Hn _) (conj _ Hd)).
  - repeat split; intros *; rewrite lookup_empty; discriminate.
  - intros k m. rewrite lookup_empty. discriminate.
Qed.

End Generation.

Section GenerationFills.
Local Open Scope R_scope.

Lemma blank_ready : numbered blank /\ draws (random blank).
Proof.
  split.
  - intros id [].
  - intros n. simpl. lra.
Qed.

(** Generation from the blank runtime. *)
Lemma generateWorld_coherent_blank :
  coherent (Game.generateWorld Game.createMaterials blank).2
    (Game.generateWorld Game.createMaterials blank).1
  /\ within_extent (Game.generateWorld Game.createMaterials blank).1.
Proof.
  exact (generateWorld_coherent Game.createMaterials blank
           (proj1 blank_ready) (proj2 blank_ready)).
Defined.

(** What a loop establishes for each element and no later pass undoes
    holds, for every element, of its result. *)
Lemma foldM_covers {S A B : Type} (Q : A -> B -> Prop)
    (body : B -> A -> JS.State S B) (l : list A) :
  (forall a b s, a ∈ l -> Q a (body b a s).1) ->
  (forall a a' b s, Q a b -> Q a (body b a' s).1) ->
  forall a, a ∈ l -> forall b s, Q a (Run.foldM body l b s).1.
Proof.
  intros Hest Hkeep. induction l as [|a0 l IH]; intros a Ha b s.
  - inversion Ha.
  - simpl. unfold JS.bind.
    pose proof (Hest a0 b s ltac:(left)) as H0.
    destruct (body b a0 s) as [b' s']. cbn [fst] in H0.
    apply elem_of_cons in Ha. destruct Ha as [->|Ha].
    + apply (foldM_invariant (Q a0)); [|exact H0].
      intros b1 a1 s1. apply Hkeep.
    + apply IH; [|exact Ha].
      intros a1 b1 s1 H1. apply Hest. right. exact H1.
Qed.

(** [addBlock] makes its cell occupied and keeps every occupied cell
    occupied. *)
Lemma addBlock_occupies materials b (x y z : Z)
    (world : gmap string Three.Mesh) (rt : Runtime) :
  is_Some ((Game.addBlock materials b x y z world rt).1 !! Game.key x y z)
  /\ forall k, is_Some (world !! k) ->
               is_Some ((Game.addBlock materials b x y z world rt).1 !! k).
Proof.
  rewrite addBlock_result. cbn [fst]. split.
  - rewrite lookup_insert_eq. eauto.
  - intros k Hk. rewrite lookup_insert_is_Some. 
    destruct (decide (Game.key x y z = k)); auto.
Qed.

Lemma addBlock_keeps materials b (x y z : Z) (k : string)
    (world : gmap string Three.Mesh) (rt : Runtime) :
  is_Some (world !! k) ->
  is_Some ((Game.addBlock materials b x y z world rt).1 !! k).
Proof. apply (proj2 (addBlock_occupies materials b x y z world rt)). Qed.

Lemma generateWorld_columns materials :
  Game.generateWorld materials
  = Run.foldM (fun world x =>
                 Run.foldM (column materials x) (seqZ (-20) 41) world)
      (seqZ (-20) 41) ∅.
Proof. reflexivity. Qed.

(** The terrain loop of a column occupies each of its cells. *)
Lemma terrain_occupies materials (x z height y : Z)
    (world : gmap string Three.Mesh) (rt : Runtime) :
  (0 <= y <= height)%Z ->
  is_Some
    ((Run.foldM (fun world y =>
                   Game.addBlock materials (Game.blockType y height) x y z world)
        (seqZ 0 (height + 1)) world rt).1 !! Game.key x y z).
Proof.
  intros Hy.
  apply (foldM_covers
           (fun y (w : gmap string Three.Mesh) =>
              is_Some (w !! Game.key x y z))).
  - intros a b s _.
    exact (proj1 (addBlock_occupies materials _ x a z b s)).
  - intros a a' b s Hb. apply addBlock_keeps, Hb.
  - apply elem_of_seqZ. lia.
Qed.

(** A column keeps what its terrain loop leaves occupied. *)
Lemma column_after_terrain materials (x z : Z) (k : string)
    (world : gmap string Three.Mesh) (rt : Runtime) :
  is_Some
    ((Run.foldM (fun world y =>
                   Game.addBlock materials
                     (Game.blockType y (columnHeight x z)) x y z world)
        (seqZ 0 (columnHeight x z + 1)) world rt).1 !! k) ->
  is_Some ((column materials x world z rt).1 !! k).
Proof.
  set (I := fun w : gmap string Three.Mesh => is_Some (w !! k)).
  unfold column. cbv zeta. fold (columnHeight x z).
  set (height := columnHeight x z).
  unfold JS.bind at 1.
  destruct (Run.foldM _ (seqZ 0 (height + 1)) world rt) as [w1 s1].
  cbn [fst]. intros H1.
  unfold JS.bind at 1, Run.Math_random at 1, JS.Math_random at 1.
  cbv beta iota.
  destruct (JS.ltb _ _ && (height >? 3)%Z); [|exact H1].
  unfold JS.bind at 1, Run.Math_random at 1, JS.Math_random at 1.
  cbv beta iota. unfold JS.bind at 1.
  match goal with
  | |- context [Run.foldM ?body ?l w1 ?s2] =>
      pose proof (foldM_invariant I body l) as G;
      specialize (fun H => G H w1 s2 H1);
      destruct (Run.foldM body l w1 s2) as [w3 s3]
  end.
  cbn [fst] in G.
  assert (H3 : I w3).
  { apply G. intros b y s0 Hb. apply addBlock_keeps, Hb. }
  clear G. revert H3. generalize s3. generalize w3.
  intros w4 s4. apply (foldM_invariant I). clear w4 s4. intros w4 dx s4.
  apply (foldM_invariant I). clear w4 s4. intros w4 dz s4.
  apply (foldM_invariant I). clear w4 s4. intros w4 dy s4 H4.
  destruct (JS.Math_abs dx + JS.Math_abs dz <=? 2)%Z; [|exact H4].
  unfold JS.bind at 1, Run.Math_random at 1, JS.Math_random at 1.
  cbv beta iota.
  destruct (JS.ltb _ _); [|exact H4].
  apply addBlock_keeps, H4.
Qed.

(** No step of a column empties a cell. *)
Lemma column_keeps materials (x z : Z) (k : string)
    (world : gmap string Three.Mesh) (rt : Runtime) :
  is_Some (world !! k) -> is_Some ((column materials x world z rt).1 !! k).
Proof.
  intros Hk. apply column_after_terrain.
  apply (foldM_invariant (fun w : gmap string Three.Mesh => is_Some (w !! k)));
    [|exact Hk].
  intros b y s0 Hb. apply addBlock_keeps, Hb.
Qed.

(** A column occupies each cell of its terrain. *)
Lemma column_occupies materials (x z y : Z)
    (world : gmap string Three.Mesh) (rt : Runtime) :
  (0 <= y <= columnHeight x z)%Z ->
  is_Some ((column materials x world z rt).1 !! Game.key x y z).
Proof. intros Hy. apply column_after_terrain, terrain_occupies, Hy. Qed.

(** X8. After [generateWorld], whatever the draws, every cell of the
    terrain is occupied: for each column [(x, z)] of the square
    [-20 .. 20] and each [y] from 0 to the height of the column, the
    store holds a block under the key of [(x, y, z)]. *)
Theorem generateWorld_fills_terrain materials (rt : Runtime) (x y z : Z) :
  (-20 <= x <= 20)%Z -> (-20 <= z <= 20)%Z ->
  (0 <= y <= columnHeight x z)%Z ->
  is_Some ((Game.generateWorld materials rt).1 !! Game.key x y z).
Proof.
  intros Hx Hz Hy. rewrite generateWorld_columns.
  revert z y Hz Hy.
  apply (foldM_covers
           (fun x (w : gmap string Three.Mesh) =>
              forall z y, (-20 <= z <= 20)%Z -> (0 <= y <= columnHeight x z)%Z ->
                          is_Some (w !! Game.key x y z)));
    [| |apply elem_of_seqZ; lia].
  - clear x Hx rt. intros x w s _ z y Hz Hy. revert y Hy.
    apply (foldM_covers
             (fun z (w : gmap string Three.Mesh) =>
                forall y, (0 <= y <= columnHeight x z)%Z ->
                          is_Some (w !! Game.key x y z)));
      [| |apply elem_of_seqZ; lia].
    + clear z Hz w s. intros z w s _ y Hy.
      apply column_occupies, Hy.
    + clear z Hz w s. intros z z' w s Hw y Hy.
      apply column_keeps, Hw, Hy.
  - clear x Hx rt. intros x x' w s Hw z y Hz Hy.
    apply (foldM_invariant
             (fun w : gmap string Three.Mesh => is_Some (w !! Game.key x y z)));
      [|exact (Hw z y Hz Hy)].
    intros w1 z1 s1 H1. apply column_keeps, H1.
Qed.

(** The grass block on top of the column at the centre of the world. *)
Lemma generateWorld_fills_terrain_centre :
  is_Some ((Game.generateWorld Game.createMaterials blank).1
             !! Game.key 0 (columnHeight 0 0) 0).
Proof.
  apply (generateWorld_fills_terrain Game.createMaterials blank 0
           (columnHeight 0 0) 0); try lia.
  pose proof (columnHeight_range 0 0). lia.
Defined.

End GenerationFills.

(** ** Clicks and the store *)

Section Clicks.
Local Open Scope R_scope.

(** The three things the block half of the handler can do. *)
Lemma editBlock_cases raycaster camera materials selectedBlock (button : Z)
    (world : gmap string Three.Mesh) (rt : Runtime) :
  Game.editBlock raycaster camera materials selectedBlock button world rt
  = (world, rt)
  \/ (button = 0%Z
      /\ exists k m,
          world !! k = Some m
          /\ Game.editBlock raycaster camera materials selectedBlock button
               world rt
             = (delete k world,
                mkRuntime (random rt) (dates rt) (nextId rt)
                  (List.filter
                     (fun i => negb (Nat.eqb i (Three.mesh_uuid m)))
                     (scene rt))))
  \/ (button = 2%Z
      /\ exists x y z : Z,
          world !! Game.key x y z = None
          /\ Game.editBlock raycaster camera materials selectedBlock button
               world rt
             = (<[Game.key x y z
                  := Three.mkMesh (nextId rt)
                       (Vector3.mk (IZR x) (IZR y) (IZR z))
                       (Vector3.mk 0 0 0) (materials selectedBlock) None]>
                  world,
                mkRuntime (random rt) (dates rt) (S (nextId rt))
                  (List.filter (fun i => negb (Nat.eqb i (nextId rt)))
                     (scene rt) ++ [nextId rt]))).
Proof.
  unfold Game.editBlock.
  destruct (Ref.run _) as [[target|]|]; [|left; reflexivity..].
  destruct (Z.eqb_spec button 0) as [->|N0].
  - destruct (world !! _) as [mesh|] eqn:Hk; [|left; reflexivity].
    right. left. split; [reflexivity|]. eexists _, mesh.
    split; [exact Hk | reflexivity].
  - destruct (Z.eqb_spec button 2) as [->|N2]; [|left; reflexivity].
    destruct (world !! _) as [mesh|] eqn:Hk; [left; reflexivity|].
    right. right. split; [reflexivity|]. eexists _, _, _.
    split; [exact Hk | reflexivity].
Qed.

Lemma delete_coherent (rt : Runtime) (world : gmap string Three.Mesh)
    (k : string) (m : Three.Mesh) :
  coherent rt world -> world !! k = Some m ->
  coherent
    (mkRuntime (random rt) (dates rt) (nextId rt)
       (List.filter (fun i => negb (Nat.eqb i (Three.mesh_uuid m)))
          (scene rt)))
    (delete k world).
Proof.
  intros (Hn & Hk & Hs & Hu) Hm. unfold coherent, numbered. simpl.
  refine (conj _ (conj _ (conj _ _))).
  - intros id Hid. apply In_scene_remove in Hid. apply Hn, Hid.
  - intros k' m' H'. apply lookup_delete_Some in H'. apply (Hk k' m'), H'.
  - intros k' m' H'. apply lookup_delete_Some in H'. destruct H' as [Hne H'].
    apply In_scene_remove. split; [exact (Hs k' m' H')|].
    intros E. apply Hne. symmetry. exact (Hu k' k m' m H' Hm E).
  - intros k1 k2 m1 m2 H1 H2.
    apply lookup_delete_Some in H1. apply lookup_delete_Some in H2.
    apply (Hu k1 k2 m1 m2); [apply H1 | apply H2].
Qed.

Lemma editBlock_coherent raycaster camera materials selectedBlock
    (button : Z) (world : gmap string Three.Mesh) (rt : Runtime) :
  coherent rt world ->
  coherent
    (Game.editBlock raycaster camera materials selectedBlock button world rt).2
    (Game.editBlock raycaster camera materials selectedBlock button world rt).1.
Proof.
  intros Hc.
  destruct (editBlock_cases raycaster camera materials selectedBlock button
              world rt)
    as [->|[(_ & k & m & Hm & ->)|(_ & x & y & z & _ & ->)]]; cbn [fst snd].
  - exact Hc.
  - apply delete_coherent; assumption.
  - apply insert_coherent, Hc.
Qed.

(** What the creature half of the handler does when it feeds. *)
Lemma feedCow_Some (raycaster : Three.Raycaster) (camera : Three.Camera)
    (button : Z) (cows cows' : list (string * Cow.t)) :
  Game.feedCow raycaster camera button cows = Some cows' ->
  button = 2%Z
  /\ exists (i : nat) (k : string) (cow : Cow.t),
      cows !! i = Some (k, cow)
      /\ Cow.isFed cow = false
      /\ cows' = <[i := (k, Cow.feed cow (Three.position camera))]> cows.
Proof.
  unfold Game.feedCow.
  destruct (Three.intersectGroups _ _ _) as [|hit rest]; [discriminate|].
  destruct (Z.eqb_spec button 2) as [->|]; [|discriminate].
  destruct (Game.find _ cows) as [[i cow]|] eqn:Hf; [|discriminate].
  destruct (Cow.isFed cow) eqn:Fed; [discriminate|].
  intros [= <-]. split; [reflexivity|].
  destruct (find_lookup _ _ _ _ Hf) as [_ [k Hk]].
  exists i, k, cow. refine (conj Hk (conj Fed _)).
  apply list_eq. intros j. destruct (decide (i = j)) as [<-|Hne].
  - rewrite list_lookup_alter_eq, Hk.
    rewrite list_lookup_insert_eq by (eapply lookup_lt_Some, Hk).
    reflexivity.
  - rewrite list_lookup_alter_ne, list_lookup_insert_ne by exact Hne.
    reflexivity.
Qed.

(** X9. A click keeps the store and the scene in agreement: if every
    block is stored under the key of the cell its mesh stands at, has its
    mesh in the scene and shares it with no other block before the click,
    the same holds after it, whatever the button, the camera and the
    intersections found. *)
Theorem handleClick_coherent raycaster camera materials isMouseLocked
    selectedBlock (button : Z) (world : gmap string Three.Mesh)
    (cows : list (string * Cow.t)) (rt : Runtime) :
  coherent rt world ->
  coherent
    (Game.handleClick raycaster camera materials isMouseLocked selectedBlock
       button world cows rt).2
    (Game.handleClick raycaster camera materials isMouseLocked selectedBlock
       button world cows rt).1.1.
Proof.
  intros Hc. unfold Game.handleClick.
  destruct isMouseLocked; [|exact Hc]. cbv beta iota delta [negb].
  destruct (Game.feedCow _ _ _ _); [exact Hc|].
  pose proof (editBlock_coherent raycaster camera materials selectedBlock
                button world rt Hc) as He.
  unfold JS.bind, JS.ret.
  destruct (Game.editBlock _ _ _ _ _ _ _) as [w' rt']. exact He.
Qed.

(** X10. A click changes at most one cell of the store.  It leaves store
    and scene as they were; or, with the left button, it deletes one
    occupied cell and takes that block's mesh out of the scene; or, with
    the right button, it fills one cell that was empty with a new mesh of
    the selected material standing at that cell.  In the last two cases
    the creatures are untouched. *)
Theorem handleClick_edits_one_cell raycaster camera materials isMouseLocked
    selectedBlock (button : Z) (world : gmap string Three.Mesh)
    (cows : list (string * Cow.t)) (rt : Runtime) :
  let result :=
    Game.handleClick raycaster camera materials isMouseLocked selectedBlock
      button world cows rt in
  (result.1.1 = world /\ result.2 = rt)
  \/ (button = 0%Z /\ result.1.2 = cows
      /\ exists k m,
          world !! k = Some m
          /\ result.1.1 = delete k world
          /\ scene result.2
             = List.filter (fun i => negb (Nat.eqb i (Three.mesh_uuid m)))
                 (scene rt))
  \/ (button = 2%Z /\ result.1.2 = cows
      /\ exists x y z : Z,
          world !! Game.key x y z = None
          /\ result.1.1
             = <[Game.key x y z
                 := Three.mkMesh (nextId rt)
                      (Vector3.mk (IZR x) (IZR y) (IZR z))
                      (Vector3.mk 0 0 0) (materials selectedBlock) None]>
                 world).
Proof.
  cbv zeta. unfold Game.handleClick.
  destruct isMouseLocked; [|left; split; reflexivity]. cbv beta iota delta [negb].
  destruct (Game.feedCow _ _ _ _); [left; split; reflexivity|].
  unfold JS.bind, JS.ret.
  destruct (editBlock_cases raycaster camera materials selectedBlock button
              world rt)
    as [->|[(Hb & k & m & Hm & ->)|(Hb & x & y & z & Hk & ->)]]; cbn [fst snd].
  - left. split; reflexivity.
  - right. left. refine (conj Hb (conj eq_refl _)). exists k, m. auto.
  - right. right. refine (conj Hb (conj eq_refl _)). exists x, y, z. auto.
Qed.

(** X11. A click changes at most one creature, and never one that is
    fed.  Either the creatures are as before, or the button is the right
    one and exactly one creature that was not fed has been fed from the
    camera position, in which case the store and the scene are as
    before. *)
Theorem handleClick_feeds_one_unfed raycaster camera materials isMouseLocked
    selectedBlock (button : Z) (world : gmap string Three.Mesh)
    (cows : list (string * Cow.t)) (rt : Runtime) :
  let result :=
    Game.handleClick raycaster camera materials isMouseLocked selectedBlock
      button world cows rt in
  result.1.2 = cows
  \/ (button = 2%Z /\ result.1.1 = world /\ result.2 = rt
      /\ exists (i : nat) (k : string) (cow : Cow.t),
          cows !! i = Some (k, cow)
          /\ Cow.isFed cow = false
          /\ result.1.2
             = <[i := (k, Cow.feed cow (Three.position camera))]> cows).
Proof.
  cbv zeta. unfold Game.handleClick.
  destruct isMouseLocked; [|left; reflexivity]. cbv beta iota delta [negb].
  destruct (Game.feedCow _ _ _ _) as [cows'|] eqn:Hf.
  - right. destruct (feedCow_Some _ _ _ _ _ Hf) as (Hb & i & k & cow & H).
    refine (conj Hb (conj eq_refl (conj eq_refl _))).
    exists i, k, cow. exact H.
  - left. unfold JS.bind, JS.ret.
    destruct (Game.editBlock _ _ _ _ _ _ _). reflexivity.
Qed.

End Clicks.

(** ** Placing a block and taking it away again *)

Section RoundTrip.
Local Open Scope R_scope.

Lemma editBlock_place raycaster camera materials selectedBlock
    (world : gmap string Three.Mesh) (rt : Runtime)
    (target : Utils.TargetResult) :
  Ref.run (Game.getTargetBlock raycaster camera world) = Some (Some target) ->
  world !! Game.key (Position.x (Utils.place target))
             (Position.y (Utils.place target))
             (Position.z (Utils.place target)) = None ->
  Game.editBlock raycaster camera materials selectedBlock 2 world rt
  = Game.addBlock materials selectedBlock (Position.x (Utils.place target))
      (Position.y (Utils.place target)) (Position.z (Utils.place target))
      world rt.
Proof.
  intros Ht Hk. unfold Game.editBlock. rewrite Ht. simpl. rewrite Hk.
  reflexivity.
Qed.

Lemma editBlock_remove raycaster camera materials selectedBlock
    (world : gmap string Three.Mesh) (rt : Runtime)
    (target : Utils.TargetResult) (mesh : Three.Mesh) :
  Ref.run (Game.getTargetBlock raycaster camera world) = Some (Some target) ->
  world !! Game.key (Position.x (Utils.remove target))
             (Position.y (Utils.remove target))
             (Position.z (Utils.remove target)) = Some mesh ->
  Game.editBlock raycaster camera materials selectedBlock 0 world rt
  = (delete (Game.key (Position.x (Utils.remove target))
               (Position.y (Utils.remove target))
               (Position.z (Utils.remove target))) world,
     mkRuntime (random rt) (dates rt) (nextId rt)
       (List.filter (fun i => negb (Nat.eqb i (Three.mesh_uuid mesh)))
          (scene rt))).
Proof.
  intros Ht Hk. unfold Game.editBlock. rewrite Ht. simpl. rewrite Hk.
  reflexivity.
Qed.

(** Adding a new object to the scene and removing it again. *)
Lemma scene_add_remove (id : nat) (l : list nat) :
  (forall i, In i l -> (i < id)%nat) ->
  List.filter (fun i => negb (Nat.eqb i id))
    (List.filter (fun i => negb (Nat.eqb i id)) l ++ [id]) = l.
Proof.
  intros H.
  assert (E : List.filter (fun i => negb (Nat.eqb i id)) l = l).
  { induction l as [|a l IH]; [reflexivity|]. simpl.
    destruct (Nat.eqb_spec a id) as [->|_].
    - specialize (H id (or_introl eq_refl)). lia.
    - simpl. f_equal. apply IH. intros i Hi. apply H. right. exact Hi. }
  rewrite E, List.filter_app, E. simpl. rewrite Nat.eqb_refl. simpl.
  apply app_nil_r.
Qed.

Lemma handleClick_edit raycaster camera materials selectedBlock button
    (world : gmap string Three.Mesh) (cows : list (string * Cow.t))
    (rt : Runtime) :
  Game.feedCow raycaster camera button cows = None ->
  Game.handleClick raycaster camera materials true selectedBlock button
    world cows rt
  = ((Game.editBlock raycaster camera materials selectedBlock button
        world rt).1, cows,
     (Game.editBlock raycaster camera materials selectedBlock button
        world rt).2).
Proof.
  intros Hf. unfold Game.handleClick. cbv beta iota delta [negb].
  rewrite Hf. unfold JS.bind, JS.ret.
  destruct (Game.editBlock _ _ _ _ _ _ _). reflexivity.
Qed.

(** X12. Placing a block and then removing it restores the game.  When
    a right click that feeds no creature places a block in an empty
    cell, and a following left click, from any view, resolves to that
    cell as the one to remove, the store, the creatures and the scene are
    again what they were before the two clicks; only the counter of
    created objects has moved on by one.  The scene must hold only
    objects created so far. *)
Theorem place_then_remove raycaster1 camera1 raycaster2 camera2 materials
    selected1 selected2 (world : gmap string Three.Mesh)
    (cows : list (string * Cow.t)) (rt : Runtime)
    (target1 target2 : Utils.TargetResult) :
  numbered rt ->
  Game.feedCow raycaster1 camera1 2 cows = None ->
  Ref.run (Game.getTargetBlock raycaster1 camera1 world)
  = Some (Some target1) ->
  world !! Game.key (Position.x (Utils.place target1))
             (Position.y (Utils.place target1))
             (Position.z (Utils.place target1)) = None ->
  let placed :=
    Game.handleClick raycaster1 camera1 materials true selected1 2 world
      cows rt in
  Ref.run (Game.getTargetBlock raycaster2 camera2 placed.1.1)
  = Some (Some target2) ->
  Utils.remove target2 = Utils.place target1 ->
  Game.handleClick raycaster2 camera2 materials true selected2 0
    placed.1.1 placed.1.2 placed.2
  = (world, cows,
     mkRuntime (random rt) (dates rt) (S (nextId rt)) (scene rt)).
Proof.
  intros Hn Hf H1 Hk placed. subst placed.
  rewrite (handleClick_edit _ _ _ _ _ _ _ _ Hf).
  rewrite (editBlock_place _ _ _ _ _ _ _ H1 Hk), addBlock_result.
  cbn [fst snd]. intros H2 Hr.
  rewrite handleClick_edit by (apply feedCow_button; discriminate).
  rewrite (editBlock_remove _ _ _ _ _ _ _ _ H2
             ltac:(rewrite Hr; apply lookup_insert_eq)).
  cbn [fst snd random dates nextId scene Three.mesh_uuid].
  rewrite Hr, delete_insert_id by exact Hk.
  rewrite scene_add_remove by exact Hn. reflexivity.
Qed.

Lemma side_target (m : Three.Mesh) :
  Ref.run (Game.getTargetBlock Side.raycaster Side.camera
             (<[Game.key 0 0 1 := m]> FrontFace.world))
  = Some (Some (Utils.mkTarget (Position.mk (-1) 0 1)%Z
                  (Position.mk 0 0 1)%Z)).
Proof.
  rewrite getTargetBlock_resolve.
  assert (E : Three.intersectObjects Side.raycaster (view_ray Side.camera)
                (map_to_list (<[Game.key 0 0 1 := m]> FrontFace.world)).*2
              = [Side.hit]).
  { simpl.
    destruct (map_to_list (<[Game.key 0 0 1 := m]> FrontFace.world))
      as [|kv l] eqn:M; [|reflexivity].
    apply map_to_list_empty_iff in M.
    assert (L : (<[Game.key 0 0 1 := m]> FrontFace.world) !! Game.key 0 0 1
                = Some m) by apply lookup_insert_eq.
    rewrite M in L. discriminate. }
  rewrite E.
  rewrite (resolve_axis_aligned Side.hit (Vector3.mk (-1) 0 0) eq_refl).
  - unfold round3, Vector3.add, Vector3.multiplyScalar. simpl.
    rewrite (Math_round_eq (-1) (- (1 / 2) + -1 * (1 / 2))) by (simpl; lra).
    rewrite (Math_round_eq 0 (0 + 0 * (1 / 2))) by lra.
    rewrite (Math_round_eq 1 (1 + 0 * (1 / 2))) by lra.
    rewrite (Math_round_eq 0 (- (1 / 2))) by lra.
    rewrite (Math_round_eq 0 0) by lra.
    rewrite (Math_round_eq 1 1) by lra.
    reflexivity.
  - unfold canonical_normal. simpl. tauto.
  - unfold axis_aligned, Matrix4.e. simpl. tauto.
Qed.

(** A stone block placed on the front face of the single block, seen
    from the front, and removed again, seen from the side. *)
Lemma place_then_remove_front_face :
  numbered FrontFace.runtime
  /\ Game.handleClick Side.raycaster Side.camera Game.createMaterials true
       Utils.GRASS 0
       (Game.handleClick FrontFace.raycaster FrontFace.camera
          Game.createMaterials true Utils.STONE 2 FrontFace.world []
          FrontFace.runtime).1.1
       (Game.handleClick FrontFace.raycaster FrontFace.camera
          Game.createMaterials true Utils.STONE 2 FrontFace.world []
          FrontFace.runtime).1.2
       (Game.handleClick FrontFace.raycaster FrontFace.camera
          Game.createMaterials true Utils.STONE 2 FrontFace.world []
          FrontFace.runtime).2
     = (FrontFace.world, [],
        mkRuntime (random FrontFace.runtime) (dates FrontFace.runtime)
          (S (nextId FrontFace.runtime)) (scene FrontFace.runtime)).
Proof.
  assert (Hn : numbered FrontFace.runtime).
  { intros id [<-|[]]. unfold FrontFace.runtime. simpl. lia. }
  split; [exact Hn|].
  refine (place_then_remove FrontFace.raycaster FrontFace.camera
            Side.raycaster Side.camera Game.createMaterials Utils.STONE
            Utils.GRASS FrontFace.world [] FrontFace.runtime
            (Utils.mkTarget (Position.mk 0 0 1)%Z (Position.mk 0 0 1)%Z)
            (Utils.mkTarget (Position.mk (-1) 0 1)%Z (Position.mk 0 0 1)%Z)
            Hn eq_refl front_face_target front_face_cell_free _ eq_refl).
  rewrite (handleClick_edit _ _ _ _ _ _ _ _ (eq_refl : Game.feedCow FrontFace.raycaster FrontFace.camera 2 [] = None)).
  rewrite (editBlock_place _ _ _ _ _ _ _ front_face_target
             front_face_cell_free), addBlock_result.
  cbn [fst]. apply side_target.
Defined.

End RoundTrip.

(** ** The single block and its scene *)

Section SingleBlock.
Local Open Scope R_scope.

Lemma blank_coherent : coherent blank ∅.
Proof.
  refine (conj _ (conj _ (conj _ _))).
  - intros id [].
  - intros k m H. rewrite lookup_empty in H. discriminate.
  - intros k m H. rewrite lookup_empty in H. discriminate.
  - intros k1 k2 m1 m2 H. rewrite lookup_empty in H. discriminate.
Qed.

Lemma front_face_coherent : coherent FrontFace.runtime FrontFace.world.
Proof.
  exact (insert_coherent blank ∅ 0 0 0 (Game.createMaterials Utils.GRASS)
           blank_coherent).
Qed.

(** A right click on the front face of the single block. *)
Lemma handleClick_coherent_front_face :
  coherent FrontFace.runtime FrontFace.world
  /\ coherent
       (Game.handleClick FrontFace.raycaster FrontFace.camera
          Game.createMaterials true Utils.STONE 2 FrontFace.world []
          FrontFace.runtime).2
       (Game.handleClick FrontFace.raycaster FrontFace.camera
          Game.createMaterials true Utils.STONE 2 FrontFace.world []
          FrontFace.runtime).1.1.
Proof.
  split; [exact front_face_coherent|].
  exact (handleClick_coherent FrontFace.raycaster FrontFace.camera
           Game.createMaterials true Utils.STONE 2 FrontFace.world []
           FrontFace.runtime front_face_coherent).
Defined.

End SingleBlock.

(** ** The cells a view resolves to *)

Section Cells.
Local Open Scope R_scope.

(** With exact arithmetic and the methods of the library as embedded
    above, the resolver is the one the clicks use. *)
Lemma getTargetBlock_exact :
  Double.getTargetBlock Rplus Rminus Rmult Three.transformDirection
    Three.applyQuaternion
  = Game.getTargetBlock.
Proof. reflexivity. Qed.

(** Exact arithmetic rounds with no error. *)
Lemma exact_rounds : rounds 0 Rplus Rplus /\ rounds 0 Rminus Rminus.
Proof.
  split; intros x y.
  - replace (x + y - (x + y)) with 0 by ring. rewrite Rabs_R0. lra.
  - replace (x - y - (x - y)) with 0 by ring. rewrite Rabs_R0. lra.
Qed.

Lemma Math_round_near (a : R) : Rabs (IZR (JS.Math_round a) - a) <= 1 / 2.
Proof.
  unfold JS.Math_round. pose proof (Zfloor_bound (a + 1 / 2)) as [Hl Hu].
  apply Rabs_le. lra.
Qed.

(** A coordinate that is moved and moved back comes back up to the two
    roundings. *)
Lemma moved_back_near (plus minus : R -> R -> R) (eps p h : R) :
  0 <= eps -> rounds eps plus Rplus -> rounds eps minus Rminus ->
  Rabs (minus (plus p h) h - p) <= eps * (2 + eps) * (Rabs p + Rabs h).
Proof.
  intros He Hp Hm.
  pose proof (Hp p h) as H1. pose proof (Hm (plus p h) h) as H2.
  set (q := plus p h) in *. set (r := minus q h) in *.
  pose proof (Rabs_triang p h) as T1.
  pose proof (Rabs_pos p) as Pp. pose proof (Rabs_pos h) as Ph.
  assert (E1 : Rabs (q - (p + h)) <= eps * (Rabs p + Rabs h)) by nra.
  assert (T2 : Rabs (q - h) <= Rabs p + Rabs (q - (p + h))).
  { replace (q - h) with (p + (q - (p + h))) by ring. apply Rabs_triang. }
  assert (E2 : Rabs (r - (q - h))
               <= eps * (Rabs p + eps * (Rabs p + Rabs h))).
  { pose proof (Rabs_pos (q - h)). nra. }
  replace (r - p) with ((r - (q - h)) + (q - (p + h))) by ring.
  eapply Rle_trans; [apply Rabs_triang|]. nra.
Qed.

Lemma round_moved_back (plus minus : R -> R -> R) (eps p h : R) :
  0 <= eps -> rounds eps plus Rplus -> rounds eps minus Rminus ->
  Rabs (IZR (JS.Math_round (minus (plus p h) h)) - p) <= slack eps p h.
Proof.
  intros He Hp Hm. unfold slack.
  pose proof (moved_back_near plus minus eps p h He Hp Hm) as H.
  pose proof (Math_round_near (minus (plus p h) h)) as H'.
  replace (IZR (JS.Math_round (minus (plus p h) h)) - p)
    with ((IZR (JS.Math_round (minus (plus p h) h)) - minus (plus p h) h)
          + (minus (plus p h) h - p)) by ring.
  eapply Rle_trans; [apply Rabs_triang|]. lra.
Qed.

(** X13. The cells the resolver returns, in terms of the nearest
    intersection and whatever the arithmetic of the runtime rounds to.
    There is a target exactly when the ray meets a block and that
    intersection has a face.  The cell to place in is rounded from the
    point moved by half the face normal in world space.  The cell to
    remove is rounded from that moved point less that half normal: from
    what [add] has left in [point] and [multiplyScalar] in [normal], not
    from the point of the intersection less the normal.  So when sums
    and differences are exact up to a relative error [eps], the cell to
    remove lies, in every coordinate, within half a unit and the two
    roundings of the point of the intersection, whatever the normal. *)
Theorem getTargetBlock_cells (plus minus times : R -> R -> R)
    (transformDirection : Vector3.t -> Matrix4.t -> Vector3.t)
    (applyQuaternion : Vector3.t -> Quaternion.t -> Vector3.t)
    raycaster camera (world : gmap string Three.Mesh) :
  Ref.run (Double.getTargetBlock plus minus times transformDirection
             applyQuaternion raycaster camera world)
  = Some
      match Three.intersectObjects raycaster
              (Three.mkRay (Three.position camera)
                 (applyQuaternion (Vector3.mk 0 0 (-1))
                    (Three.quaternion camera)))
              (map_to_list world).*2 with
      | i :: _ =>
          match Three.face i with
          | Some f =>
              let half :=
                Double.multiplyScalar times
                  (transformDirection (Three.normal f)
                     (Three.matrixWorld (Three.object i)))
                  (1 / 2) in
              let moved := Double.add plus (Three.point i) half in
              Some (Utils.mkTarget (round3 moved)
                      (round3 (Double.sub minus moved half)))
          | None => None
          end
      | [] => None
      end
  /\ forall (eps : R) (t : Utils.TargetResult),
       0 <= eps -> rounds eps plus Rplus -> rounds eps minus Rminus ->
       Ref.run (Double.getTargetBlock plus minus times transformDirection
                  applyQuaternion raycaster camera world)
       = Some (Some t) ->
       exists (i : Three.Intersection) (f : Three.Face),
         head (Three.intersectObjects raycaster
                 (Three.mkRay (Three.position camera)
                    (applyQuaternion (Vector3.mk 0 0 (-1))
                       (Three.quaternion camera)))
                 (map_to_list world).*2) = Some i
         /\ Three.face i = Some f
         /\ near eps (Utils.remove t) (Three.point i)
              (Double.multiplyScalar times
                 (transformDirection (Three.normal f)
                    (Three.matrixWorld (Three.object i)))
                 (1 / 2)).
Proof.
  assert (E : Ref.run (Double.getTargetBlock plus minus times
                         transformDirection applyQuaternion raycaster camera
                         world)
              = Some
                  match Three.intersectObjects raycaster
                          (Three.mkRay (Three.position camera)
                             (applyQuaternion (Vector3.mk 0 0 (-1))
                                (Three.quaternion camera)))
                          (map_to_list world).*2 with
                  | i :: _ =>
                      match Three.face i with
                      | Some f =>
                          let half :=
                            Double.multiplyScalar times
                              (transformDirection (Three.normal f)
                                 (Three.matrixWorld (Three.object i)))
                              (1 / 2) in
                          let moved := Double.add plus (Three.point i) half in
                          Some (Utils.mkTarget (round3 moved)
                                  (round3 (Double.sub minus moved half)))
                      | None => None
                      end
                  | [] => None
                  end).
  { unfold Double.getTargetBlock, Double.method1, Double.method2.
    unfold Ref.run, Ref.bind, Ref.alloc, Ref.read, Ref.write. simpl.
    destruct (Three.intersectObjects _ _ _) as [|i l]; [reflexivity|].
    destruct (Three.face i) as [f|]; reflexivity. }
  split; [exact E|].
  intros eps t He Hp Hm Ht. rewrite E in Ht.
  destruct (Three.intersectObjects _ _ _) as [|i l]; [discriminate|].
  destruct (Three.face i) as [f|] eqn:Ef; [|discriminate].
  exists i, f. split; [reflexivity|]. split; [exact Ef|].
  cbv zeta in Ht. injection Ht as <-.
  unfold near, round3, Double.sub, Double.add.
  cbn [Utils.remove Position.x Position.y Position.z
       Vector3.x Vector3.y Vector3.z].
  repeat split; apply round_moved_back; assumption.
Qed.

End Cells.

(** ** The herd through a frame *)

Section Herd.
Local Open Scope R_scope.

Variable toString36 : R -> string.

(** Where [update] leaves the group. *)
Lemma update_posed (c : Cow.t) (delta : R) (worldBounds : Cow.Bounds)
    (rt : Runtime) :
  posed (Cow.update c delta worldBounds rt).1.
Proof.
  unfold Cow.update, JS.bind. fold (timers c delta).
  fold (behave (timers c delta) worldBounds).
  destruct (behave (timers c delta) worldBounds rt) as [c2 rt2].
  destruct (Run.Date_now rt2) as [now rt3]. unfold JS.ret, posed.
  exists (now * (1 / 1000)). cbn [fst Cow.mesh Cow.set_mesh].
  destruct (JS.gtb _ _); reflexivity.
Qed.

Lemma update_inside (c : Cow.t) (delta : R) (worldBounds : Cow.Bounds)
    (rt : Runtime) :
  Cow.min worldBounds + 2 <= Cow.max worldBounds - 2 ->
  Cow.min worldBounds + 2
  <= Vector3.x (Cow.position (Cow.update c delta worldBounds rt).1)
  <= Cow.max worldBounds - 2
  /\ Cow.min worldBounds + 2
     <= Vector3.z (Cow.position (Cow.update c delta worldBounds rt).1)
     <= Cow.max worldBounds - 2.
Proof.
  intros H.
  destruct (update_stages c delta worldBounds rt) as (m & rt' & -> & _).
  simpl. split; apply clamp_bounds, H.
Qed.

Lemma tick_inside camera (c : Cow.t) (delta : R) (rt : Runtime) :
  inside (Game.tick camera delta c rt).1.
Proof.
  unfold Game.tick, inside.
  match goal with
  | |- context [Cow.update ?c' delta ?wb rt] =>
      pose proof (update_inside c' delta wb rt) as H
  end.
  cbn [Cow.min Cow.max] in H. specialize (H ltac:(lra)). lra.
Qed.

(** The creature half of a frame, creature by creature: each one is the
    tick of the one it replaces, in some state of the runtime. *)
Lemma updateCows_ticks camera (delta : R) (cows : list (string * Cow.t)) :
  forall (done : list (string * Cow.t)) (rt : Runtime),
  exists after : list (string * Cow.t),
    (Run.foldM (fun done kc =>
                  cow <- Game.tick camera delta kc.2 ;;
                  JS.ret (done ++ [(kc.1, cow)])) cows done rt).1
    = done ++ after
    /\ Forall2 (fun kc kc' : string * Cow.t =>
                  kc'.1 = kc.1
                  /\ exists rt', kc'.2 = (Game.tick camera delta kc.2 rt').1)
         cows after.
Proof.
  induction cows as [|[k c] rest IH]; intros done rt.
  - exists []. simpl. rewrite app_nil_r. split; [reflexivity | constructor].
  - cbn [Run.foldM fst snd]. unfold JS.bind at 1 2. unfold JS.ret at 1.
    destruct (Game.tick camera delta c rt) as [c2 rt2] eqn:E.
    destruct (IH (done ++ [(k, c2)]) rt2) as (after & -> & Hall).
    exists ((k, c2) :: after). rewrite <- app_assoc. split; [reflexivity|].
    constructor; [|exact Hall]. split; [reflexivity|].
    exists rt. cbn [fst snd]. rewrite E. reflexivity.
Qed.


(** *** Spawning *)

Lemma In_Map_set_keys (a key : string) (cow : Cow.t)
    (cows : list (string * Cow.t)) :
  In a (List.map fst (Game.Map_set key cow cows)) ->
  a = key \/ In a (List.map fst cows).
Proof.
  induction cows as [|[k c] rest IH]; simpl.
  - intros [<-|[]]. left. reflexivity.
  - destruct (String.eqb_spec k key) as [->|_]; simpl.
    + intros [<-|H]; [left; reflexivity | right; right; exact H].
    + intros [<-|H]; [right; left; reflexivity|].
      destruct (IH H) as [->|H']; [left; reflexivity | right; right; exact H'].
Qed.

(** [Map.set] keeps the keys distinct. *)
Lemma Map_set_NoDup (key : string) (cow : Cow.t)
    (cows : list (string * Cow.t)) :
  List.NoDup (List.map fst cows) ->
  List.NoDup (List.map fst (Game.Map_set key cow cows)).
Proof.
  induction cows as [|[k c] rest IH]; simpl; intros H.
  - constructor; [intros [] | constructor].
  - inversion H as [|k' l' Hk Hrest]; subst.
    destruct (String.eqb_spec k key) as [->|Hne]; simpl.
    + constructor; assumption.
    + constructor; [|apply IH, Hrest].
      intros Hin. apply In_Map_set_keys in Hin.
      destruct Hin as [->|Hin]; [apply Hne; reflexivity | apply Hk, Hin].
Qed.

Lemma Map_set_length (key : string) (cow : Cow.t)
    (cows : list (string * Cow.t)) :
  (length (Game.Map_set key cow cows) <= S (length cows))%nat.
Proof.
  induction cows as [|[k c] rest IH]; simpl; [lia|].
  destruct (String.eqb k key); simpl; lia.
Qed.

(** What the constructor makes of its draws. *)
Lemma constructor_traits (x y z : R) (rt : Runtime) :
  draws (random rt) ->
  let c := (Cow.constructor toString36 x y z rt).1 in
  Cow.position c = Vector3.mk x y z
  /\ 1 / 2 <= Cow.speed c < 1
  /\ 3 <= Cow.maxWanderTime c < 7
  /\ Cow.wanderTimer c = 0
  /\ Cow.isFed c = false
  /\ Cow.followTarget c = None
  /\ Three.group_position (Cow.mesh c) = Cow.position c.
Proof.
  intros Hd.
  pose proof (Hd 3%nat) as H3. pose proof (Hd 4%nat) as H4.
  revert H3 H4.
  unfold Cow.constructor, JS.bind, Run.Math_random, JS.Math_random, JS.ret.
  cbn [random dates nextId scene].
  destruct (Cow.createCowMesh _) as [g rt'].
  cbn [fst Cow.position Cow.speed Cow.wanderTimer Cow.maxWanderTime
         Cow.isFed Cow.followTarget Cow.mesh Three.group_position].
  intros H3 H4.
  refine (conj eq_refl (conj _ (conj _ (conj eq_refl (conj eq_refl
            (conj eq_refl eq_refl)))))); lra.
Qed.

(** The position a pass of the search samples. *)
Lemma candidate_range (r1 r2 : R) :
  0 <= r1 < 1 -> 0 <= r2 < 1 ->
  -15 <= (candidate 15 r1 r2).1.1 < 15
  /\ 3 <= IZR (candidate 15 r1 r2).1.2 <= 9
  /\ -15 <= (candidate 15 r1 r2).2 < 15.
Proof.
  intros H1 H2. unfold candidate. cbn [fst snd].
  refine (conj _ (conj _ _)); [lra | | lra].
  match goal with
  | |- context [JS.Math_floor ?a] =>
      pose proof (floor_between a (-3) 3) as F;
      assert (B : -3 <= a <= 3)
  end.
  { pose proof (SIN_bound ((r1 * 15 * 2 - 15) * (1 / 10))) as [S1 S2].
    pose proof (COS_bound ((r2 * 15 * 2 - 15) * (1 / 10))) as [C1 C2].
    split; nra. }
  specialize (F B). rewrite plus_IZR.
  destruct F as [F1 F2]. apply IZR_le in F1, F2. lra.
Qed.

Lemma foldM_length {S A : Type} (body : list (string * Cow.t) -> A ->
                                        JS.State S (list (string * Cow.t)))
    (l : list A) :
  (forall b a s, (length (body b a s).1 <= Datatypes.S (length b))%nat) ->
  forall b s,
    (length (Run.foldM body l b s).1 <= length b + length l)%nat.
Proof.
  intros Hbody. induction l as [|a l IH]; intros b s; simpl; [lia|].
  unfold JS.bind. specialize (Hbody b a s).
  destruct (body b a s) as [b' s']. specialize (IH b' s'). simpl in Hbody.
  lia.
Qed.


End Herd.

(** ** How far a creature moves in a frame *)

Section Pace.
Local Open Scope R_scope.

Variable toString36 : R -> string.

Lemma length_nonneg (v : Vector3.t) : 0 <= Vector3.length v.
Proof. apply sqrt_pos. Qed.

Lemma length_multiplyScalar (v : Vector3.t) (s : R) :
  Vector3.length (Vector3.multiplyScalar v s) = Rabs s * Vector3.length v.
Proof.
  unfold Vector3.length, Vector3.multiplyScalar. simpl.
  replace (Vector3.x v * s * (Vector3.x v * s)
           + Vector3.y v * s * (Vector3.y v * s)
           + Vector3.z v * s * (Vector3.z v * s))
    with (Rsqr s * (Vector3.x v * Vector3.x v + Vector3.y v * Vector3.y v
                    + Vector3.z v * Vector3.z v))
    by (unfold Rsqr; ring).
  rewrite sqrt_mult; [|apply Rle_0_sqr|nra].
  rewrite sqrt_Rsqr_abs. reflexivity.
Qed.

Lemma length_normalize (v : Vector3.t) :
  Vector3.length (Vector3.normalize v)
  = if Req_dec_T (Vector3.length v) 0 then 0 else 1.
Proof.
  unfold Vector3.normalize, Vector3.divideScalar.
  rewrite length_multiplyScalar.
  destruct (Req_dec_T (Vector3.length v) 0) as [E|N].
  - rewrite E. ring.
  - pose proof (length_nonneg v) as P.
    rewrite Rabs_right; [field; exact N|].
    apply Rle_ge. apply Rlt_le. apply Rdiv_lt_0_compat; lra.
Qed.

Lemma normalize_tame (v : Vector3.t) :
  Vector3.length (Vector3.normalize v) <= 1.
Proof.
  rewrite length_normalize. destruct (Req_dec_T _ _); lra.
Qed.

Lemma length_zero : Vector3.length (Vector3.mk 0 0 0) = 0.
Proof.
  unfold Vector3.length. simpl.
  replace (0 * 0 + 0 * 0 + 0 * 0) with 0 by ring. apply sqrt_0.
Qed.

(** The first stage changes neither place nor heading. *)
Lemma timers_frame (c : Cow.t) (delta : R) :
  Cow.position (timers c delta) = Cow.position c
  /\ Cow.direction (timers c delta) = Cow.direction c.
Proof.
  unfold timers. simpl. destruct (Cow.isFed c); [|split; reflexivity].
  simpl. destruct (JS.geb _ _); split; reflexivity.
Qed.

(** After the second stage the heading is at most a unit long and the
    speed along it at most one and a half. *)
Lemma behave_pace (c : Cow.t) (worldBounds : Cow.Bounds) (rt : Runtime) :
  tame c -> draws (random rt) ->
  tame (behave c worldBounds rt).1
  /\ Vector3.length (Cow.direction (behave c worldBounds rt).1)
     * Rabs (Cow.speed (behave c worldBounds rt).1) <= 3 / 2.
Proof.
  intros Ht Hd. unfold tame in *.
  assert (W : Vector3.length (Cow.direction (Cow.wander c worldBounds rt).1)
              <= 1
              /\ Vector3.length
                   (Cow.direction (Cow.wander c worldBounds rt).1)
                 * Rabs (Cow.speed (Cow.wander c worldBounds rt).1)
                 <= 3 / 2).
  { unfold Cow.wander, JS.bind, JS.ret, Run.Math_random. simpl.
    pose proof (Hd 0%nat) as H0.
    assert (A : Rabs (1 / 2 + random rt 0%nat * (1 / 2)) <= 1)
      by (rewrite Rabs_right; lra).
    destruct (_ || _); simpl.
    - pose proof (normalize_tame
                    (Vector3.mk ((random rt 2%nat - 1 / 2) * 2) 0
                       ((random rt 3%nat - 1 / 2) * 2))) as N.
      pose proof (length_nonneg
                    (Vector3.normalize
                       (Vector3.mk ((random rt 2%nat - 1 / 2) * 2) 0
                          ((random rt 3%nat - 1 / 2) * 2)))) as P.
      pose proof (Rabs_pos (1 / 2 + random rt 0%nat * (1 / 2))).
      split; [exact N | nra].
    - pose proof (length_nonneg (Cow.direction c)) as P.
      pose proof (Rabs_pos (1 / 2 + random rt 0%nat * (1 / 2))).
      split; [exact Ht | nra]. }
  unfold behave. destruct (Cow.isFed c); [|exact W].
  destruct (Cow.followTarget c) as [target|]; [|exact W].
  unfold JS.ret, Cow.follow. cbn [fst].
  destruct (JS.gtb _ _); simpl.
  - pose proof (normalize_tame (Vector3.sub target (Cow.position c))) as N.
    pose proof (length_nonneg
                  (Vector3.normalize (Vector3.sub target (Cow.position c))))
      as P.
    rewrite (Rabs_right (15 / 10)) by lra. split; [exact N | nra].
  - rewrite length_zero. split; [lra|]. rewrite Rmult_0_l. lra.
Qed.

Lemma constructor_direction (x y z : R) (rt : Runtime) :
  tame (Cow.constructor toString36 x y z rt).1.
Proof.
  unfold tame, Cow.constructor, JS.bind, Run.Math_random, JS.Math_random,
    JS.ret.
  cbn [random dates nextId scene].
  destruct (Cow.createCowMesh _) as [g rt']. cbn [fst Cow.direction].
  apply normalize_tame.
Qed.

Lemma update_direction (c : Cow.t) (delta : R) (worldBounds : Cow.Bounds)
    (rt : Runtime) :
  Cow.direction (Cow.update c delta worldBounds rt).1
  = Cow.direction (behave (timers c delta) worldBounds rt).1.
Proof.
  destruct (update_stages c delta worldBounds rt) as (m & rt' & -> & _).
  reflexivity.
Qed.

Lemma timers_tame (c : Cow.t) (delta : R) : tame c -> tame (timers c delta).
Proof.
  unfold tame. rewrite (proj2 (timers_frame c delta)). auto.
Qed.

Lemma reachable_tame (c : Cow.t) : reachable toString36 c -> tame c.
Proof.
  induction 1 as [x y z rt Hd | c p _ IH | c target _ IH _ _
                 | c delta worldBounds rt _ IH Hdelta Hd].
  - apply constructor_direction.
  - exact IH.
  - exact IH.
  - unfold tame. rewrite update_direction.
    apply (behave_pace _ worldBounds rt (timers_tame c delta IH) Hd).
Qed.

(** The clamp moves no value away from one inside the range. *)
Lemma clamp_near (worldBounds : Cow.Bounds) (a b : R) :
  Cow.min worldBounds + 2 <= a <= Cow.max worldBounds - 2 ->
  Rabs (a - clamp worldBounds b) <= Rabs (a - b).
Proof.
  intros [Hl Hu]. unfold clamp, JS.Math_max, JS.Math_min, Rmax, Rmin.
  repeat destruct (Rle_dec _ _); unfold Rabs;
    repeat destruct (Rcase_abs _); lra.
Qed.

Lemma length_le (v w : Vector3.t) :
  Rabs (Vector3.x v) <= Rabs (Vector3.x w) ->
  Rabs (Vector3.y v) <= Rabs (Vector3.y w) ->
  Rabs (Vector3.z v) <= Rabs (Vector3.z w) ->
  Vector3.length v <= Vector3.length w.
Proof.
  intros Hx Hy Hz. unfold Vector3.length. apply sqrt_le_1_alt.
  assert (S : forall a b, Rabs a <= Rabs b -> a * a <= b * b).
  { intros a b H. apply Rsqr_le_abs_1 in H. exact H. }
  pose proof (S _ _ Hx). pose proof (S _ _ Hy). pose proof (S _ _ Hz). lra.
Qed.

(** Where [update] puts the creature: a step from where it stood along
    the heading of the second stage, then the clamp. *)
Lemma update_position (c : Cow.t) (delta : R) (worldBounds : Cow.Bounds)
    (rt : Runtime) :
  let c2 := (behave (timers c delta) worldBounds rt).1 in
  let p := Vector3.add (Cow.position c)
             (Vector3.multiplyScalar (Cow.direction c2)
                (Cow.speed c2 * delta)) in
  Cow.position (Cow.update c delta worldBounds rt).1
  = Vector3.mk (clamp worldBounds (Vector3.x p)) (Vector3.y p)
      (clamp worldBounds (Vector3.z p)).
Proof.
  cbv zeta.
  destruct (update_stages c delta worldBounds rt) as (m & rt' & -> & _).
  destruct (behave_frame (timers c delta) worldBounds rt) as (_ & Hp & _).
  cbv zeta in Hp. rewrite (proj1 (timers_frame c delta)) in Hp.
  cbn [fst]. unfold move. rewrite Hp. reflexivity.
Qed.


(** *** Following the player *)

Lemma length_sub_comm (v w : Vector3.t) :
  Vector3.length (Vector3.sub v w) = Vector3.length (Vector3.sub w v).
Proof.
  unfold Vector3.length, Vector3.sub. simpl. f_equal. ring.
Qed.

Lemma clamp_id (worldBounds : Cow.Bounds) (a : R) :
  Cow.min worldBounds + 2 <= a <= Cow.max worldBounds - 2 ->
  clamp worldBounds a = a.
Proof.
  intros [Hl Hu]. unfold clamp, JS.Math_max, JS.Math_min, Rmax, Rmin.
  repeat destruct (Rle_dec _ _); lra.
Qed.

(** The second stage of a creature that stays fed: the heading is the
    unit vector to the target, at speed one and a half, when the target
    is more than 2 away, and nil otherwise. *)
Lemma behave_following (c : Cow.t) (delta : R) (worldBounds : Cow.Bounds)
    (rt : Runtime) (target : Vector3.t) :
  Cow.isFed c = true -> Cow.followTarget c = Some target ->
  Cow.fedTimer c + delta < Cow.maxFedTime c ->
  let far := JS.gtb (Vector3.length (Vector3.sub target (Cow.position c))) 2 in
  Cow.direction (behave (timers c delta) worldBounds rt).1
  = (if far then Vector3.normalize (Vector3.sub target (Cow.position c))
     else Vector3.mk 0 0 0)
  /\ (far = true ->
      Cow.speed (behave (timers c delta) worldBounds rt).1 = 15 / 10).
Proof.
  intros Fed Ft Hlt. cbv zeta. unfold timers. simpl. rewrite Fed. simpl.
  rewrite geb_false by exact Hlt.
  unfold behave. simpl. rewrite Fed, Ft. unfold JS.ret, Cow.follow. simpl.
  destruct (JS.gtb _ _); simpl; split; try reflexivity; discriminate.
Qed.


End Pace.

(** ** The herd and the creature of the pasture *)

Section PastureViews.
Local Open Scope R_scope.


Lemma pasture_cow_fields :
  Cow.position Pasture.cow = Vector3.mk 0 (- (1 / 5)) (5 / 2)
  /\ Cow.maxFedTime Pasture.cow = 10.
Proof.
  destruct (constructor_fields Pasture.toString36 0 (- (1 / 5)) (5 / 2)
              FrontFace.runtime) as (Hp & _ & _ & _ & _ & _ & _ & Hm).
  split; [exact Hp | exact Hm].
Qed.


Lemma feed_fields (c : Cow.t) (p : Vector3.t) :
  Cow.isFed (Cow.feed c p) = true
  /\ Cow.followTarget (Cow.feed c p) = Some p
  /\ Cow.fedTimer (Cow.feed c p) = 0
  /\ Cow.maxFedTime (Cow.feed c p) = Cow.maxFedTime c
  /\ Cow.position (Cow.feed c p) = Cow.position c.
Proof. repeat split. Qed.


End PastureViews.

(** ** The controls *)

Section ControlsProperties.
Local Open Scope R_scope.

Lemma heading_weights (m : Controls.MoveState) :
  Controls.heading m
  = Vector3.mk (weight (Controls.right m) - weight (Controls.left m))
      (weight (Controls.up m) - weight (Controls.down m))
      (weight (Controls.backward m) - weight (Controls.forward m)).
Proof.
  unfold Controls.heading, weight.
  destruct m as [[] [] [] [] [] []];
    unfold Vector3.set_x, Vector3.set_y, Vector3.set_z; simpl; f_equal; ring.
Qed.

(** Normalising a vector along the vertical axis, one long or nil. *)
Lemma normalize_vertical (a : R) :
  a = 0 \/ a = 1 \/ a = -1 ->
  Vector3.normalize (Vector3.mk 0 a 0) = Vector3.mk 0 a 0.
Proof.
  intros [->|[->| ->]].
  - unfold Vector3.normalize. rewrite length_zero.
    destruct (Req_dec_T 0 0) as [_|N]; [|lra].
    unfold Vector3.divideScalar, Vector3.multiplyScalar. simpl.
    f_equal; field.
  - apply normalize_canonical. unfold canonical_normal. simpl. tauto.
  - apply normalize_canonical. unfold canonical_normal. simpl. tauto.
Qed.


(** The quaternion the movement is turned by, when the camera has no
    roll component. *)
Lemma normalize_yaw (q : Quaternion.t) :
  Quaternion.z q = 0 ->
  let q' := Rotation.normalize
              (Quaternion.mk 0 (Quaternion.y q) (Quaternion.z q)
                 (Quaternion.w q)) in
  Quaternion.x q' = 0 /\ Quaternion.z q' = 0
  /\ Quaternion.y q' * Quaternion.y q' + Quaternion.w q' * Quaternion.w q'
     = 1.
Proof.
  intros Hz. cbv zeta. unfold Rotation.normalize, Rotation.length.
  cbn [Quaternion.x Quaternion.y Quaternion.z Quaternion.w]. rewrite Hz.
  set (S := 0 * 0 + Quaternion.y q * Quaternion.y q + 0 * 0
            + Quaternion.w q * Quaternion.w q).
  destruct (Req_dec_T (sqrt S) 0) as [E|N];
    cbn [Quaternion.x Quaternion.y Quaternion.z Quaternion.w].
  - refine (conj eq_refl (conj eq_refl _)). ring.
  - refine (conj _ (conj _ _)); [ring | ring |].
    assert (P : 0 <= S) by (subst S; nra).
    pose proof (sqrt_sqrt S P) as Q.
    replace (Quaternion.y q * (1 / sqrt S) * (Quaternion.y q * (1 / sqrt S))
             + Quaternion.w q * (1 / sqrt S)
               * (Quaternion.w q * (1 / sqrt S)))
      with (S / (sqrt S * sqrt S)) by (subst S; field; exact N).
    rewrite Q. field. intros Z. apply N. rewrite Z. apply sqrt_0.
Qed.

(** A turn about the vertical axis keeps a level vector level and as
    long as it was. *)
Lemma applyQuaternion_yaw (a c : R) (q : Quaternion.t) :
  Quaternion.x q = 0 -> Quaternion.z q = 0 ->
  Quaternion.y q * Quaternion.y q + Quaternion.w q * Quaternion.w q = 1 ->
  Vector3.y (Three.applyQuaternion (Vector3.mk a 0 c) q) = 0
  /\ Vector3.x (Three.applyQuaternion (Vector3.mk a 0 c) q)
     * Vector3.x (Three.applyQuaternion (Vector3.mk a 0 c) q)
     + Vector3.z (Three.applyQuaternion (Vector3.mk a 0 c) q)
       * Vector3.z (Three.applyQuaternion (Vector3.mk a 0 c) q)
     = a * a + c * c.
Proof.
  intros Hx Hz Hu. unfold Three.applyQuaternion.
  cbn [Vector3.x Vector3.y Vector3.z]. rewrite Hx, Hz.
  set (u := Quaternion.y q) in *. set (w := Quaternion.w q) in *.
  split; [ring|].
  assert (W : w * w = 1 - u * u) by lra.
  replace ((a + w * (2 * (u * c - 0 * 0)) + u * (2 * (0 * 0 - u * a))
            - 0 * (2 * (0 * a - 0 * c)))
           * (a + w * (2 * (u * c - 0 * 0)) + u * (2 * (0 * 0 - u * a))
              - 0 * (2 * (0 * a - 0 * c)))
           + (c + w * (2 * (0 * 0 - u * a)) + 0 * (2 * (0 * a - 0 * c))
              - u * (2 * (u * c - 0 * 0)))
             * (c + w * (2 * (0 * 0 - u * a)) + 0 * (2 * (0 * a - 0 * c))
                - u * (2 * (u * c - 0 * 0))))
    with ((a * a + c * c)
          * ((1 - 2 * (u * u)) * (1 - 2 * (u * u)) + 4 * (u * u) * (w * w)))
    by ring.
  rewrite W. ring.
Qed.

Lemma heading_moves (m : Controls.MoveState) :
  ~ at_rest m -> Vector3.length (Controls.heading m) <> 0.
Proof.
  intros Hm E. apply Hm. unfold at_rest. revert E.
  rewrite heading_weights. unfold Vector3.length, weight.
  cbn [Vector3.x Vector3.y Vector3.z]. intros E.
  apply sqrt_eq_0 in E;
    [|destruct m as [[] [] [] [] [] []]; simpl; lra].
  destruct m as [[] [] [] [] [] []]; simpl in *;
    try (refine (conj eq_refl (conj eq_refl eq_refl))); exfalso; lra.
Qed.


(** *** The keys *)

Lemma setKey_flags (pressed : bool) (code : string)
    (m : Controls.MoveState) :
  Controls.setKey pressed code m
  = Controls.mkMoveState
      (if String.eqb code "KeyW" then pressed else Controls.forward m)
      (if String.eqb code "KeyS" then pressed else Controls.backward m)
      (if String.eqb code "KeyA" then pressed else Controls.left m)
      (if String.eqb code "KeyD" then pressed else Controls.right m)
      (if String.eqb code "Space" then pressed else Controls.up m)
      (if String.eqb code "ShiftLeft" then pressed else Controls.down m).
Proof.
  unfold Controls.setKey.
  destruct (String.eqb_spec code "KeyW") as [->|_]; [reflexivity|].
  destruct (String.eqb_spec code "KeyS") as [->|_]; [reflexivity|].
  destruct (String.eqb_spec code "KeyA") as [->|_]; [reflexivity|].
  destruct (String.eqb_spec code "KeyD") as [->|_]; [reflexivity|].
  destruct (String.eqb_spec code "Space") as [->|_]; [reflexivity|].
  destruct (String.eqb_spec code "ShiftLeft") as [->|_]; [reflexivity|].
  destruct m; reflexivity.
Qed.

Lemma fold_setKey (pressed : bool) (codes : list string)
    (m : Controls.MoveState) :
  let held (key : string) (was : bool) :=
    if existsb (fun code => String.eqb code key) codes then pressed
    else was in
  fold_right (Controls.setKey pressed) m codes
  = Controls.mkMoveState
      (held "KeyW"%string (Controls.forward m))
      (held "KeyS"%string (Controls.backward m))
      (held "KeyA"%string (Controls.left m))
      (held "KeyD"%string (Controls.right m))
      (held "Space"%string (Controls.up m))
      (held "ShiftLeft"%string (Controls.down m)).
Proof.
  cbv zeta. induction codes as [|code codes IH].
  - destruct m; reflexivity.
  - cbn [fold_right existsb]. rewrite IH, setKey_flags.
    cbn [Controls.forward Controls.backward Controls.left Controls.right
           Controls.up Controls.down].
    f_equal; destruct (String.eqb code _); reflexivity.
Qed.

(** X20. Keys that are released leave no trace.  From any state of the
    keys, after the keys of a list have gone down and all of them up
    again, in any order of the releases the list gives, each of the six
    keys of the list is up and every other one is as it was; from the
    state the component starts with, the camera is then at rest. *)
Theorem keys_released (codes : list string) (m : Controls.MoveState) :
  fold_right Controls.handleKeyUp
    (fold_right Controls.handleKeyDown m codes) codes
  = fold_right Controls.handleKeyUp m codes
  /\ at_rest
       (fold_right Controls.handleKeyUp
          (fold_right Controls.handleKeyDown Controls.moveState codes) codes).
Proof.
  unfold Controls.handleKeyUp, Controls.handleKeyDown.
  change (fun (code : string) (m0 : Controls.MoveState) =>
            Controls.setKey false code m0) with (Controls.setKey false).
  change (fun (code : string) (m0 : Controls.MoveState) =>
            Controls.setKey true code m0) with (Controls.setKey true).
  rewrite !(fold_setKey false), !(fold_setKey true). cbv zeta.
  cbn [Controls.forward Controls.backward Controls.left Controls.right
         Controls.up Controls.down Controls.moveState].
  split.
  - f_equal; destruct (existsb _ codes); reflexivity.
  - unfold at_rest.
    cbn [Controls.forward Controls.backward Controls.left Controls.right
           Controls.up Controls.down].
    repeat split; repeat destruct (existsb _ codes); reflexivity.
Qed.

(** *** The mouse *)

Lemma setFromEuler_unit (euler : Rotation.Euler) :
  Rotation.length (Rotation.setFromEuler euler) = 1.
Proof.
  unfold Rotation.length, Rotation.setFromEuler.
  cbn [Quaternion.x Quaternion.y Quaternion.z Quaternion.w].
  pose proof (sin2_cos2 (Rotation.x euler / 2)) as H1.
  pose proof (sin2_cos2 (Rotation.y euler / 2)) as H2.
  pose proof (sin2_cos2 (Rotation.z euler / 2)) as H3.
  unfold Rsqr in H1, H2, H3.
  set (c1 := cos (Rotation.x euler / 2)) in *.
  set (s1 := sin (Rotation.x euler / 2)) in *.
  set (c2 := cos (Rotation.y euler / 2)) in *.
  set (s2 := sin (Rotation.y euler / 2)) in *.
  set (c3 := cos (Rotation.z euler / 2)) in *.
  set (s3 := sin (Rotation.z euler / 2)) in *.
  match goal with
  | |- sqrt ?a = 1 =>
      replace a with ((s1 * s1 + c1 * c1) * (s2 * s2 + c2 * c2)
                      * (s3 * s3 + c3 * c3)) by ring
  end.
  rewrite H1, H2, H3, !Rmult_1_r. apply sqrt_1.
Qed.

(** The forward axis of a camera turned by [setFromEuler]: the roll
    does not enter. *)
Lemma setFromEuler_gaze (euler : Rotation.Euler) :
  Three.applyQuaternion (Vector3.mk 0 0 (-1)) (Rotation.setFromEuler euler)
  = gaze (Rotation.x euler) (Rotation.y euler).
Proof.
  unfold Three.applyQuaternion, Rotation.setFromEuler, gaze.
  cbn [Quaternion.x Quaternion.y Quaternion.z Quaternion.w
         Vector3.x Vector3.y Vector3.z].
  pose proof (sin2_cos2 (Rotation.x euler / 2)) as H1.
  pose proof (sin2_cos2 (Rotation.y euler / 2)) as H2.
  pose proof (sin2_cos2 (Rotation.z euler / 2)) as H3.
  unfold Rsqr in H1, H2, H3.
  replace (sin (Rotation.x euler))
    with (2 * sin (Rotation.x euler / 2) * cos (Rotation.x euler / 2))
    by (rewrite <- sin_2a; f_equal; field).
  replace (cos (Rotation.x euler))
    with (cos (Rotation.x euler / 2) * cos (Rotation.x euler / 2)
          - sin (Rotation.x euler / 2) * sin (Rotation.x euler / 2))
    by (rewrite <- cos_2a; f_equal; field).
  replace (sin (Rotation.y euler))
    with (2 * sin (Rotation.y euler / 2) * cos (Rotation.y euler / 2))
    by (rewrite <- sin_2a; f_equal; field).
  replace (cos (Rotation.y euler))
    with (cos (Rotation.y euler / 2) * cos (Rotation.y euler / 2)
          - sin (Rotation.y euler / 2) * sin (Rotation.y euler / 2))
    by (rewrite <- cos_2a; f_equal; field).
  set (c1 := cos (Rotation.x euler / 2)) in *.
  set (s1 := sin (Rotation.x euler / 2)) in *.
  set (c2 := cos (Rotation.y euler / 2)) in *.
  set (s2 := sin (Rotation.y euler / 2)) in *.
  set (c3 := cos (Rotation.z euler / 2)) in *.
  set (s3 := sin (Rotation.z euler / 2)) in *.
  f_equal.
  - match goal with
    | |- _ = ?r => transitivity (r * (s3 * s3 + c3 * c3))
    end; [ring | rewrite H3; ring].
  - match goal with
    | |- _ = ?r =>
        transitivity (r * ((s2 * s2 + c2 * c2) * (s3 * s3 + c3 * c3)))
    end; [ring | rewrite H2, H3; ring].
  - match goal with
    | |- _ = ?r =>
        transitivity (r * (s3 * s3 + c3 * c3)
                      + ((s1 * s1 + c1 * c1) * (s2 * s2 + c2 * c2)
                         * (s3 * s3 + c3 * c3) - 1))
    end; [ring | rewrite H1, H2, H3; ring].
Qed.


End ControlsProperties.

(** ** The controls from the front view *)

Section ControlsViews.
Local Open Scope R_scope.



End ControlsViews.

(** ** Interpolation *)

Section Interpolation.
Local Open Scope R_scope.

(** X22. [lerp] in the arithmetic of the runtime, which rounds: between
    numbers of different magnitude it need not arrive at [b], but it
    starts at [a] and moves towards [b] as [t] grows.  For operations
    that keep the order of what they are given (as rounding does), with
    [a - a] and [(b - a) * 0] zero and [a + 0] equal to [a]: [lerp] at 0
    is [a], and for [a <= b] and [0 <= s <= t] the value at [s] is at
    least [a] and at most the value at [t]. *)
Theorem lerp_monotone (plus minus times : R -> R -> R) (a b s t : R) :
  (forall x y z : R, y <= z -> plus x y <= plus x z) ->
  (forall x y z : R, x <= y -> minus x z <= minus y z) ->
  (forall x y z : R, 0 <= x -> y <= z -> times x y <= times x z) ->
  minus a a = 0 -> times (minus b a) 0 = 0 -> plus a 0 = a ->
  a <= b -> 0 <= s <= t ->
  Double.lerp plus minus times a b 0 = a
  /\ a <= Double.lerp plus minus times a b s
       <= Double.lerp plus minus times a b t.
Proof.
  intros Hp Hm Ht Hd Hz Ha Hab [Hs Hst]. unfold Double.lerp.
  assert (D : 0 <= minus b a) by (rewrite <- Hd; apply Hm, Hab).
  split; [rewrite Hz; exact Ha|].
  split.
  - rewrite <- Ha at 1. apply Hp. rewrite <- Hz. apply Ht; assumption.
  - apply Hp, Ht; assumption.
Qed.

(** A quarter and a half of the way between two heights of the terrain,
    which doubles compute without rounding. *)
Lemma lerp_monotone_heights :
  Double.lerp Rplus Rminus Rmult 2 8 0 = 2
  /\ 2 <= Double.lerp Rplus Rminus Rmult 2 8 (1 / 4)
       <= Double.lerp Rplus Rminus Rmult 2 8 (1 / 2).
Proof.
  apply (lerp_monotone Rplus Rminus Rmult 2 8 (1 / 4) (1 / 2)).
  - intros x y z H. lra.
  - intros x y z H. lra.
  - intros x y z Hx H. nra.
  - lra.
  - lra.
  - lra.
  - lra.
  - lra.
Defined.

End Interpolation.

(** ** Wandering *)

Section Wander.
Local Open Scope R_scope.



End Wander.

(** ** The handler and its earlier revision *)

Section Revision.
Local Open Scope R_scope.

(** X24. The click handler refines the one of the earlier revision,
    which knew no creatures: for every button but the right one, and for
    the right one when the ray meets no creature, it does to the store
    and the scene exactly what the earlier handler does, and leaves the
    creatures alone. *)
Theorem handleClick_as_before raycaster camera materials isMouseLocked
    selectedBlock (button : Z) (world : gmap string Three.Mesh)
    (cows : list (string * Cow.t)) (rt : Runtime) :
  button <> 2%Z
  \/ Three.intersectGroups raycaster (view_ray camera)
       (List.map (fun kc : string * Cow.t => Cow.mesh kc.2) cows) = [] ->
  Game.handleClick raycaster camera materials isMouseLocked selectedBlock
    button world cows rt
  = ((Part000.handleClick raycaster camera materials isMouseLocked
        selectedBlock button world rt).1, cows,
     (Part000.handleClick raycaster camera materials isMouseLocked
        selectedBlock button world rt).2).
Proof.
  intros H. unfold Game.handleClick, Part000.handleClick.
  destruct isMouseLocked; [|reflexivity]. cbv beta iota delta [negb].
  assert (F : Game.feedCow raycaster camera button cows = None).
  { destruct H as [H|H]; [apply feedCow_button, H|].
    unfold Game.feedCow. fold (view_ray camera). rewrite H. reflexivity. }
  rewrite F. unfold JS.bind, JS.ret.
  destruct (Game.editBlock _ _ _ _ _ _ _). reflexivity.
Qed.

(** A left click in the pasture. *)
Lemma handleClick_as_before_pasture :
  Game.handleClick Pasture.raycaster FrontFace.camera Game.createMaterials
    true Utils.GRASS 0 FrontFace.world Pasture.cows FrontFace.runtime
  = ((Part000.handleClick Pasture.raycaster FrontFace.camera
        Game.createMaterials true Utils.GRASS 0 FrontFace.world
        FrontFace.runtime).1, Pasture.cows,
     (Part000.handleClick Pasture.raycaster FrontFace.camera
        Game.createMaterials true Utils.GRASS 0 FrontFace.world
        FrontFace.runtime).2).
Proof.
  apply (handleClick_as_before Pasture.raycaster FrontFace.camera
           Game.createMaterials true Utils.GRASS 0 FrontFace.world
           Pasture.cows FrontFace.runtime).
  left. discriminate.
Defined.

End Revision.

(** ** The parts of a creature *)

Section Parts.
Local Open Scope R_scope.

Variable toString36 : R -> string.

Lemma existsb_seq (u a n : nat) :
  existsb (fun i => Nat.eqb i u) (seq a n) = true <-> (a <= u < a + n)%nat.
Proof.
  rewrite existsb_exists. split.
  - intros (i & Hi & E). apply in_seq in Hi. apply Nat.eqb_eq in E. lia.
  - intros H. exists u. split; [apply in_seq; lia | apply Nat.eqb_refl].
Qed.

Lemma existsb_map {A B : Type} (f : A -> B) (p : B -> bool) (l : list A) :
  existsb (fun a => p (f a)) l = existsb p (List.map f l).
Proof. induction l as [|a l IH]; simpl; [reflexivity|]. rewrite IH. reflexivity. Qed.

(** X25. A creature is made of fourteen objects numbered in a row, the
    group first and its thirteen parts after it, and a click counts as a
    click on the creature exactly when it names one of them.  The
    constructor moves the object counter past all fourteen, so the parts
    of creatures made one after the other never overlap. *)
Theorem constructor_parts (x y z : R) (rt : Runtime) (u : nat) :
  (Game.isClicked u (Cow.constructor toString36 x y z rt).1 = true
   <-> (nextId rt <= u < nextId rt + 14)%nat)
  /\ nextId (Cow.constructor toString36 x y z rt).2 = (14 + nextId rt)%nat.
Proof.
  destruct (constructor_ids toString36 x y z rt) as [Hg Hc].
  split.
  - unfold Game.isClicked. rewrite Hg.
    rewrite (existsb_map Three.mesh_uuid (fun i => Nat.eqb i u)), Hc.
    rewrite orb_true_iff, Nat.eqb_eq, existsb_seq. lia.
  - reflexivity.
Qed.

End Parts.

(** ** Setting up and cleaning up *)

Section SessionProperties.
Local Open Scope R_scope.

Variable toString36 : R -> string.

Lemma foldM_cons {S A B : Type} (body : B -> A -> JS.State S B) (a : A)
    (l : list A) (b : B) (s : S) :
  Run.foldM body (a :: l) b s
  = Run.foldM body l (body b a s).1 (body b a s).2.
Proof. simpl. unfold JS.bind. destruct (body b a s). reflexivity. Qed.

Lemma filter_filter_groups (g : nat) (ids l : list nat) :
  List.filter (fun i => negb (existsb (Nat.eqb i) ids))
    (List.filter (fun i => negb (Nat.eqb i g)) l)
  = List.filter (fun i => negb (existsb (Nat.eqb i) (g :: ids))) l.
Proof.
  induction l as [|a l IH]; [reflexivity|].
  cbn [List.filter existsb].
  destruct (Nat.eqb a g); cbn [negb orb]; [exact IH|].
  cbn [List.filter]. rewrite IH. reflexivity.
Qed.

Lemma cleanup_scene (cows : list (string * Cow.t)) :
  forall (u : unit) (rt : Runtime),
    scene (Run.foldM (fun (_ : unit) (kc : string * Cow.t) =>
                        Run.scene_remove (Three.group_uuid (Cow.mesh kc.2)))
             cows u rt).2
    = List.filter (fun i => negb (existsb (Nat.eqb i) (groups cows)))
        (scene rt)
    /\ nextId (Run.foldM (fun (_ : unit) (kc : string * Cow.t) =>
                            Run.scene_remove
                              (Three.group_uuid (Cow.mesh kc.2)))
                 cows u rt).2 = nextId rt.
Proof.
  induction cows as [|[k c] rest IH]; intros u rt.
  - simpl. split; [|reflexivity].
    induction (scene rt) as [|a l IHl]; [reflexivity|].
    simpl. f_equal. exact IHl.
  - rewrite foldM_cons.
    match goal with
    | |- context [Run.foldM _ rest ?u' ?rt'] =>
        destruct (IH u' rt') as [E1 E2]
    end.
    rewrite E1, E2. split; [|reflexivity].
    unfold Run.scene_remove. cbn [snd scene].
    apply filter_filter_groups.
Qed.

(** X26. The cleanup takes the creatures out of the scene and leaves
    the blocks in it: afterwards the herd is empty and the scene holds,
    in their order, the objects it held that are not the group of a
    creature; and a store that agreed with the scene, and shares no
    object with the herd, still agrees with it. *)
Theorem cleanup_leaves_blocks (world : gmap string Three.Mesh)
    (cows : list (string * Cow.t)) (rt : Runtime) :
  coherent rt world ->
  apart world cows ->
  (Session.cleanup cows rt).1 = []
  /\ scene (Session.cleanup cows rt).2
     = List.filter (fun i => negb (existsb (Nat.eqb i) (groups cows)))
         (scene rt)
  /\ coherent (Session.cleanup cows rt).2 world.
Proof.
  intros (Hn & Hk & Hs & Hu) Ha.
  unfold Session.cleanup, JS.bind, JS.ret.
  destruct (cleanup_scene cows tt rt) as [E1 E2].
  destruct (Run.foldM _ cows tt rt) as [[] rt'] eqn:E.
  cbn [fst snd] in *.
  refine (conj eq_refl (conj E1 _)).
  unfold coherent, numbered. rewrite E1, E2.
  refine (conj _ (conj Hk (conj _ Hu))).
  - intros id Hid. apply List.filter_In in Hid. apply Hn, Hid.
  - intros k m Hm. apply List.filter_In. split; [exact (Hs k m Hm)|].
    apply negb_true_iff. apply not_true_is_false. intros Hex.
    apply existsb_exists in Hex. destruct Hex as (g & Hg & Eg).
    apply Nat.eqb_eq in Eg. subst g. exact (Ha k m Hm Hg).
Qed.

(** *** Setting up *)

Lemma constructor_runtime (x y z : R) (rt : Runtime) :
  scene (Cow.constructor toString36 x y z rt).2 = scene rt
  /\ nextId (Cow.constructor toString36 x y z rt).2 = (14 + nextId rt)%nat.
Proof. split; reflexivity. Qed.

(** Spawning leaves the blocks where they are in the scene, puts every
    creature of the herd in it, and gives no creature the object of a
    block. *)
Lemma spawnCows_shown (world : gmap string Three.Mesh) (count : nat)
    (rt : Runtime) :
  coherent rt world -> draws (random rt) ->
  coherent (Game.spawnCows toString36 count rt).2 world
  /\ shown (Game.spawnCows toString36 count rt).2
       (Game.spawnCows toString36 count rt).1
  /\ apart world (Game.spawnCows toString36 count rt).1.
Proof.
  intros Hc Hd.
  set (n0 := nextId rt).
  set (I := fun (cows : list (string * Cow.t)) (s : Runtime) =>
              (coherent s world /\ draws (random s))
              /\ Forall (fun kc : string * Cow.t =>
                           In (Three.group_uuid (Cow.mesh kc.2)) (scene s)
                           /\ (n0 <= Three.group_uuid (Cow.mesh kc.2))%nat)
                   cows
              /\ (n0 <= nextId s)%nat).
  assert (G : I (Game.spawnCows toString36 count rt).1
                (Game.spawnCows toString36 count rt).2).
  { unfold Game.spawnCows. apply (foldM_invariant_state I).
    2:{ subst I. cbv beta. refine (conj (conj Hc Hd) (conj _ _));
          [constructor | subst n0; lia]. }
    subst I. cbv beta. clear Hc Hd.
    intros cows i s ((Hc & Hd) & Hcows & Hle).
    unfold JS.bind, Run.with_random, Run.scene_add, JS.ret.
    destruct (do_while_spec 15 49 0 (random s) eq_refl) as [_ E].
    destruct (Game.do_while 15 0 (random s)) as [[[[x y] z] n] s'].
    cbn [fst snd] in *.
    match goal with
    | |- context [Cow.constructor toString36 x (IZR y) z ?r] =>
        assert (Hs : draws (random r))
          by (apply (suffix_draws (random s));
              [exists 100%nat; exact E | exact Hd]);
        pose proof (suffix_draws _ _
                      (constructor_random toString36 x (IZR y) z r) Hs)
          as Hd';
        destruct (constructor_ids toString36 x (IZR y) z r) as [Hg _];
        destruct (constructor_runtime x (IZR y) z r) as [Hsc Hnx];
        destruct (Cow.constructor toString36 x (IZR y) z r) as [cow r']
    end.
    cbn [fst snd scene nextId random] in *.
    destruct Hc as (Hn & Hk & Hsn & Hu).
    assert (Hold : forall id, In id (scene s) ->
                     In id (List.filter
                              (fun i => negb (Nat.eqb i (Three.group_uuid
                                                           (Cow.mesh cow))))
                              (scene r')
                            ++ [Three.group_uuid (Cow.mesh cow)])).
    { intros id Hid. apply In_scene_add. right. rewrite Hsc.
      split; [exact Hid|]. apply Hn in Hid. lia. }
    refine (conj (conj _ Hd') (conj _ _)).
    - unfold coherent, numbered. cbn [scene nextId].
      refine (conj _ (conj Hk (conj _ Hu))).
      + intros id Hid. apply In_scene_add in Hid. rewrite Hsc in Hid.
        destruct Hid as [->|[Hid _]]; [lia|]. apply Hn in Hid. lia.
      + intros k m Hm. apply Hold, (Hsn k m Hm).
    - apply Map_set_Forall.
      + cbn [snd]. split; [|lia]. apply In_scene_add. left. reflexivity.
      + eapply Forall_impl; [exact Hcows|]. cbv beta.
        intros kc [Hin Hge]. split; [apply Hold, Hin | exact Hge].
    - lia. }
  subst I. cbv beta in G. destruct G as ((Hc' & _) & Hcows & _).
  refine (conj Hc' (conj _ _)).
  - unfold shown, groups. apply Forall_map.
    eapply Forall_impl; [exact Hcows|]. cbv beta. tauto.
  - intros k m Hm Hin. unfold groups in Hin.
    apply List.in_map_iff in Hin. destruct Hin as (kc & Eq & Hkc).
    rewrite Forall_forall in Hcows.
    apply list_elem_of_In in Hkc. destruct (Hcows kc Hkc) as [_ Hge].
    destruct Hc as (Hn & _ & Hs & _).
    pose proof (Hn _ (Hs k m Hm)) as Hlt. subst n0. lia.
Qed.

(** X27. What the effect has set up when the handlers are installed,
    started with a scene that holds only objects created so far and with
    draws in [0, 1): the camera stands at [(0, 10, 10)], unturned; the
    store agrees with the scene and lies within the extent of the
    generated terrain and its trees; every creature of the herd is in the
    scene; and no block is drawn as the group of a creature, so the
    cleanup takes out the creatures only. *)
Theorem setup_ready materials (rt : Runtime) :
  numbered rt -> draws (random rt) ->
  let camera := (Session.setup toString36 materials rt).1.1.1 in
  let world := (Session.setup toString36 materials rt).1.1.2 in
  let cows := (Session.setup toString36 materials rt).1.2 in
  let rt' := (Session.setup toString36 materials rt).2 in
  camera = Three.mkCamera (Vector3.mk 0 10 10) (Quaternion.mk 0 0 0 1)
  /\ coherent rt' world /\ within_extent world
  /\ shown rt' cows /\ apart world cows.
Proof.
  intros Hn Hd. cbv zeta. unfold Session.setup.
  unfold JS.bind, Run.fresh, Run.scene_add, JS.ret. cbv beta iota.
  cbn [nextId random dates scene].
  match goal with
  | |- context [Game.generateWorld materials ?r] =>
      assert (Hl : numbered r /\ draws (random r))
  end.
  { split; [|exact Hd].
    intros id Hid. cbn [scene nextId] in *.
    apply In_scene_add in Hid. destruct Hid as [->|[Hid _]]; [lia|].
    apply In_scene_add in Hid. destruct Hid as [->|[Hid _]]; [lia|].
    apply Hn in Hid. lia. }
  destruct Hl as [Hln Hld].
  match goal with
  | |- context [Game.generateWorld materials ?r] =>
      destruct (generateWorld_kept materials r) as (Hc & Hw & Hd')
  end.
  { refine (conj (conj Hln _) (conj _ Hld)).
    - repeat split; intros *; rewrite lookup_empty; discriminate.
    - intros k m. rewrite lookup_empty. discriminate. }
  destruct (Game.generateWorld materials _) as [world rt1].
  cbn [fst snd] in *.
  destruct (spawnCows_shown world 5 rt1 Hc Hd') as (Hc2 & Hsh & Hap).
  destruct (Game.spawnCows toString36 5 rt1) as [cows rt2].
  cbn [fst snd] in *.
  exact (conj eq_refl (conj Hc2 (conj Hw (conj Hsh Hap)))).
Qed.

End SessionProperties.

(** ** The effect from the blank runtime, the cleanup in the pasture *)

Section SessionViews.
Local Open Scope R_scope.

Lemma pasture_group : groups Pasture.cows = [1%nat].
Proof. reflexivity. Qed.

Lemma pasture_apart : apart FrontFace.world Pasture.cows.
Proof.
  intros k m Hm Hin. rewrite pasture_group in Hin.
  unfold FrontFace.world in Hm.
  apply lookup_singleton_Some in Hm. destruct Hm as [_ <-].
  destruct Hin as [Hin|[]]. discriminate Hin.
Qed.

(** The herd of the pasture taken out of the scene of the single
    block. *)
Lemma cleanup_leaves_blocks_pasture :
  (Session.cleanup Pasture.cows FrontFace.runtime).1 = []
  /\ scene (Session.cleanup Pasture.cows FrontFace.runtime).2
     = List.filter
         (fun i => negb (existsb (Nat.eqb i) (groups Pasture.cows)))
         (scene FrontFace.runtime)
  /\ coherent (Session.cleanup Pasture.cows FrontFace.runtime).2
       FrontFace.world.
Proof.
  exact (cleanup_leaves_blocks FrontFace.world Pasture.cows
           FrontFace.runtime front_face_coherent pasture_apart).
Defined.

(** The effect run from the blank runtime. *)
Lemma setup_ready_blank :
  (Session.setup Pasture.toString36 Game.createMaterials blank).1.1.1
  = Three.mkCamera (Vector3.mk 0 10 10) (Quaternion.mk 0 0 0 1)
  /\ coherent (Session.setup Pasture.toString36 Game.createMaterials blank).2
       (Session.setup Pasture.toString36 Game.createMaterials blank).1.1.2
  /\ within_extent
       (Session.setup Pasture.toString36 Game.createMaterials blank).1.1.2
  /\ shown (Session.setup Pasture.toString36 Game.createMaterials blank).2
       (Session.setup Pasture.toString36 Game.createMaterials blank).1.2
  /\ apart (Session.setup Pasture.toString36 Game.createMaterials blank).1.1.2
       (Session.setup Pasture.toString36 Game.createMaterials blank).1.2.
Proof.
  exact (setup_ready Pasture.toString36 Game.createMaterials blank
           (proj1 blank_ready) (proj2 blank_ready)).
Defined.

End SessionViews.

(** ** The layers of the terrain *)

Section Layers.
Local Open Scope R_scope.

Variable materials : Utils.BlockType -> Three.Material.

(** What a loop establishes for each element and no later pass undoes,
    while the state keeps a property the passes rely on. *)
Lemma foldM_covers_state {S A B : Type} (D : S -> Prop) (Q : A -> B -> Prop)
    (body : B -> A -> JS.State S B) (l : list A) :
  (forall a b s, a ∈ l -> D s -> Q a (body b a s).1) ->
  (forall a a' b s, D s -> Q a b -> Q a (body b a' s).1) ->
  (forall a b s, D s -> D (body b a s).2) ->
  forall a, a ∈ l -> forall b s, D s -> Q a (Run.foldM body l b s).1.
Proof.
  intros Hest Hkeep Hd. induction l as [|a0 l IH]; intros a Ha b s Hs.
  - inversion Ha.
  - simpl. unfold JS.bind.
    pose proof (Hest a0 b s ltac:(left) Hs) as H0.
    pose proof (Hd a0 b s Hs) as Hs'.
    destruct (body b a0 s) as [b' s']. cbn [fst snd] in *.
    apply elem_of_cons in Ha. destruct Ha as [->|Ha].
    + assert (G : Q a0 (Run.foldM body l b' s').1 /\ D (Run.foldM body l b' s').2).
      { apply (foldM_invariant_state (fun b s => Q a0 b /\ D s));
          [|split; assumption].
        intros b1 a1 s1 [Hq Hd1]. split; [apply Hkeep | apply Hd]; assumption. }
      exact (proj1 G).
    + apply IH; [|exact Ha|exact Hs'].
      intros a1 b1 s1 H1. apply Hest. right. exact H1.
Qed.

Lemma foldM_state {S A B : Type} (D : S -> Prop)
    (body : B -> A -> JS.State S B) (l : list A) :
  (forall a b s, D s -> D (body b a s).2) ->
  forall b s, D s -> D (Run.foldM body l b s).2.
Proof.
  intros Hd b s Hs.
  apply (foldM_invariant_state (fun _ s => D s)); [|exact Hs].
  intros b1 a1 s1. apply Hd.
Qed.

(** A block of the right layer put in the cell makes it layered; a block
    put in another cell leaves it so. *)
Lemma addBlock_layered (x y z x' y' z' : Z) (b : Utils.BlockType)
    (world : gmap string Three.Mesh) (rt : Runtime) :
  ((x', y', z') = (x, y, z) ->
   b = Utils.getBlockType y (Utils.getTerrainHeight (IZR x) (IZR z))) ->
  (x', y', z') = (x, y, z) \/ layered materials x y z world ->
  layered materials x y z (Game.addBlock materials b x' y' z' world rt).1.
Proof.
  intros Hb H. rewrite addBlock_result. cbn [fst]. unfold layered.
  destruct (decide ((x', y', z') = (x, y, z))) as [E|N].
  - rewrite (Hb E). injection E as -> -> ->.
    rewrite lookup_insert_eq. eauto.
  - destruct H as [E|[u Hu]]; [contradiction|].
    exists u. rewrite lookup_insert_ne; [exact Hu|].
    intros K. apply key_inj in K. destruct K as (-> & -> & ->).
    apply N. reflexivity.
Qed.

(** The random source after a column is what is left of the one
    before. *)
Lemma column_draws (x z : Z) (world : gmap string Three.Mesh)
    (rt : Runtime) :
  draws (random rt) -> draws (random (column materials x world z rt).2).
Proof.
  intros Hd.
  set (D := fun s : Runtime => draws (random s)).
  assert (Hadd : forall (b : Utils.BlockType) (x y z : Z)
                        (w : gmap string Three.Mesh) (s : Runtime),
             D s -> D (Game.addBlock materials b x y z w s).2)
    by (intros; assumption).
  assert (Hdraw : forall s : Runtime,
             D s -> D (mkRuntime (fun n => random s (S n)) (dates s)
                         (nextId s) (scene s)))
    by (intros s Hs n; apply Hs).
  change (D (column materials x world z rt).2). change (D rt) in Hd.
  unfold column. cbv zeta. unfold JS.bind at 1.
  match goal with
  | |- context [Run.foldM ?body ?l world rt] =>
      pose proof (foldM_state D body l
                    (fun a b s => Hadd _ _ _ _ b s) world rt Hd) as H1;
      destruct (Run.foldM body l world rt) as [w1 s1]
  end.
  cbn [snd] in H1.
  unfold JS.bind at 1, Run.Math_random at 1, JS.Math_random at 1.
  cbv beta iota. apply Hdraw in H1.
  destruct (JS.ltb _ _ && _); [|exact H1].
  unfold JS.bind at 1, Run.Math_random at 1, JS.Math_random at 1.
  cbv beta iota. apply Hdraw in H1. unfold JS.bind at 1.
  match goal with
  | |- context [Run.foldM ?body ?l w1 ?s2] =>
      pose proof (foldM_state D body l
                    (fun a b s => Hadd _ _ _ _ b s) w1 s2 H1) as H2;
      destruct (Run.foldM body l w1 s2) as [w2 s3]
  end.
  cbn [snd] in H2. revert H2. generalize s3. generalize w2.
  intros w3 s4. apply foldM_state. clear w3 s4. intros dx w3 s4.
  apply foldM_state. clear w3 s4. intros dz w3 s4.
  apply foldM_state. clear w3 s4. intros dy w3 s4 H4.
  destruct (_ <=? _)%Z; [|exact H4].
  unfold JS.bind at 1, Run.Math_random at 1, JS.Math_random at 1.
  cbv beta iota. apply Hdraw in H4.
  destruct (JS.ltb _ _); [|exact H4]. apply Hadd, H4.
Qed.

(** A column leaves the layered cells below height 8 layered, and makes
    its own so. *)
Lemma column_layered (x y z x' z' : Z) (world : gmap string Three.Mesh)
    (rt : Runtime) :
  draws (random rt) ->
  (0 <= y <= columnHeight x z)%Z -> (y <= 7)%Z ->
  (x', z') = (x, z) \/ layered materials x y z world ->
  layered materials x y z (column materials x' world z' rt).1.
Proof.
  intros Hd Hy H7 H.
  set (I := layered materials x y z).
  unfold column. cbv zeta. fold (columnHeight x' z').
  set (height := columnHeight x' z').
  unfold JS.bind at 1.
  assert (H1 : I (Run.foldM
                    (fun world y =>
                       Game.addBlock materials (Game.blockType y height)
                         x' y z' world)
                    (seqZ 0 (height + 1)) world rt).1).
  { destruct H as [E|H].
    - injection E as -> ->.
      apply (foldM_covers (fun y w => layered materials x y z w)).
      + intros a b s _. apply addBlock_layered; [|left; reflexivity].
        intros _. reflexivity.
      + intros a a' b s Hb. apply addBlock_layered; [|right; exact Hb].
        intros [= ->]. reflexivity.
      + apply elem_of_seqZ. subst height. lia.
    - apply (foldM_invariant I); [|exact H].
      intros b a s Hb. apply addBlock_layered; [|right; exact Hb].
      intros [= -> -> ->]. reflexivity. }
  assert (R1 : random (Run.foldM
                         (fun world y =>
                            Game.addBlock materials (Game.blockType y height)
                              x' y z' world)
                         (seqZ 0 (height + 1)) world rt).2 = random rt).
  { apply (foldM_invariant_state (fun _ s => random s = random rt));
      [|reflexivity].
    intros b a s Hs. exact Hs. }
  destruct (Run.foldM _ (seqZ 0 (height + 1)) world rt) as [w1 s1].
  cbn [fst snd] in H1, R1.
  unfold JS.bind at 1, Run.Math_random at 1, JS.Math_random at 1.
  cbv beta iota.
  destruct (JS.ltb _ _) ; cbn [andb]; [|exact H1].
  destruct (height >? 3)%Z eqn:Hh; [|exact H1].
  apply Z.gtb_lt in Hh.
  unfold JS.bind at 1, Run.Math_random at 1, JS.Math_random at 1.
  cbv beta iota. cbn [random].
  pose proof (Hd 1%nat) as Hr. rewrite <- R1 in Hr.
  assert (Ht : (4 <= 4 + JS.Math_floor (random s1 1%nat * 3))%Z).
  { pose proof (floor_between (random s1 1%nat * 3) 0 3 ltac:(lra)). lia. }
  set (treeHeight := (4 + JS.Math_floor (random s1 1%nat * 3))%Z) in *.
  unfold JS.bind at 1.
  match goal with
  | |- context [Run.foldM ?body ?l w1 ?s2] =>
      assert (H3 : I (Run.foldM body l w1 s2).1);
      [|destruct (Run.foldM body l w1 s2) as [w3 s3]]
  end.
  { apply (foldM_invariant_in I); [|exact H1].
    intros b a s Ha Hb. apply elem_of_seqZ in Ha.
    apply addBlock_layered; [|right; exact Hb].
    intros [= -> -> ->]. subst height. lia. }
  cbn [fst] in H3. revert H3. generalize s3. generalize w3.
  intros w4 s4. apply (foldM_invariant I). clear w4 s4. intros w4 dx s4.
  apply (foldM_invariant I). clear w4 s4. intros w4 dz s4.
  apply (foldM_invariant_in I). clear w4 s4. intros w4 dy s4 Hdy H4.
  apply elem_of_seqZ in Hdy.
  destruct (JS.Math_abs dx + JS.Math_abs dz <=? 2)%Z; [|exact H4].
  unfold JS.bind at 1, Run.Math_random at 1, JS.Math_random at 1.
  cbv beta iota.
  destruct (JS.ltb _ _); [|exact H4].
  apply addBlock_layered; [|right; exact H4].
  intros [= _ Hy' _]. lia.
Qed.

(** X28. The terrain [generateWorld] leaves has the layers of the
    classifier, trees or not.  With draws in [0, 1), every cell of a
    column of the square [-20 .. 20], from the ground up to the terrain
    height of the column and below height 8, holds a block that stands at
    the cell and wears the material of the type [getBlockType] gives it:
    grass on top, dirt for the three cells under it, stone beneath. *)
Theorem generateWorld_layers (rt : Runtime) (x y z : Z) :
  draws (random rt) ->
  (-20 <= x <= 20)%Z -> (-20 <= z <= 20)%Z ->
  (0 <= y <= Utils.getTerrainHeight (IZR x) (IZR z))%Z -> (y <= 7)%Z ->
  exists u : nat,
    (Game.generateWorld materials rt).1 !! Utils.getBlockKey x y z
    = Some (Three.mkMesh u (Vector3.mk (IZR x) (IZR y) (IZR z))
              (Vector3.mk 0 0 0)
              (materials
                 (Utils.getBlockType y
                    (Utils.getTerrainHeight (IZR x) (IZR z))))
              None).
Proof.
  intros Hd Hx Hz Hy H7. rewrite <- key_getBlockKey.
  change (layered materials x y z (Game.generateWorld materials rt).1).
  rewrite <- columnHeight_getTerrainHeight in Hy.
  rewrite generateWorld_columns.
  set (D := fun s : Runtime => draws (random s)).
  assert (Hrow : forall x' w s, D s ->
             D (Run.foldM (column materials x') (seqZ (-20) 41) w s).2).
  { intros x' w s Hs. apply foldM_state; [|exact Hs].
    intros a b s0 Hs0. apply column_draws, Hs0. }
  revert z y Hz Hy H7.
  apply (foldM_covers_state D
           (fun x (w : gmap string Three.Mesh) =>
              forall z y, (-20 <= z <= 20)%Z ->
                          (0 <= y <= columnHeight x z)%Z -> (y <= 7)%Z ->
                          layered materials x y z w));
    [| | |apply elem_of_seqZ; lia|exact Hd].
  - clear x Hx rt Hd. intros x w s _ Hs z y Hz Hy H7. revert y Hy H7.
    apply (foldM_covers_state D
             (fun z (w : gmap string Three.Mesh) =>
                forall y, (0 <= y <= columnHeight x z)%Z -> (y <= 7)%Z ->
                          layered materials x y z w));
      [| | |apply elem_of_seqZ; lia|exact Hs].
    + clear z Hz w s Hs. intros z w s _ Hs y Hy H7.
      apply column_layered; auto.
    + clear z Hz w s Hs. intros z z' w s Hs Hw y Hy H7.
      apply column_layered; auto.
    + intros a b s0 Hs0. apply column_draws, Hs0.
  - clear x Hx rt Hd. intros x x' w s Hs Hw z y Hz Hy H7.
    assert (G : layered materials x y z
                  (Run.foldM (column materials x') (seqZ (-20) 41) w s).1
                /\ D (Run.foldM (column materials x') (seqZ (-20) 41) w s).2).
    { apply (foldM_invariant_state
               (fun w s => layered materials x y z w /\ D s));
        [|split; [exact (Hw z y Hz Hy H7) | exact Hs]].
      intros w1 z1 s1 [H1 Hs1].
      split; [apply column_layered; auto | apply column_draws, Hs1]. }
    exact (proj1 G).
  - intros a b s Hs. apply Hrow, Hs.
Qed.

End Layers.

Section LayersView.
Local Open Scope R_scope.

(** The ground under the centre of the world, generated from the blank
    runtime. *)
Lemma generateWorld_layers_centre :
  exists u : nat,
    (Game.generateWorld Game.createMaterials blank).1
      !! Utils.getBlockKey 0 0 0
    = Some (Three.mkMesh u (Vector3.mk (IZR 0) (IZR 0) (IZR 0))
              (Vector3.mk 0 0 0)
              (Game.createMaterials
                 (Utils.getBlockType 0
                    (Utils.getTerrainHeight (IZR 0) (IZR 0))))
              None).
Proof.
  apply (generateWorld_layers Game.createMaterials blank 0 0 0).
  - exact (proj2 blank_ready).
  - lia.
  - lia.
  - pose proof (columnHeight_range 0 0) as H.
    rewrite columnHeight_getTerrainHeight in H. lia.
  - lia.
Defined.

End LayersView.

(** ** A frame *)

Section FrameProperties.
Local Open Scope R_scope.

Variable toString36 : R -> string.

(** A creature that comes out of a tick fed is aimed at the camera of
    the tick. *)
Lemma tick_aims camera (c : Cow.t) (delta : R) (rt : Runtime) :
  (Cow.isFed c = true -> Cow.followTarget c <> None) ->
  Cow.isFed (Game.tick camera delta c rt).1 = true ->
  Cow.followTarget (Game.tick camera delta c rt).1
  = Some (Three.position camera).
Proof.
  intros Hs. unfold Game.tick.
  match goal with
  | |- context [Cow.update ?c0 delta ?wb rt] =>
      destruct (update_frame c0 delta wb rt) as (Ef & Et & _)
  end.
  cbv zeta in Ef, Et. rewrite Ef, Et. clear Ef Et.
  destruct (Cow.isFed c) eqn:Fed.
  - destruct (Cow.followTarget c) as [old|] eqn:Ft;
      [|destruct (Hs eq_refl eq_refl)].
    unfold timers. cbn [Cow.set_wanderTimer Cow.set_followTarget Cow.isFed].
    rewrite Fed.
    cbn [Cow.set_fedTimer Cow.fedTimer Cow.maxFedTime].
    destruct (JS.geb _ _); [|intros _; reflexivity].
    unfold Cow.updateBodyColor.
    cbn [Cow.set_mesh Cow.set_fedTimer Cow.set_followTarget Cow.set_isFed
           Cow.isFed].
    discriminate.
  - unfold timers. cbn [Cow.set_wanderTimer Cow.isFed]. rewrite Fed.
    cbn [Cow.set_wanderTimer Cow.isFed]. rewrite Fed. discriminate.
Qed.

(** X29. A frame moves the camera first and aims the creatures
    afterwards.  For a herd the program can hold, a frame time that is
    not negative and draws in [0, 1): the camera that comes out is the
    one the keys move it to, every creature is again one the program can
    hold, and every creature that comes out of the frame fed is aimed
    at the position the camera has after the move. *)
Theorem animate_aims (isMouseLocked : bool) (moveState : Controls.MoveState)
    (delta : R) (camera : Three.Camera) (cows : list (string * Cow.t))
    (rt : Runtime) :
  0 <= delta -> draws (random rt) ->
  Forall (fun kc : string * Cow.t => reachable toString36 kc.2) cows ->
  let frame :=
    (Frame.animate isMouseLocked moveState delta camera cows rt).1 in
  frame.1 = Controls.moveCamera isMouseLocked moveState delta camera
  /\ Forall (fun kc : string * Cow.t =>
               reachable toString36 kc.2
               /\ (Cow.isFed kc.2 = true ->
                   Cow.followTarget kc.2 = Some (Three.position frame.1)))
       frame.2.
Proof.
  intros Hdelta Hd Hcows. cbv zeta. unfold Frame.animate, JS.bind, JS.ret.
  set (camera' := Controls.moveCamera isMouseLocked moveState delta camera).
  pose proof (updateCows_reachable toString36 camera' delta cows rt Hdelta Hd
                Hcows) as Hr.
  unfold Game.updateCows in *.
  destruct (updateCows_ticks camera' delta cows [] rt) as (after & E & H2).
  destruct (Run.foldM _ cows [] rt) as [cows' rt'].
  cbn [fst snd] in *. subst cows'. cbn [app] in *.
  split; [reflexivity|].
  revert Hr. clear Hd. revert Hcows.
  induction H2 as [|kc kc' l l' (Hk & s & Hc) _ IH]; intros Hcows Hr;
    [constructor|].
  inversion Hcows as [|? ? Hkc Hl]; subst.
  inversion Hr as [|? ? Hkc' Hl']; subst.
  constructor; [|exact (IH Hl Hl')].
  split; [exact Hkc'|]. rewrite Hc.
  apply tick_aims.
  destruct (reachable_steady toString36 kc.2 Hkc) as (_ & _ & _ & _ & Hf).
  intros Fed. exact (proj2 (Hf Fed)).
Qed.

End FrameProperties.

Section FrameView.
Local Open Scope R_scope.

(** The fed creature of the pasture through a frame with W held. *)
Lemma animate_aims_pasture :
  (Frame.animate true
     (Controls.mkMoveState true false false false false false) (1 / 60)
     FrontFace.camera Pasture.fedCows FrontFace.runtime).1.1
  = Controls.moveCamera true
      (Controls.mkMoveState true false false false false false) (1 / 60)
      FrontFace.camera
  /\ Forall (fun kc : string * Cow.t =>
               reachable Pasture.toString36 kc.2
               /\ (Cow.isFed kc.2 = true ->
                   Cow.followTarget kc.2
                   = Some (Three.position
                             (Frame.animate true
                                (Controls.mkMoveState true false false false
                                   false false) (1 / 60)
                                FrontFace.camera Pasture.fedCows
                                FrontFace.runtime).1.1)))
       (Frame.animate true
          (Controls.mkMoveState true false false false false false) (1 / 60)
          FrontFace.camera Pasture.fedCows FrontFace.runtime).1.2.
Proof.
  apply (animate_aims Pasture.toString36 true
           (Controls.mkMoveState true false false false false false) (1 / 60)
           FrontFace.camera Pasture.fedCows FrontFace.runtime).
  - lra.
  - exact pasture_draws.
  - constructor; [|constructor]. cbn [snd].
    apply reach_feed.
    exact (reach_constructor Pasture.toString36 0 (- (1 / 5)) (5 / 2)
             FrontFace.runtime pasture_draws).
Defined.

End FrameView.

(** ** Keys of the store *)

Section Keys.

(** X30. Two cells have the same key exactly when they are the same
    cell, so the store never holds one block for two cells. *)
Theorem getBlockKey_injective (x y z x' y' z' : Z) :
  Utils.getBlockKey x y z = Utils.getBlockKey x' y' z'
  <-> (x = x' /\ y = y' /\ z = z').
Proof.
  split.
  - intros H.
    pose proof (parse_getBlockKey x y z) as P.
    rewrite H, parse_getBlockKey in P. injection P as -> -> ->. auto.
  - intros (-> & -> & ->). reflexivity.
Qed.

End Keys.
